(** * ToolPanel: the session protocol handler of the realtime console

    A shallow embedding of [client/components/ToolPanel.jsx]: the constants
    of the module, the [FunctionCallOutput] component, the event handler
    [handleSessionUpdateSubmit], the two [useEffect] bodies of [ToolPanel]
    and the cleanup closure of the first one, together with the part of the
    JavaScript and React run time they rest on ([String.prototype.trim],
    [JSON.parse], the conversion of a value to a string that makes the key
    of an element, the values React accepts as children, the browser's
    timer table, and the commit of effects whose dependencies changed).

    Conventions.
    - A JavaScript string is a Rocq [string] holding its UTF-8 encoding, so
      the string literals below denote the literals of the source.
    - Every call the component makes to the outside ([sendClientEvent], the
      state setters, [window.setTimeout], [clearTimeout],
      [event.preventDefault]) is recorded, in order, in the [calls] field of
      the [World]; the commands sent are read back from that record.
    - A closure is represented by the data it captures. *)

From Stdlib Require Import String Ascii List NArith Arith Lia Bool.
Import ListNotations.
Open Scope string_scope.
Set Warnings "-register-all".

(* ================================================================== *)
(** ** JavaScript strings *)
(* ================================================================== *)

Module JsString.

Definition code (c : ascii) : N := N_of_ascii c.

(** The double quote and the line feed, which a Rocq literal cannot hold
    conveniently. *)
Definition dquote : ascii := "034"%char.
Definition lf : ascii := "010"%char.

Definition quoted (s : string) : string :=
  String dquote (s ++ String dquote EmptyString).

(** WhiteSpace and LineTerminator code points of ECMAScript, by the length
    of their UTF-8 encoding.  One byte: TAB, LF, VT, FF, CR, SP. *)
Definition ws1 (a : ascii) : bool :=
  let n := code a in
  ((9 <=? n) && (n <=? 13) || (n =? 32))%N.

(** Two bytes: U+00A0 (C2 A0). *)
Definition ws2 (a b : ascii) : bool :=
  ((code a =? 194) && (code b =? 160))%N.

(** Three bytes: U+1680 (E1 9A 80), U+2000..U+200A (E2 80 80..8A),
    U+2028, U+2029 (E2 80 A8, A9), U+202F (E2 80 AF), U+205F (E2 81 9F),
    U+3000 (E3 80 80), U+FEFF (EF BB BF). *)
Definition ws3 (a b c : ascii) : bool :=
  let x := code a in
  let y := code b in
  let z := code c in
  ((x =? 225) && (y =? 154) && (z =? 128)
   || (x =? 226) && (y =? 128)
      && ((128 <=? z) && (z <=? 138) || (z =? 168) || (z =? 169) || (z =? 175))
   || (x =? 226) && (y =? 129) && (z =? 159)
   || (x =? 227) && (y =? 128) && (z =? 128)
   || (x =? 239) && (y =? 187) && (z =? 191))%N.

Section Strip.
(** Removes the white space a byte sequence starts with; the recognisers
    are parameters so that the same code serves the reversed string. *)
Variable w1 : ascii -> bool.
Variable w2 : ascii -> ascii -> bool.
Variable w3 : ascii -> ascii -> ascii -> bool.

Fixpoint strip (l : list ascii) : list ascii :=
  match l with
  | [] => []
  | a :: l1 =>
      if w1 a then strip l1
      else match l1 with
           | [] => l
           | b :: l2 =>
               if w2 a b then strip l2
               else match l2 with
                    | [] => l
                    | c :: l3 => if w3 a b c then strip l3 else l
                    end
           end
  end.
End Strip.

Definition trimStartBytes (l : list ascii) : list ascii :=
  strip ws1 ws2 ws3 l.

Definition trimEndBytes (l : list ascii) : list ascii :=
  rev (strip ws1 (fun a b => ws2 b a) (fun a b c => ws3 c b a) (rev l)).

(** [String.prototype.trim]. *)
Definition trim (s : string) : string :=
  string_of_list_ascii (trimEndBytes (trimStartBytes (list_ascii_of_string s))).

(** Truthiness of a string: only the empty string is falsy. *)
Definition truthy (s : string) : bool :=
  match s with EmptyString => false | String _ _ => true end.

(** [a || b] on strings. *)
Definition or_else (a b : string) : string := if truthy a then a else b.

End JsString.

(* ================================================================== *)
(** ** JSON values and [JSON.parse] *)
(* ================================================================== *)

Module Json.

Import JsString.

(** A number keeps the text of its literal: nothing below depends on its
    value as a double. An object keeps its members in source order, with
    duplicates; [get] reads the last one, as the object built by
    [JSON.parse] does. *)
Inductive JSON : Type :=
| JNull
| JBool (b : bool)
| JNumber (literal : string)
| JString (s : string)
| JArray (items : list JSON)
| JObject (members : list (string * JSON)).

Fixpoint assoc_last (k : string) (l : list (string * JSON)) : option JSON :=
  match l with
  | [] => None
  | (k', v) :: rest =>
      match assoc_last k rest with
      | Some v' => Some v'
      | None => if String.eqb k' k then Some v else None
      end
  end.

(** Property read [v.k] for a key that no prototype defines: [None] is
    [undefined]. Reading a property of [null] throws and is handled by the
    caller. *)
Definition get (k : string) (v : JSON) : option JSON :=
  match v with
  | JObject members => assoc_last k members
  | _ => None
  end.

(** *** Tokens *)

Inductive Tok : Type :=
| TLBrace | TRBrace | TLBrack | TRBrack | TColon | TComma
| TStr (s : string) | TNum (literal : string)
| TTrue | TFalse | TNull.

Inductive NumState : Type :=
| NMinus | NZero | NInt | NDot | NFrac | NExp | NExpSign | NExpDigits.

(** The lexer reads one byte at a time. [hi] is a high surrogate read from
    a [\u] escape and not yet paired. *)
Inductive LexState : Type :=
| LIdle
| LString (acc : list ascii) (hi : option N)
| LEscape (acc : list ascii) (hi : option N)
| LUnicode (acc : list ascii) (hi : option N) (n : nat) (v : N)
| LNumber (st : NumState) (acc : list ascii)
| LLiteral (rest : list ascii) (t : Tok).

Definition text (acc : list ascii) : string := string_of_list_ascii (rev acc).

Definition byte (n : N) : ascii := ascii_of_N n.

(** UTF-8 encoding of a code point (a lone surrogate is encoded like any
    other three-byte code point). *)
Definition utf8 (cp : N) : list ascii :=
  if (cp <? 128)%N then [byte cp]
  else if (cp <? 2048)%N then
    [byte (192 + cp / 64); byte (128 + cp mod 64)]%N
  else if (cp <? 65536)%N then
    [byte (224 + cp / 4096); byte (128 + (cp / 64) mod 64);
     byte (128 + cp mod 64)]%N
  else
    [byte (240 + cp / 262144); byte (128 + (cp / 4096) mod 64);
     byte (128 + (cp / 64) mod 64); byte (128 + cp mod 64)]%N.

Definition push (cp : N) (acc : list ascii) : list ascii := rev (utf8 cp) ++ acc.

Definition flush (hi : option N) (acc : list ascii) : list ascii :=
  match hi with Some h => push h acc | None => acc end.

Definition is_high (u : N) : bool := ((55296 <=? u) && (u <=? 56319))%N.
Definition is_low (u : N) : bool := ((56320 <=? u) && (u <=? 57343))%N.

(** A code unit completed by a [\uXXXX] escape. *)
Definition push_unit (acc : list ascii) (hi : option N) (u : N) : LexState :=
  match hi with
  | Some h =>
      if is_low u
      then LString (push (65536 + (h - 55296) * 1024 + (u - 56320))%N acc) None
      else if is_high u then LString (push h acc) (Some u)
      else LString (push u (push h acc)) None
  | None =>
      if is_high u then LString acc (Some u) else LString (push u acc) None
  end.

Definition hex (c : ascii) : option N :=
  let n := code c in
  if ((48 <=? n) && (n <=? 57))%N then Some (n - 48)%N
  else if ((97 <=? n) && (n <=? 102))%N then Some (n - 87)%N
  else if ((65 <=? n) && (n <=? 70))%N then Some (n - 55)%N
  else None.

Definition is_digit (c : ascii) : bool :=
  let n := code c in ((48 <=? n) && (n <=? 57))%N.

Definition is_digit19 (c : ascii) : bool :=
  let n := code c in ((49 <=? n) && (n <=? 57))%N.

Definition is_e (c : ascii) : bool := ((code c =? 101) || (code c =? 69))%N.

(** White space of the JSON grammar: TAB, LF, CR, SP. *)
Definition json_ws (c : ascii) : bool :=
  let n := code c in ((n =? 9) || (n =? 10) || (n =? 13) || (n =? 32))%N.

Definition chars (s : string) : list ascii := list_ascii_of_string s.

(** A byte read between two tokens. *)
Definition lex_idle (c : ascii) : option (LexState * list Tok) :=
  if json_ws c then Some (LIdle, [])
  else if Ascii.eqb c "{" then Some (LIdle, [TLBrace])
  else if Ascii.eqb c "}" then Some (LIdle, [TRBrace])
  else if Ascii.eqb c "[" then Some (LIdle, [TLBrack])
  else if Ascii.eqb c "]" then Some (LIdle, [TRBrack])
  else if Ascii.eqb c ":" then Some (LIdle, [TColon])
  else if Ascii.eqb c "," then Some (LIdle, [TComma])
  else if Ascii.eqb c dquote then Some (LString [] None, [])
  else if Ascii.eqb c "-" then Some (LNumber NMinus [c], [])
  else if Ascii.eqb c "0" then Some (LNumber NZero [c], [])
  else if is_digit19 c then Some (LNumber NInt [c], [])
  else if Ascii.eqb c "t" then Some (LLiteral (chars "rue") TTrue, [])
  else if Ascii.eqb c "f" then Some (LLiteral (chars "alse") TFalse, [])
  else if Ascii.eqb c "n" then Some (LLiteral (chars "ull") TNull, [])
  else None.

(** The number read so far is complete and [c] does not belong to it. *)
Definition end_number (acc : list ascii) (c : ascii)
  : option (LexState * list Tok) :=
  match lex_idle c with
  | Some (s, ts) => Some (s, TNum (text acc) :: ts)
  | None => None
  end.

Definition lex_number (st : NumState) (acc : list ascii) (c : ascii)
  : option (LexState * list Tok) :=
  let go st' := Some (LNumber st' (c :: acc), []) in
  match st with
  | NMinus =>
      if Ascii.eqb c "0" then go NZero
      else if is_digit19 c then go NInt else None
  | NZero =>
      if Ascii.eqb c "." then go NDot
      else if is_e c then go NExp else end_number acc c
  | NInt =>
      if is_digit c then go NInt
      else if Ascii.eqb c "." then go NDot
      else if is_e c then go NExp else end_number acc c
  | NDot => if is_digit c then go NFrac else None
  | NFrac =>
      if is_digit c then go NFrac
      else if is_e c then go NExp else end_number acc c
  | NExp =>
      if Ascii.eqb c "+" || Ascii.eqb c "-" then go NExpSign
      else if is_digit c then go NExpDigits else None
  | NExpSign => if is_digit c then go NExpDigits else None
  | NExpDigits => if is_digit c then go NExpDigits else end_number acc c
  end.

Definition lex_escape (acc : list ascii) (hi : option N) (c : ascii)
  : option (LexState * list Tok) :=
  let lit n := Some (LString (byte n :: flush hi acc) None, []) in
  if Ascii.eqb c dquote then lit 34%N
  else if Ascii.eqb c "\" then lit 92%N
  else if Ascii.eqb c "/" then lit 47%N
  else if Ascii.eqb c "b" then lit 8%N
  else if Ascii.eqb c "f" then lit 12%N
  else if Ascii.eqb c "n" then lit 10%N
  else if Ascii.eqb c "r" then lit 13%N
  else if Ascii.eqb c "t" then lit 9%N
  else if Ascii.eqb c "u" then Some (LUnicode acc hi 0 0%N, [])
  else None.

Definition lex_step (s : LexState) (c : ascii) : option (LexState * list Tok) :=
  match s with
  | LIdle => lex_idle c
  | LString acc hi =>
      if Ascii.eqb c dquote then Some (LIdle, [TStr (text (flush hi acc))])
      else if Ascii.eqb c "\" then Some (LEscape acc hi, [])
      else if (code c <? 32)%N then None
      else Some (LString (c :: flush hi acc) None, [])
  | LEscape acc hi => lex_escape acc hi c
  | LUnicode acc hi n v =>
      match hex c with
      | Some d =>
          let v' := (16 * v + d)%N in
          if Nat.eqb n 3 then Some (push_unit acc hi v', [])
          else Some (LUnicode acc hi (S n) v', [])
      | None => None
      end
  | LNumber st acc => lex_number st acc c
  | LLiteral [] _ => None
  | LLiteral (x :: rest) t =>
      if Ascii.eqb c x
      then match rest with
           | [] => Some (LIdle, [t])
           | _ => Some (LLiteral rest t, [])
           end
      else None
  end.

(** End of the text. *)
Definition lex_end (s : LexState) : option (list Tok) :=
  match s with
  | LIdle => Some []
  | LNumber (NZero | NInt | NFrac | NExpDigits) acc => Some [TNum (text acc)]
  | _ => None
  end.

(** *** The parser: a pushdown automaton over the tokens *)

Inductive Frame : Type :=
| FArray (acc : list JSON)
| FObject (acc : list (string * JSON))
| FKey (k : string).

Inductive Expect : Type :=
| XValue | XValueOrClose | XKeyOrClose | XKey
| XColon (k : string) | XCommaOrClose | XEnd (v : JSON).

Definition PState : Type := (Expect * list Frame)%type.

(** A value is complete below the frames [st]. *)
Definition complete (v : JSON) (st : list Frame) : option PState :=
  match st with
  | [] => Some (XEnd v, [])
  | FArray acc :: st' => Some (XCommaOrClose, FArray (v :: acc) :: st')
  | FKey k :: FObject acc :: st' =>
      Some (XCommaOrClose, FObject ((k, v) :: acc) :: st')
  | _ => None
  end.

Definition start_value (t : Tok) (st : list Frame) : option PState :=
  match t with
  | TLBrack => Some (XValueOrClose, FArray [] :: st)
  | TLBrace => Some (XKeyOrClose, FObject [] :: st)
  | TStr s => complete (JString s) st
  | TNum n => complete (JNumber n) st
  | TTrue => complete (JBool true) st
  | TFalse => complete (JBool false) st
  | TNull => complete JNull st
  | _ => None
  end.

Definition parse_step (p : PState) (t : Tok) : option PState :=
  let '(x, st) := p in
  match x, t, st with
  | XValue, _, _ => start_value t st
  | XValueOrClose, TRBrack, FArray acc :: st' => complete (JArray (rev acc)) st'
  | XValueOrClose, _, _ => start_value t st
  | XKeyOrClose, TRBrace, FObject acc :: st' => complete (JObject (rev acc)) st'
  | (XKeyOrClose | XKey), TStr k, _ => Some (XColon k, st)
  | XColon k, TColon, _ => Some (XValue, FKey k :: st)
  | XCommaOrClose, TComma, FArray _ :: _ => Some (XValue, st)
  | XCommaOrClose, TComma, FObject _ :: _ => Some (XKey, st)
  | XCommaOrClose, TRBrack, FArray acc :: st' => complete (JArray (rev acc)) st'
  | XCommaOrClose, TRBrace, FObject acc :: st' => complete (JObject (rev acc)) st'
  | _, _, _ => None
  end.

Fixpoint parse_tokens (p : PState) (ts : list Tok) : option PState :=
  match ts with
  | [] => Some p
  | t :: ts' =>
      match parse_step p t with
      | Some p' => parse_tokens p' ts'
      | None => None
      end
  end.

Fixpoint run (l : LexState) (p : PState) (cs : list ascii) : option JSON :=
  match cs with
  | [] =>
      match lex_end l with
      | Some ts =>
          match parse_tokens p ts with
          | Some (XEnd v, _) => Some v
          | _ => None
          end
      | None => None
      end
  | c :: cs' =>
      match lex_step l c with
      | Some (l', ts) =>
          match parse_tokens p ts with
          | Some p' => run l' p' cs'
          | None => None
          end
      | None => None
      end
  end.

(** [JSON.parse text]: [None] is the SyntaxError it throws. The function is
    structurally recursive on the text, hence total. *)
Definition parse (s : string) : option JSON :=
  run LIdle (XValue, []) (chars s).

End Json.

Import JsString Json.

(* ================================================================== *)
(** ** Data of the event stream *)
(* ================================================================== *)

(** An entry of [response.output]. Only the fields the component reads are
    kept; a missing field reads as [undefined], here [None]. The stream is
    taken to deliver values of these shapes: an event is an object with a
    string [type], its [response] an object when present, [output] an array
    of objects when present, [name] and [arguments] strings when
    present. *)
Record Output : Type := {
  output_type : string;
  output_name : option string;
  output_arguments : option string
}.

Record Response : Type := {
  response_output : option (list Output)
}.

Record Event : Type := {
  event_type : string;
  event_response : option Response
}.

(** The [events] prop: [undefined], [null], or an array, which has an
    identity ([Object.is] compares references) and contents. *)
Inductive EventsProp : Type :=
| EvUndefined
| EvNull
| EvArray (ref : nat) (items : list Event).

(** [SyntaxError] and [TypeError] are those of the language;
    [InvalidChildError] is the [Error] React throws when it is given a plain
    object as a child (Objects are not valid as a React child). *)
Inductive JSError : Type := SyntaxError | TypeError | InvalidChildError.

Inductive Completion (A : Type) : Type :=
| Normal (a : A)
| Throw (e : JSError).
Arguments Normal {A} a.
Arguments Throw {A} e.

(* ================================================================== *)
(** ** Constants of the module *)
(* ================================================================== *)

Definition functionDescription : string :=
  String lf ("Call this function when a user asks for a color palette."
             ++ String lf EmptyString).

Definition DEFAULT_INSTRUCTIONS : string :=
  "You are a collaborative design partner. Offer concise, practical suggestions grounded in the latest design, accessibility, and branding best practices. Encourage follow-up questions and never invent color values that were not provided.".

Record VoiceOption : Type := { label : string; value : string }.

Definition VOICE_OPTIONS : list VoiceOption :=
  [ {| label := "Marin (friendly)"; value := "marin" |};
    {| label := "Alloy (balanced)"; value := "alloy" |};
    {| label := "Sol (energetic)"; value := "sol" |};
    {| label := "Verse (narrative)"; value := "verse" |} ].

(** [VOICE_OPTIONS[0].value]. *)
Definition firstVoice : string :=
  match VOICE_OPTIONS with
  | o :: _ => value o
  | [] => EmptyString
  end.

Definition toolName : string := "display_color_palette".

Definition sessionUpdate : JSON :=
  JObject
    [ ("type", JString "session.update");
      ("session",
       JObject
         [ ("type", JString "realtime");
           ("tools",
            JArray
              [ JObject
                  [ ("type", JString "function");
                    ("name", JString toolName);
                    ("description", JString functionDescription);
                    ("parameters",
                     JObject
                       [ ("type", JString "object");
                         ("strict", JBool true);
                         ("properties",
                          JObject
                            [ ("theme",
                               JObject
                                 [ ("type", JString "string");
                                   ("description",
                                    JString "Description of the theme for the color scheme.") ]);
                              ("colors",
                               JObject
                                 [ ("type", JString "array");
                                   ("description",
                                    JString "Array of five hex color codes based on the theme.");
                                   ("items",
                                    JObject
                                      [ ("type", JString "string");
                                        ("description", JString "Hex color code") ]) ]) ]);
                         ("required", JArray [JString "theme"; JString "colors"]) ]) ] ]);
           ("tool_choice", JString "auto") ]) ].

(** The object built by [handleSessionUpdateSubmit]. *)
Definition userSessionUpdate (instructions voice : string) : JSON :=
  JObject
    [ ("type", JString "session.update");
      ("session",
       JObject
         [ ("instructions", JString instructions);
           ("audio",
            JObject [ ("output", JObject [ ("voice", JString voice) ]) ]) ]) ].

Definition indent (n : nat) : string :=
  string_of_list_ascii (repeat " "%char n).

(** The template literal of the timer callback, line breaks and
    indentation included. *)
Definition followUpInstructions : string :=
  String lf (indent 16 ++ "ask for feedback about the color palette - don't repeat")
  ++ String lf (indent 16 ++ "the colors, just ask if they like the colors.")
  ++ String lf (indent 14).

Definition followUp : JSON :=
  JObject
    [ ("type", JString "response.create");
      ("response", JObject [ ("instructions", JString followUpInstructions) ]) ].

(* ================================================================== *)
(** ** [FunctionCallOutput] *)
(* ================================================================== *)

(** The text of a value converted to a string, in pieces. The text of a
    number is not computed: [PNumber l] stands for [Number::toString] of the
    double that the literal [l] denotes. *)
Inductive Piece : Type :=
| PText (s : string)
| PNumber (literal : string).

(** An object built by [JSON.parse] has the member [k] as an own
    property. *)
Definition hasOwn (k : string) (members : list (string * JSON)) : bool :=
  existsb (fun kv => String.eqb (fst kv) k) members.

(** [ToString(v)], and so ['' + v], for a value built by [JSON.parse].
    - An array is converted by [Array.prototype.join]: the elements
      separated by commas, [null] giving the empty text.
    - An object is converted through [valueOf] and [toString]. [valueOf]
      never gives a primitive (an own member is not callable, the inherited
      one returns the object); the inherited [toString] gives
      [[object Object]], and an own member [toString], which is not callable,
      leaves no method: a TypeError. *)
Fixpoint ToString (v : JSON) : Completion (list Piece) :=
  match v with
  | JNull => Normal [PText "null"]
  | JBool b => Normal [PText (if b then "true" else "false")]
  | JNumber literal => Normal [PNumber literal]
  | JString s => Normal [PText s]
  | JArray items =>
      (fix join (l : list JSON) : Completion (list Piece) :=
         match l with
         | [] => Normal []
         | element :: rest =>
             match match element with
                   | JNull => Normal []
                   | _ => ToString element
                   end with
             | Throw e => Throw e
             | Normal next =>
                 match rest with
                 | [] => Normal next
                 | _ :: _ =>
                     match join rest with
                     | Throw e => Throw e
                     | Normal others => Normal (next ++ PText "," :: others)%list
                     end
                 end
             end
         end) items
  | JObject members =>
      if hasOwn "toString" members then Throw TypeError
      else Normal [PText "[object Object]"]
  end.

(** A value React accepts as a child: text, a number, [null] or a boolean
    (which show nothing), or an array of such values. A plain object is
    refused with an error. *)
Fixpoint validChild (v : JSON) : bool :=
  match v with
  | JObject _ => false
  | JArray items => forallb validChild items
  | _ => true
  end.

(** One [<div>] of [colorBoxes]: its key is the array element converted to
    a string when the element is created; its background colour and the
    text it shows are the array element. *)
Record ColorBox : Type := {
  box_key : list Piece;
  box_backgroundColor : JSON;
  box_text : JSON
}.

(** The element returned: the theme line ([None] when [theme] is
    [undefined]), the boxes, and the object whose [JSON.stringify] fills the
    [<pre>]. *)
Record PaletteElement : Type := {
  themeLine : option JSON;
  colorBoxes : list ColorBox;
  preOf : Output
}.

(** The callback of [colors.map]: creating the [<div>] converts its key
    with ['' + color], which can throw. *)
Definition colorBox (color : JSON) : Completion ColorBox :=
  match ToString color with
  | Throw e => Throw e
  | Normal key =>
      Normal {| box_key := key; box_backgroundColor := color;
                box_text := color |}
  end.

(** [JSON.parse(x)] for an [x] that is a string or [undefined]:
    [undefined] is first converted to the text [undefined]. *)
Definition JSON_parse (x : option string) : Completion JSON :=
  match parse (match x with Some s => s | None => "undefined" end) with
  | Some v => Normal v
  | None => Throw SyntaxError
  end.

(** [items.map(f)] on an array: [f] is called on the elements in order,
    and the first exception it throws ends the loop. *)
Fixpoint array_map {B : Type} (f : JSON -> Completion B) (items : list JSON)
  : Completion (list B) :=
  match items with
  | [] => Normal []
  | x :: rest =>
      match f x with
      | Throw e => Throw e
      | Normal y =>
          match array_map f rest with
          | Throw e => Throw e
          | Normal ys => Normal (y :: ys)
          end
      end
  end.

(** [colors.map(f)]: only an array has a callable [map]; on [undefined] and
    [null] the property read throws, on any other JSON value [map] is not a
    function. *)
Definition colors_map {B : Type} (f : JSON -> Completion B)
    (colors : option JSON) : Completion (list B) :=
  match colors with
  | Some (JArray items) => array_map f items
  | _ => Throw TypeError
  end.

Definition FunctionCallOutput (functionCallOutput : Output)
  : Completion PaletteElement :=
  match JSON_parse (output_arguments functionCallOutput) with
  | Throw e => Throw e
  | Normal JNull => Throw TypeError
  | Normal parsed =>
      let theme := get "theme" parsed in
      let colors := get "colors" parsed in
      match colors_map colorBox colors with
      | Throw e => Throw e
      | Normal boxes =>
          Normal {| themeLine := theme; colorBoxes := boxes;
                    preOf := functionCallOutput |}
      end
  end.

(** React mounts the element returned: the children [{theme}] and
    [{color}] must be values it accepts. The text of the [<pre>] is a
    string, and the style is converted as the key was. *)
Definition mountable (el : PaletteElement) : bool :=
  match themeLine el with
  | Some theme => validChild theme
  | None => true
  end
  && forallb (fun box => validChild (box_text box)) (colorBoxes el).

(** [<FunctionCallOutput functionCallOutput={o} />] in a render: the
    function is called and what it returns is mounted. *)
Definition renderFunctionCallOutput (o : Output) : Completion PaletteElement :=
  match FunctionCallOutput o with
  | Throw e => Throw e
  | Normal el => if mountable el then Normal el else Throw InvalidChildError
  end.

(* ================================================================== *)
(** ** The world of the component *)
(* ================================================================== *)

(** The five [useState] cells. *)
Record State : Type := {
  functionAdded : bool;
  functionCallOutput : option Output;
  instructions : string;
  voice : string;
  lastSessionUpdate : option string
}.

Definition initialState : State :=
  {| functionAdded := false;
     functionCallOutput := None;
     instructions := DEFAULT_INSTRUCTIONS;
     voice := firstVoice;
     lastSessionUpdate := None |}.

(** A timer callback is the arrow function of the effect; what it captures
    is the command it passes to [sendClientEvent]. *)
Inductive Callback : Type := SendLater (cmd : JSON).

Record Timer : Type := {
  handle : nat;
  delay : nat;
  callback : Callback
}.

Inductive Call : Type :=
| CallSendClientEvent (cmd : JSON)
| CallSetFunctionAdded (b : bool)
| CallSetFunctionCallOutput (o : option Output)
| CallSetInstructions (s : string)
| CallSetVoice (s : string)
| CallSetLastSessionUpdate (t : option string)
| CallSetTimeout (h : nat) (ms : nat)
| CallClearTimeout (h : nat)
| CallPreventDefault.

Record World : Type := {
  state : State;
  timers : list Timer;      (* pending timers, in the order they were armed *)
  nextHandle : nat;         (* the handle [setTimeout] returns next *)
  calls : list Call         (* oldest first *)
}.

(** Handles are positive integers. *)
Definition initialWorld : World :=
  {| state := initialState; timers := []; nextHandle := 1; calls := [] |}.

Definition record (c : Call) (w : World) : World :=
  {| state := state w; timers := timers w; nextHandle := nextHandle w;
     calls := calls w ++ [c] |}.

Definition withState (s : State) (w : World) : World :=
  {| state := s; timers := timers w; nextHandle := nextHandle w;
     calls := calls w |}.

Definition sendClientEvent (cmd : JSON) (w : World) : World :=
  record (CallSendClientEvent cmd) w.

Definition setFunctionAdded (b : bool) (w : World) : World :=
  let s := state w in
  record (CallSetFunctionAdded b)
    (withState {| functionAdded := b;
                  functionCallOutput := functionCallOutput s;
                  instructions := instructions s;
                  voice := voice s;
                  lastSessionUpdate := lastSessionUpdate s |} w).

Definition setFunctionCallOutput (o : option Output) (w : World) : World :=
  let s := state w in
  record (CallSetFunctionCallOutput o)
    (withState {| functionAdded := functionAdded s;
                  functionCallOutput := o;
                  instructions := instructions s;
                  voice := voice s;
                  lastSessionUpdate := lastSessionUpdate s |} w).

Definition setInstructions (i : string) (w : World) : World :=
  let s := state w in
  record (CallSetInstructions i)
    (withState {| functionAdded := functionAdded s;
                  functionCallOutput := functionCallOutput s;
                  instructions := i;
                  voice := voice s;
                  lastSessionUpdate := lastSessionUpdate s |} w).

Definition setVoice (v : string) (w : World) : World :=
  let s := state w in
  record (CallSetVoice v)
    (withState {| functionAdded := functionAdded s;
                  functionCallOutput := functionCallOutput s;
                  instructions := instructions s;
                  voice := v;
                  lastSessionUpdate := lastSessionUpdate s |} w).

Definition setLastSessionUpdate (t : option string) (w : World) : World :=
  let s := state w in
  record (CallSetLastSessionUpdate t)
    (withState {| functionAdded := functionAdded s;
                  functionCallOutput := functionCallOutput s;
                  instructions := instructions s;
                  voice := voice s;
                  lastSessionUpdate := t |} w).

(** [window.setTimeout(cb, ms)]. *)
Definition setTimeout (cb : Callback) (ms : nat) (w : World) : nat * World :=
  let h := nextHandle w in
  (h, record (CallSetTimeout h ms)
        {| state := state w;
           timers := timers w ++ [ {| handle := h; delay := ms; callback := cb |} ];
           nextHandle := S h;
           calls := calls w |}).

(** [clearTimeout(h)]. *)
Definition clearTimeout (h : nat) (w : World) : World :=
  record (CallClearTimeout h)
    {| state := state w;
       timers := filter (fun t => negb (Nat.eqb (handle t) h)) (timers w);
       nextHandle := nextHandle w;
       calls := calls w |}.

Definition preventDefault (w : World) : World := record CallPreventDefault w.

Definition runCallback (cb : Callback) (w : World) : World :=
  match cb with SendLater cmd => sendClientEvent cmd w end.

(** The commands passed to [sendClientEvent] so far. *)
Fixpoint commands (cs : list Call) : list JSON :=
  match cs with
  | [] => []
  | CallSendClientEvent cmd :: rest => cmd :: commands rest
  | _ :: rest => commands rest
  end.

Definition sent (w : World) : list JSON := commands (calls w).

(* ================================================================== *)
(** ** [ToolPanel]: props, handler, effects, view *)
(* ================================================================== *)

(** [sendClientEvent] is a function of the parent; as a dependency of the
    first effect only its identity counts. *)
Record Props : Type := {
  isSessionActive : bool;
  sendClientEventRef : nat;
  events : EventsProp
}.

(** [handleSessionUpdateSubmit(event)]; [now] is the value of
    [new Date().toLocaleTimeString()] at the call. *)
Definition handleSessionUpdateSubmit (isSessionActive : bool) (now : string)
    (w : World) : World :=
  let w0 := preventDefault w in
  if negb isSessionActive then w0
  else
    let trimmedInstructions := trim (instructions (state w0)) in
    let w1 :=
      sendClientEvent
        (userSessionUpdate (or_else trimmedInstructions DEFAULT_INSTRUCTIONS)
                           (voice (state w0))) w0 in
    setLastSessionUpdate (Some now) w1.

(** The closure returned by the first effect captures [timeoutId], which is
    [undefined] until a timer is armed. *)
Inductive Cleanup : Type := ClearPending (timeoutId : option nat).

Definition runCleanup (c : Cleanup) (w : World) : World :=
  match c with
  | ClearPending (Some h) => if Nat.eqb h 0 then w else clearTimeout h w
  | ClearPending None => w
  end.

Definition isPaletteCall (output : Output) : bool :=
  String.eqb (output_type output) "function_call"
  && match output_name output with
     | Some n => String.eqb n "display_color_palette"
     | None => false
     end.

(** Body of the [forEach] callback; the second component is [timeoutId]. *)
Definition onOutput (acc : World * option nat) (output : Output)
  : World * option nat :=
  if isPaletteCall output then
    let w1 := setFunctionCallOutput (Some output) (fst acc) in
    let (h, w2) := setTimeout (SendLater followUp) 500 w1 in
    (w2, Some h)
  else acc.

(** The first effect. It returns the world it leaves and either the
    cleanup ([None] for [undefined]) or the exception thrown. *)
Definition eventsEffect (events : EventsProp) (w : World)
  : World * Completion (option Cleanup) :=
  match events with
  | EvUndefined | EvNull | EvArray _ [] => (w, Normal None)
  | EvArray _ ((mostRecentEvent :: _) as items) =>
      let firstEvent := last items mostRecentEvent in
      let w1 :=
        if negb (functionAdded (state w))
           && String.eqb (event_type firstEvent) "session.created"
        then setFunctionAdded true (sendClientEvent sessionUpdate w)
        else w in
      if String.eqb (event_type mostRecentEvent) "response.done" then
        match event_response mostRecentEvent with
        | None => (w1, Throw TypeError)
        | Some response =>
            match response_output response with
            | None => (w1, Normal (Some (ClearPending None)))
            | Some output =>
                let (w2, timeoutId) := fold_left onOutput output (w1, None) in
                (w2, Normal (Some (ClearPending timeoutId)))
            end
        end
      else (w1, Normal (Some (ClearPending None)))
  end.

(** The second effect. *)
Definition sessionEffect (isSessionActive : bool) (w : World) : World :=
  if negb isSessionActive then
    setVoice firstVoice
      (setInstructions DEFAULT_INSTRUCTIONS
         (setLastSessionUpdate None
            (setFunctionCallOutput None
               (setFunctionAdded false w))))
  else w.

(** What [ToolPanel] returns, as far as it depends on props and state. *)
Inductive Pane : Type :=
| PaneStartSession          (* Start the session to use this tool... *)
| PaneAskForAdvice          (* Ask for advice on a color palette... *)
| PanePalette (el : PaletteElement).

Record View : Type := {
  textareaValue : string;
  selectValue : string;
  controlsDisabled : bool;
  statusLine : string;
  startHint : bool;
  pane : Pane
}.

Definition ToolPanel_view (p : Props) (s : State) : Completion View :=
  let mk pn :=
    Normal
      {| textareaValue := instructions s;
         selectValue := voice s;
         controlsDisabled := negb (isSessionActive p);
         statusLine :=
           match lastSessionUpdate s with
           | Some t =>
               if truthy t then "Updated at " ++ t
               else "No customizations sent yet"
           | None => "No customizations sent yet"
           end;
         startHint := negb (isSessionActive p);
         pane := pn |} in
  if isSessionActive p then
    match functionCallOutput s with
    | Some o =>
        match renderFunctionCallOutput o with
        | Normal el => mk (PanePalette el)
        | Throw e => Throw e
        end
    | None => mk PaneAskForAdvice
    end
  else mk PaneStartSession.

(* ================================================================== *)
(** ** The React run time, as far as [ToolPanel] uses it *)
(* ================================================================== *)

Definition State_eq_dec (a b : State) : {a = b} + {a <> b}.
Proof.
  repeat decide equality.
Defined.

(** [Object.is] on two values of the [events] prop. *)
Definition sameEvents (a b : EventsProp) : bool :=
  match a, b with
  | EvUndefined, EvUndefined => true
  | EvNull, EvNull => true
  | EvArray r _, EvArray r' _ => Nat.eqb r r'
  | _, _ => false
  end.

(** A mounted instance remembers the props of its last commit, the value of
    [functionAdded] that commit rendered (the three make the dependencies of
    the two effects), and the cleanup of the first effect. [Gone] is an
    instance that was unmounted, by the parent or because rendering or an
    effect threw: [ToolPanel] has no error boundary. *)
Inductive Status : Type :=
| Fresh
| Live (p : Props) (renderedFunctionAdded : bool) (destroy : option Cleanup)
| Gone (err : option JSError).

Record Instance : Type := {
  world : World;
  status : Status
}.

Definition initial : Instance := {| world := initialWorld; status := Fresh |}.

Definition runDestroy (d : option Cleanup) (w : World) : World :=
  match d with Some c => runCleanup c w | None => w end.

(** Commit of one render: the cleanup of the first effect if it runs again,
    then the effect bodies in the order of the source. An effect that throws
    unmounts the tree. *)
Definition commitEffects (p : Props) (run1 run2 : bool)
    (d0 : option Cleanup) (w : World) : Instance :=
  let fa := functionAdded (state w) in
  let (w1, r) :=
    if run1 then eventsEffect (events p) (runDestroy d0 w)
    else (w, Normal d0) in
  match r with
  | Throw e => {| world := w1; status := Gone (Some e) |}
  | Normal d1 =>
      {| world := if run2 then sessionEffect (isSessionActive p) w1 else w1;
         status := Live p fa d1 |}
  end.

(** One render and its commit. An effect runs on mount and whenever one of
    its dependencies differs from the last commit:
    [[events, functionAdded, sendClientEvent]] for the first,
    [[isSessionActive]] for the second. *)
Definition pass (p : Props) (i : Instance) : Instance :=
  let w := world i in
  match status i with
  | Gone _ => i
  | Fresh =>
      match ToolPanel_view p (state w) with
      | Throw e => {| world := w; status := Gone (Some e) |}
      | Normal _ => commitEffects p true true None w
      end
  | Live p0 fa0 d0 =>
      match ToolPanel_view p (state w) with
      | Throw e => {| world := runDestroy d0 w; status := Gone (Some e) |}
      | Normal _ =>
          let run1 :=
            negb (sameEvents (events p) (events p0)
                  && Bool.eqb (functionAdded (state w)) fa0
                  && Nat.eqb (sendClientEventRef p) (sendClientEventRef p0)) in
          let run2 :=
            negb (Bool.eqb (isSessionActive p) (isSessionActive p0)) in
          commitEffects p run1 run2 d0 w
      end
  end.

(** State set during a commit makes React render again, until a commit
    leaves the state as it was rendered. *)
Fixpoint settle (fuel : nat) (p : Props) (i : Instance) : Instance :=
  match fuel with
  | 0 => i
  | S fuel' =>
      let i' := pass p i in
      match status i' with
      | Gone _ => i'
      | _ =>
          if State_eq_dec (state (world i')) (state (world i)) then i'
          else settle fuel' p i'
      end
  end.

(** Three passes always reach a commit that sets no state
    (see [settle_enough]). *)
Definition rerender (p : Props) (i : Instance) : Instance := settle 3 p i.

(** A pending timer fires: it leaves the table and its callback runs. *)
Definition fire (h : nat) (w : World) : World :=
  match find (fun t => Nat.eqb (handle t) h) (timers w) with
  | Some t =>
      runCallback (callback t)
        {| state := state w;
           timers := filter (fun t => negb (Nat.eqb (handle t) h)) (timers w);
           nextHandle := nextHandle w;
           calls := calls w |}
  | None => w
  end.

Definition onWorld (f : World -> World) (i : Instance) : Instance :=
  {| world := f (world i); status := status i |}.

(** What can happen to an instance. *)
Inductive Step : Type :=
| Render (p : Props)               (* the parent renders it with props [p] *)
| Submit (now : string)            (* the form is submitted at time [now] *)
| ChangeInstructions (s : string)  (* [onChange] of the textarea *)
| ChangeVoice (v : string)         (* [onChange] of the select *)
| Tick (h : nat)                   (* the timer [h] is due *)
| Unmount.

Definition step (s : Step) (i : Instance) : Instance :=
  match s, status i with
  | Tick h, _ => onWorld (fire h) i
  | Render p, _ => rerender p i
  | Submit now, Live p _ _ =>
      rerender p (onWorld (handleSessionUpdateSubmit (isSessionActive p) now) i)
  | ChangeInstructions s, Live p _ _ => rerender p (onWorld (setInstructions s) i)
  | ChangeVoice v, Live p _ _ => rerender p (onWorld (setVoice v) i)
  | Unmount, Live _ _ d => {| world := runDestroy d (world i); status := Gone None |}
  | Unmount, Fresh => {| world := world i; status := Gone None |}
  | _, _ => i
  end.

Definition run (steps : list Step) (i : Instance) : Instance :=
  fold_left (fun i s => step s i) steps i.

(* ================================================================== *)
(** ** Reading the record of calls *)
(* ================================================================== *)

(** [v.k1.k2...]. *)
Fixpoint path (ks : list string) (v : JSON) : option JSON :=
  match ks with
  | [] => Some v
  | k :: ks' =>
      match get k v with
      | Some v' => path ks' v'
      | None => None
      end
  end.

(** The arguments of the palette used in the examples:
    [{"theme":"ocean","colors":["#001","#002","#003","#004","#005"]}]. *)
Definition oceanArguments : string :=
  "{" ++ quoted "theme" ++ ":" ++ quoted "ocean" ++ ","
      ++ quoted "colors" ++ ":["
      ++ quoted "#001" ++ "," ++ quoted "#002" ++ "," ++ quoted "#003" ++ ","
      ++ quoted "#004" ++ "," ++ quoted "#005" ++ "]}".

(** [{"theme":"x"}]. *)
Definition themeOnlyArguments : string :=
  "{" ++ quoted "theme" ++ ":" ++ quoted "x" ++ "}".

Definition paletteCall (arguments : string) : Output :=
  {| output_type := "function_call";
     output_name := Some "display_color_palette";
     output_arguments := Some arguments |}.

Definition plainEvent (type : string) : Event :=
  {| event_type := type; event_response := None |}.

Definition responseDone (output : list Output) : Event :=
  {| event_type := "response.done";
     event_response := Some {| response_output := Some output |} |}.

(** Number of timers armed, and of invocations stored, in a record. *)
Fixpoint armings (cs : list Call) : nat :=
  match cs with
  | [] => 0
  | CallSetTimeout _ _ :: rest => S (armings rest)
  | _ :: rest => armings rest
  end.

Fixpoint invocationUpdates (cs : list Call) : nat :=
  match cs with
  | [] => 0
  | CallSetFunctionCallOutput (Some _) :: rest => S (invocationUpdates rest)
  | _ :: rest => invocationUpdates rest
  end.

(** A command that registers the palette tool: a [session.update] whose
    session lists a tool named [display_color_palette] and sets
    [tool_choice] to [auto]. *)
Definition namesPaletteTool (tool : JSON) : bool :=
  match get "name" tool with
  | Some (JString n) => String.eqb n toolName
  | _ => false
  end.

Definition isToolRegistration (cmd : JSON) : bool :=
  match path ["type"] cmd, path ["session"; "tools"] cmd,
        path ["session"; "tool_choice"] cmd with
  | Some (JString t), Some (JArray tools), Some (JString c) =>
      String.eqb t "session.update" && existsb namesPaletteTool tools
      && String.eqb c "auto"
  | _, _, _ => false
  end.

Definition registrations (w : World) : nat :=
  length (filter isToolRegistration (sent w)).


Definition pending (h : nat) (w : World) : Prop :=
  exists t, In t (timers w) /\ handle t = h.

Definition alive (i : Instance) : bool :=
  match status i with Gone _ => false | _ => true end.

(** The cleanup a mounted instance retains. *)
Definition retained (i : Instance) : option nat :=
  match status i with
  | Live _ _ (Some (ClearPending (Some h))) => if Nat.eqb h 0 then None else Some h
  | _ => None
  end.

(** In a log whose newest event comes first, the oldest event is
    [session.created]: the test of the initialization rule. *)
Definition oldestIsCreated (items : list Event) : bool :=
  match items with
  | [] => false
  | e :: _ => String.eqb (event_type (last items e)) "session.created"
  end.

(** The timer the events effect arms under handle [h]. *)
Definition followUpTimer (h : nat) : Timer :=
  {| handle := h; delay := 500; callback := SendLater followUp |}.

Definition paletteCalls (output : list Output) : list Output :=
  filter isPaletteCall output.

(** The palette calls the tool-completion rule iterates over for a value of
    [events]: those of [events[0].response.output] when [events[0]] is a
    [response.done] that has an output list. *)
Definition iterated (ev : EventsProp) : list Output :=
  match ev with
  | EvArray _ (mostRecentEvent :: _) =>
      if String.eqb (event_type mostRecentEvent) "response.done" then
        match event_response mostRecentEvent with
        | Some {| response_output := Some output |} => paletteCalls output
        | _ => []
        end
      else []
  | _ => []
  end.

(** The test of the initialization rule on a value of [events]. *)
Definition registers (ev : EventsProp) : bool :=
  match ev with
  | EvArray _ items => oldestIsCreated items
  | _ => false
  end.

(** The last of [ms], or [old] when there is none. *)
Definition newest (ms : list Output) (old : option Output) : option Output :=
  match ms with
  | [] => old
  | m :: _ => Some (last ms m)
  end.

(** What one run of the events effect does to the state cells. *)
Definition effectState (ev : EventsProp) (s : State) : State :=
  {| functionAdded := functionAdded s || registers ev;
     functionCallOutput := newest (iterated ev) (functionCallOutput s);
     instructions := instructions s;
     voice := voice s;
     lastSessionUpdate := lastSessionUpdate s |}.

(** The first effect throws when [events[0]] is a [response.done] without
    a [response]. *)
Definition throws (ev : EventsProp) : bool :=
  match ev with
  | EvArray _ (mostRecentEvent :: _) =>
      String.eqb (event_type mostRecentEvent) "response.done"
      && match event_response mostRecentEvent with
         | None => true
         | Some _ => false
         end
  | _ => false
  end.

(** The cleanup the first effect returns when it is run in a world whose
    next handle is [next]: it holds the handle of the last timer armed. *)
Definition cleanupOf (ev : EventsProp) (next : nat) : option Cleanup :=
  match ev with
  | EvUndefined | EvNull | EvArray _ [] => None
  | EvArray _ (_ :: _) =>
      Some (ClearPending
              match iterated ev with
              | [] => None
              | _ :: _ => Some (next + length (iterated ev) - 1)
              end)
  end.

(** Handles are positive and those in the table were all handed out. *)
Definition wellFormed (w : World) : Prop :=
  1 <= nextHandle w
  /\ Forall (fun t => handle t < nextHandle w) (timers w).

(** Every pending timer is a follow-up timer and every [setTimeout] call
    asked for 500 ms. *)
Definition isFollowUpArming (c : Call) : Prop :=
  match c with
  | CallSetTimeout _ ms => ms = 500
  | _ => True
  end.

Definition followUpsOnly (w : World) : Prop :=
  Forall (fun t => delay t = 500 /\ callback t = SendLater followUp) (timers w)
  /\ Forall isFollowUpArming (calls w).

Definition committedProps (i : Instance) : option Props :=
  match status i with
  | Live p _ _ => Some p
  | _ => None
  end.

(** The table after the retained cleanup has run. *)
Definition clearRetained (i : Instance) (ts : list Timer) : list Timer :=
  match retained i with
  | Some h => filter (fun t => negb (Nat.eqb (handle t) h)) ts
  | None => ts
  end.

(** The dependencies of the first effect differ from the last commit. *)
Definition depsChanged (p : Props) (i : Instance) : bool :=
  match status i with
  | Live p0 fa0 _ =>
      negb (sameEvents (events p) (events p0)
            && Bool.eqb (functionAdded (state (world i))) fa0
            && Nat.eqb (sendClientEventRef p) (sendClientEventRef p0))
  | _ => false
  end.

(** The handle retained for cancellation was handed out. *)
Definition retainedBelow (i : Instance) : Prop :=
  forall h, retained i = Some h -> h < nextHandle (world i).

Definition sound (i : Instance) : Prop :=
  wellFormed (world i) /\ retainedBelow i.

(** The timer [t] is pending and is not the one retained for cancellation. *)
Definition survivor (t : Timer) (i : Instance) : Prop :=
  sound i /\ In t (timers (world i)) /\ retained i <> Some (handle t).

(** The handle [h] was handed out and is pending no more. *)
Definition spent (h : nat) (i : Instance) : Prop :=
  sound i /\ h < nextHandle (world i) /\ ~ pending h (world i).

Definition isTick (h : nat) (s : Step) : bool :=
  match s with
  | Tick h' => Nat.eqb h' h
  | _ => false
  end.

(** Steps whose timer ticks all satisfy [okTick]. *)
Definition okStep (okTick : nat -> Prop) (s : Step) : Prop :=
  match s with
  | Tick h => okTick h
  | _ => True
  end.

(** The first effect runs in the next pass with props [p]: on mount, and
    when one of its dependencies changed. *)
Definition runsFirst (p : Props) (i : Instance) : bool :=
  match status i with
  | Fresh => true
  | Live _ _ _ => depsChanged p i
  | Gone _ => false
  end.

(** The tool was registered as often as [functionAdded] tells. *)
Definition registered (i : Instance) : Prop :=
  match status i with
  | Gone _ => registrations (world i) <= 1
  | _ => registrations (world i)
         = if functionAdded (state (world i)) then 1 else 0
  end.

(** The session of the last commit, if any, was active. *)
Definition inSession (i : Instance) : Prop :=
  forall p0, committedProps i = Some p0 -> isSessionActive p0 = true.

(** After a commit with props [p], while mounted, [functionAdded] is [x]. *)
Definition settled (p : Props) (x : bool) (i : Instance) : Prop :=
  registered i
  /\ (alive i = true ->
      committedProps i = Some p /\ functionAdded (state (world i)) = x).

(** Before the update with the array of identity [n]: [functionAdded] is
    [seen] and the array of the last commit is an older one. *)
Definition tracking (n : nat) (seen : bool) (i : Instance) : Prop :=
  registered i
  /\ inSession i
  /\ (alive i = true -> functionAdded (state (world i)) = seen)
  /\ (forall p0, committedProps i = Some p0 ->
        exists r items, events p0 = EvArray r items /\ r < n).

Definition update (n : nat) (items : list Event) : Props :=
  {| isSessionActive := true; sendClientEventRef := 0;
     events := EvArray n items |}.

(** A sequence of updates of the event log within one session: the parent
    renders with a new array each time, the session active and
    [sendClientEvent] unchanged. [n] is the identity of the first array. *)
Fixpoint updates (n : nat) (logs : list (list Event)) : list Step :=
  match logs with
  | [] => []
  | items :: rest =>
      Render (update n items) :: updates (S n) rest
  end.

(** The second effect runs in the next pass with props [p]: on mount, and
    when [isSessionActive] changed. *)
Definition runsSecond (p : Props) (i : Instance) : bool :=
  match status i with
  | Fresh => true
  | Live p0 _ _ => negb (Bool.eqb (isSessionActive p) (isSessionActive p0))
  | Gone _ => false
  end.

(** The state cells after the effects of the next pass with props [p]. *)
Definition afterEffects (p : Props) (i : Instance) : State :=
  if runsSecond p i && negb (isSessionActive p) then initialState
  else if runsFirst p i then effectState (events p) (state (world i))
       else state (world i).

(** The timers the next pass arms and the commands it sends. *)
Definition armedBy (p : Props) (i : Instance) : nat :=
  if runsFirst p i then length (iterated (events p)) else 0.

Definition registeredBy (p : Props) (i : Instance) : list JSON :=
  if runsFirst p i && negb (functionAdded (state (world i)))
     && registers (events p)
  then [sessionUpdate] else [].

(** The invocation renders: [FunctionCallOutput] returns an element and
    React mounts it. *)
Definition renders (o : Output) : bool :=
  match renderFunctionCallOutput o with
  | Normal _ => true
  | Throw _ => false
  end.

(** The render of [ToolPanel] completes: the session is inactive, or
    nothing is stored, or what is stored renders. *)
Definition viewOk (p : Props) (s : State) : bool :=
  negb (isSessionActive p)
  || match functionCallOutput s with
     | Some o => renders o
     | None => true
     end.

(** A value of [events] the component survives: a [response.done] in front
    has a [response], and the palette calls it carries all render. *)
Definition wellFormedLog (ev : EventsProp) : bool :=
  negb (throws ev) && forallb renders (iterated ev).

(** An invocation that can be displayed, by its data: the arguments parse
    to a value whose [colors] is an array, and neither a colour nor the
    theme is an object or holds one through arrays. *)
Definition displayable (o : Output) : Prop :=
  exists v items,
    JSON_parse (output_arguments o) = Normal v
    /\ get "colors" v = Some (JArray items)
    /\ Forall (fun c => validChild c = true) items
    /\ (forall theme, get "theme" v = Some theme -> validChild theme = true).

(** A value of [events] with a [response] in a [response.done] in front,
    whose palette calls can all be displayed. *)
Definition displayableLog (ev : EventsProp) : Prop :=
  throws ev = false /\ Forall displayable (iterated ev).

(** Arguments whose [colors] holds an object with a member [toString], and
    arguments whose [theme] is an object:
    [{"colors":[{"toString":0}]}] and [{"theme":{},"colors":[]}]. *)
Definition noKeyArguments : string :=
  "{" ++ quoted "colors" ++ ":[{" ++ quoted "toString" ++ ":0}]}".

Definition objectThemeArguments : string :=
  "{" ++ quoted "theme" ++ ":{}," ++ quoted "colors" ++ ":[]}".

(** The values the [<select>] offers. *)
Definition voices : list string := map value VOICE_OPTIONS.

(** Steps restricted in the props rendered, the voices chosen and
    whether unmounting is allowed. *)
Definition allowedStep (okProps : Props -> Prop) (okVoice : string -> Prop)
    (okUnmount : Prop) (s : Step) : Prop :=
  match s with
  | Render p => okProps p
  | ChangeVoice v => okVoice v
  | Unmount => okUnmount
  | _ => True
  end.

(** A mounted instance at rest: the last commit rendered the current value
    of [functionAdded], and the current state renders. *)
Definition quiet (i : Instance) : Prop :=
  forall p fa d,
    status i = Live p fa d ->
    fa = functionAdded (state (world i))
    /\ viewOk p (state (world i)) = true.

(** The commands the component sends: the registration, the follow-up, or a
    session update with instructions that are not blank and a voice
    satisfying [okVoice]. *)
Definition allowedCommand (okVoice : string -> Prop) (c : JSON) : Prop :=
  c = sessionUpdate
  \/ c = followUp
  \/ exists x v, c = userSessionUpdate x v
                 /\ x <> EmptyString /\ trim x = x /\ okVoice v.

(** An entry of type [function_call] whose name is
    [display_color_palette], as the tool-completion rule is specified, and
    the entries of an output list that are such. *)
Definition isMatchingEntry (o : Output) : Prop :=
  output_type o = "function_call"
  /\ output_name o = Some "display_color_palette".

Definition isMatchingEntry_dec (o : Output)
  : {isMatchingEntry o} + {~ isMatchingEntry o}.
Proof.
  unfold isMatchingEntry.
  destruct (string_dec (output_type o) "function_call") as [T|T];
    [|right; intros [H _]; exact (T H)].
  destruct (output_name o) as [n|]; [|right; intros [_ H]; discriminate].
  destruct (string_dec n "display_color_palette") as [N|N].
  - left. split; [exact T | rewrite N; reflexivity].
  - right. intros [_ H]. injection H as H. exact (N H).
Defined.

Definition matchingEntries (output : list Output) : list Output :=
  filter (fun o => if isMatchingEntry_dec o then true else false) output.

(** The stored invocation, if any, is a call of the palette tool. *)
Definition storedIsPaletteCall (s : State) : Prop :=
  forall o, functionCallOutput s = Some o -> isPaletteCall o = true.

(** The form and the status line are as on mount. *)
Definition formIsInitial (s : State) : Prop :=
  instructions s = DEFAULT_INSTRUCTIONS
  /\ voice s = firstVoice
  /\ lastSessionUpdate s = None.

(** What is stored, if anything, renders. *)
Definition storedRenders (s : State) : Prop :=
  forall o, functionCallOutput s = Some o -> renders o = true.

(** No two pending timers share a handle. *)
Definition distinctHandles (w : World) : Prop :=
  NoDup (map handle (timers w)) /\ wellFormed w.

(* ================================================================== *)
(** ** Elementary facts *)
(* ================================================================== *)

Open Scope list_scope.

Lemma commands_app (a b : list Call) : commands (a ++ b) = commands a ++ commands b.
Proof.
  induction a as [|c a IH]; simpl; [reflexivity|].
  destruct c; simpl; rewrite IH; reflexivity.
Qed.

Lemma armings_app (a b : list Call) : armings (a ++ b) = armings a + armings b.
Proof.
  induction a as [|c a IH]; simpl; [reflexivity|].
  destruct c; simpl; rewrite IH; reflexivity.
Qed.

Lemma invocationUpdates_app (a b : list Call) :
  invocationUpdates (a ++ b) = invocationUpdates a + invocationUpdates b.
Proof.
  induction a as [|c a IH]; simpl; [reflexivity|].
  destruct c as [| |[o|]| | | | | |]; simpl; rewrite IH; reflexivity.
Qed.

Lemma sent_send (cmd : JSON) (w : World) :
  sent (sendClientEvent cmd w) = sent w ++ [cmd].
Proof. unfold sent; simpl. rewrite commands_app. reflexivity. Qed.

Lemma sent_record (c : Call) (w : World) :
  (forall cmd, c <> CallSendClientEvent cmd) -> sent (record c w) = sent w.
Proof.
  intros H. unfold sent; simpl. rewrite commands_app.
  destruct c; simpl; try apply app_nil_r.
  exfalso. eapply H. reflexivity.
Qed.

Lemma truthy_eqb (s : string) : truthy s = negb (String.eqb s EmptyString).
Proof. destruct s; reflexivity. Qed.

Lemma sent_setFunctionAdded b w : sent (setFunctionAdded b w) = sent w.
Proof. unfold setFunctionAdded. rewrite sent_record by discriminate. reflexivity. Qed.

Lemma sent_setFunctionCallOutput o w : sent (setFunctionCallOutput o w) = sent w.
Proof. unfold setFunctionCallOutput. rewrite sent_record by discriminate. reflexivity. Qed.

Lemma sent_setInstructions s w : sent (setInstructions s w) = sent w.
Proof. unfold setInstructions. rewrite sent_record by discriminate. reflexivity. Qed.

Lemma sent_setVoice v w : sent (setVoice v w) = sent w.
Proof. unfold setVoice. rewrite sent_record by discriminate. reflexivity. Qed.

Lemma sent_setLastSessionUpdate t w : sent (setLastSessionUpdate t w) = sent w.
Proof. unfold setLastSessionUpdate. rewrite sent_record by discriminate. reflexivity. Qed.

Lemma sent_preventDefault w : sent (preventDefault w) = sent w.
Proof. apply sent_record; discriminate. Qed.

Lemma sent_clearTimeout h w : sent (clearTimeout h w) = sent w.
Proof. unfold clearTimeout. rewrite sent_record by discriminate. reflexivity. Qed.

Lemma sent_setTimeout cb ms w : sent (snd (setTimeout cb ms w)) = sent w.
Proof. unfold setTimeout; simpl. rewrite sent_record by discriminate. reflexivity. Qed.

Create Rewrite HintDb sent.
#[local] Hint Rewrite sent_send sent_setFunctionAdded sent_setFunctionCallOutput
  sent_setInstructions sent_setVoice sent_setLastSessionUpdate
  sent_preventDefault sent_clearTimeout sent_setTimeout : sent.

(* ================================================================== *)
(** ** The run-time model on examples *)
(* ================================================================== *)

Example trim_spaces : trim "  Be terse.  " = "Be terse.".
Proof. reflexivity. Qed.

Example trim_keeps_inner_space :
  trim (String lf (String "009" " a  b ")) = "a  b".
Proof. reflexivity. Qed.

(** U+00A0 in front and U+2028 behind. *)
Example trim_unicode_space :
  trim (String (byte 194) (String (byte 160)
          ("x" ++ String (byte 226) (String (byte 128)
                    (String (byte 168) EmptyString)))))%string
  = "x".
Proof. reflexivity. Qed.

Example trim_blank : trim "   " = EmptyString.
Proof. reflexivity. Qed.

Example parse_values :
  parse "[1, 2.50, -3e+7, true, false, null, [], {}]"
  = Some (JArray [JNumber "1"; JNumber "2.50"; JNumber "-3e+7"; JBool true;
                  JBool false; JNull; JArray []; JObject []]).
Proof. reflexivity. Qed.

Example parse_escapes :
  parse (quoted "é😀\n") = Some (JString ("é😀" ++ String lf EmptyString)%string)
  /\ parse (quoted "\u00e9\ud83d\uDE00") = Some (JString "é😀").
Proof. split; reflexivity. Qed.

Example parse_rejects :
  map parse ["01"; "1."; "-"; "[1,]"; "[1 2]"; "{,}"; "tru"; "undefined";
             EmptyString; "[" ; "1 2"; quoted "\x"]
  = repeat None 12.
Proof. reflexivity. Qed.

Example parse_duplicate_key :
  option_map (get "a")
    (parse ("{" ++ quoted "a" ++ ":1," ++ quoted "a" ++ ":2}")%string)
  = Some (Some (JNumber "2")).
Proof. reflexivity. Qed.

Example registration_command_recognised :
  isToolRegistration sessionUpdate = true
  /\ isToolRegistration followUp = false
  /\ forall i v, isToolRegistration (userSessionUpdate i v) = false.
Proof. repeat split. Qed.

(* ================================================================== *)
(** ** The session update form *)
(* ================================================================== *)

(** C5. With a session active, submitting the form after the user entered
    [ins] and chose [v] sends exactly one command, the [session.update]
    whose [session.instructions] is [ins] trimmed, or the default text when
    that is empty, and whose [session.audio.output.voice] is [v]; the time
    of the call becomes [lastSessionUpdate]. In particular the empty text
    sends the default and ["  Be terse.  "] sends ["Be terse."]. *)
Theorem submit_active_sends_trimmed_or_default :
  (forall (ins v now : string) (w : World),
      let w0 := setVoice v (setInstructions ins w) in
      let w' := handleSessionUpdateSubmit true now w0 in
      let text :=
        if String.eqb (trim ins) EmptyString then DEFAULT_INSTRUCTIONS else trim ins in
      sent w' = sent w0 ++ [userSessionUpdate text v]
      /\ path ["type"] (userSessionUpdate text v) = Some (JString "session.update")
      /\ path ["session"; "instructions"] (userSessionUpdate text v)
         = Some (JString text)
      /\ path ["session"; "audio"; "output"; "voice"] (userSessionUpdate text v)
         = Some (JString v)
      /\ lastSessionUpdate (state w') = Some now)
  /\ (forall now w,
         sent (handleSessionUpdateSubmit true now
                 (setVoice "alloy" (setInstructions EmptyString w)))
         = sent w ++ [userSessionUpdate DEFAULT_INSTRUCTIONS "alloy"])
  /\ (forall now w,
         sent (handleSessionUpdateSubmit true now
                 (setVoice "sol" (setInstructions "  Be terse.  " w)))
         = sent w ++ [userSessionUpdate "Be terse." "sol"]).
Proof.
  assert (G : forall (ins v now : string) (w : World),
             sent (handleSessionUpdateSubmit true now
                     (setVoice v (setInstructions ins w)))
             = sent w
               ++ [userSessionUpdate
                     (if String.eqb (trim ins) EmptyString then DEFAULT_INSTRUCTIONS
                      else trim ins) v]).
  { intros ins v now w. unfold handleSessionUpdateSubmit, or_else.
    rewrite truthy_eqb. cbn [negb].
    autorewrite with sent. simpl.
    destruct (String.eqb (trim ins) EmptyString); reflexivity. }
  split; [|split].
  - intros ins v now w w0 w' text. repeat split.
    subst w' w0 text. rewrite G. autorewrite with sent. reflexivity.
  - intros now w. rewrite G. reflexivity.
  - intros now w. rewrite G. reflexivity.
Qed.

(** C6. With no session active, submitting the form sends no command and
    changes no state cell, whatever the instructions and the voice in the
    form are: [lastSessionUpdate] and the timers are as before, and the only
    call made is [event.preventDefault()]. *)
Theorem submit_inactive_is_ignored :
  forall (ins v now : string) (w : World),
    let w0 := setVoice v (setInstructions ins w) in
    let w' := handleSessionUpdateSubmit false now w0 in
    sent w' = sent w0
    /\ state w' = state w0
    /\ lastSessionUpdate (state w') = lastSessionUpdate (state w)
    /\ timers w' = timers w0
    /\ calls w' = calls w0 ++ [CallPreventDefault].
Proof.
  intros ins v now w w0 w'. subst w' w0.
  unfold handleSessionUpdateSubmit. cbn [negb].
  autorewrite with sent. repeat split.
Qed.

(* ================================================================== *)
(** ** Rendering a stored invocation *)
(* ================================================================== *)

(** C8. The arguments
    [{"theme":"ocean","colors":["#001","#002","#003","#004","#005"]}] parse
    to the theme [ocean] and the five colours in the order written; the
    element rendered shows that theme and one box per colour, in order,
    each with the colour as its key, its background and its text. *)
Theorem ocean_palette_round_trip :
  forall (t : string) (n : option string),
    let o := {| output_type := t; output_name := n;
                output_arguments := Some oceanArguments |} in
    let box := fun s => {| box_key := [PText s];
                           box_backgroundColor := JString s;
                           box_text := JString s |} in
    JSON_parse (output_arguments o)
    = Normal (JObject
                [ ("theme", JString "ocean");
                  ("colors",
                   JArray [JString "#001"; JString "#002"; JString "#003";
                           JString "#004"; JString "#005"]) ])
    /\ FunctionCallOutput o
       = Normal {| themeLine := Some (JString "ocean");
                   colorBoxes :=
                     map box ["#001"; "#002"; "#003"; "#004"; "#005"];
                   preOf := o |}.
Proof.
  intros t n o box. split; reflexivity.
Qed.

Lemma FunctionCallOutput_syntax (o : Output) :
  JSON_parse (output_arguments o) = Throw SyntaxError ->
  FunctionCallOutput o = Throw SyntaxError.
Proof. intros H. unfold FunctionCallOutput. rewrite H. reflexivity. Qed.

Lemma FunctionCallOutput_no_colors (o : Output) (v : JSON) :
  JSON_parse (output_arguments o) = Normal v ->
  get "colors" v = None ->
  FunctionCallOutput o = Throw TypeError.
Proof.
  intros H G. unfold FunctionCallOutput. rewrite H.
  destruct v; try reflexivity; rewrite G; reflexivity.
Qed.

Lemma view_throws (p : Props) (s : State) (o : Output) (e : JSError) :
  isSessionActive p = true ->
  functionCallOutput s = Some o ->
  FunctionCallOutput o = Throw e ->
  ToolPanel_view p s = Throw e.
Proof.
  intros A F T. unfold ToolPanel_view, renderFunctionCallOutput.
  rewrite A, F, T. reflexivity.
Qed.

Lemma pass_view_throws (p : Props) (i : Instance) (e : JSError) :
  alive i = true ->
  ToolPanel_view p (state (world i)) = Throw e ->
  status (pass p i) = Gone (Some e).
Proof.
  unfold alive, pass. intros A T.
  destruct (status i) as [|p0 fa0 d0|err]; [| |discriminate];
    rewrite T; reflexivity.
Qed.

(** C2, as the code has it. Rendering a stored invocation whose arguments
    do not parse throws a SyntaxError, and one whose parsed arguments have
    no [colors] throws a TypeError; the exception leaves
    [FunctionCallOutput] and the render of [ToolPanel] while the session is
    active, no element is produced, and the instance that renders it is
    unmounted. *)
Theorem malformed_arguments_throw :
  forall (o : Output),
    JSON_parse (output_arguments o) = Throw SyntaxError
    \/ (exists v, JSON_parse (output_arguments o) = Normal v
                  /\ get "colors" v = None) ->
    exists e,
      e = match JSON_parse (output_arguments o) with
          | Throw _ => SyntaxError
          | Normal _ => TypeError
          end
      /\ FunctionCallOutput o = Throw e
      /\ forall (p : Props) (i : Instance),
           alive i = true ->
           isSessionActive p = true ->
           functionCallOutput (state (world i)) = Some o ->
           ToolPanel_view p (state (world i)) = Throw e
           /\ status (pass p i) = Gone (Some e).
Proof.
  intros o [H | [v [H G]]].
  - exists SyntaxError. rewrite H. split; [reflexivity|].
    pose proof (FunctionCallOutput_syntax o H) as T.
    split; [exact T|]. intros p i A S F.
    pose proof (view_throws p _ o _ S F T) as V.
    split; [exact V | apply pass_view_throws; assumption].
  - exists TypeError. rewrite H. split; [reflexivity|].
    pose proof (FunctionCallOutput_no_colors o v H G) as T.
    split; [exact T|]. intros p i A S F.
    pose proof (view_throws p _ o _ S F T) as V.
    split; [exact V | apply pass_view_throws; assumption].
Qed.

Lemma malformed_arguments_throw_witness :
  let o := paletteCall themeOnlyArguments in
  (exists v, JSON_parse (output_arguments o) = Normal v
             /\ get "colors" v = None)
  /\ FunctionCallOutput o = Throw TypeError.
Proof.
  intros o.
  assert (H : exists v, JSON_parse (output_arguments o) = Normal v
                        /\ get "colors" v = None).
  { eexists. split; reflexivity. }
  split; [exact H|].
  destruct (malformed_arguments_throw o (or_intror H)) as [e [E [T _]]].
  rewrite T. f_equal. exact E.
Defined.

(** C2, the claim as stated, fails. The arguments [{"theme":"x"}] parse to
    an object without [colors]; rendering the invocation throws a TypeError
    out of [FunctionCallOutput]. In a session: the [response.done] that
    carries the invocation is processed, the invocation is stored, the next
    render throws and the component is unmounted; the update that follows,
    whose oldest event is [session.created], is not processed. *)
Lemma theme_only_arguments_throw :
  let o := paletteCall themeOnlyArguments in
  let i := run [Render (update 1 [responseDone [o]])] initial in
  let i' := run [Render (update 2 [plainEvent "session.created"])] i in
  JSON_parse (output_arguments o) = Normal (JObject [("theme", JString "x")])
  /\ FunctionCallOutput o = Throw TypeError
  /\ functionCallOutput (state (world i)) = Some o
  /\ status i = Gone (Some TypeError)
  /\ i' = i
  /\ sent (world i') = [].
Proof.
  vm_compute. repeat split.
Qed.

(* ================================================================== *)
(** ** The guard of the events effect *)
(* ================================================================== *)

(** C10. For an [events] prop that is [undefined], [null] or an empty
    array, the events effect returns at once: it completes normally, returns
    no cleanup, and leaves the world as it found it (no command, no timer,
    no state set). *)
Theorem empty_log_is_ignored :
  forall (w : World) (r : nat),
    eventsEffect EvUndefined w = (w, Normal None)
    /\ eventsEffect EvNull w = (w, Normal None)
    /\ eventsEffect (EvArray r []) w = (w, Normal None).
Proof.
  intros w r. repeat split.
Qed.

(* ================================================================== *)
(** ** Session teardown *)
(* ================================================================== *)

Lemma fire_pending (h : nat) (w : World) :
  pending h w ->
  exists t, In t (timers w) /\ handle t = h
            /\ fire h w
               = runCallback (callback t)
                   {| state := state w;
                      timers := filter (fun t => negb (Nat.eqb (handle t) h))
                                  (timers w);
                      nextHandle := nextHandle w;
                      calls := calls w |}.
Proof.
  intros [t [I E]]. unfold fire.
  destruct (find (fun t => Nat.eqb (handle t) h) (timers w)) as [t'|] eqn:F.
  - apply find_some in F. destruct F as [I' E'].
    apply Nat.eqb_eq in E'. exists t'. repeat split; assumption.
  - exfalso. apply (find_none _ _ F) in I. rewrite E, Nat.eqb_refl in I.
    discriminate.
Qed.



(* ================================================================== *)
(** ** One run of the events effect *)
(* ================================================================== *)

Lemma last_default {A : Type} (l : list A) (x d d' : A) :
  last (x :: l) d = last (x :: l) d'.
Proof.
  revert x. induction l as [|y l IH]; intros x; [reflexivity|].
  change (last (y :: l) d = last (y :: l) d'). apply IH.
Qed.

Lemma newest_cons (m : Output) (ms : list Output) (old : option Output) :
  newest (m :: ms) old = newest ms (Some m).
Proof.
  destruct ms as [|m' ms]; [reflexivity|].
  unfold newest. f_equal.
  change (last (m' :: ms) m = last (m' :: ms) m'). apply last_default.
Qed.

Lemma state_eta (s : State) :
  {| functionAdded := functionAdded s;
     functionCallOutput := functionCallOutput s;
     instructions := instructions s;
     voice := voice s;
     lastSessionUpdate := lastSessionUpdate s |} = s.
Proof. destruct s; reflexivity. Qed.

Lemma onOutput_palette (o : Output) (w : World) (tid : option nat) :
  isPaletteCall o = true ->
  onOutput (w, tid) o
  = (snd (setTimeout (SendLater followUp) 500
            (setFunctionCallOutput (Some o) w)),
     Some (nextHandle w)).
Proof. intros M. unfold onOutput. rewrite M. reflexivity. Qed.

Lemma onOutput_other (o : Output) (acc : World * option nat) :
  isPaletteCall o = false -> onOutput acc o = acc.
Proof. intros M. unfold onOutput. rewrite M. reflexivity. Qed.

(** The [forEach] loop, starting in world [w] with [timeoutId] equal to
    [tid]. *)
Lemma fold_onOutput (output : list Output) :
  forall (w : World) (tid : option nat),
    let r := fold_left onOutput output (w, tid) in
    let ms := paletteCalls output in
    timers (fst r)
    = timers w ++ map followUpTimer (seq (nextHandle w) (length ms))
    /\ nextHandle (fst r) = nextHandle w + length ms
    /\ snd r = match ms with
               | [] => tid
               | _ :: _ => Some (nextHandle w + length ms - 1)
               end
    /\ sent (fst r) = sent w
    /\ armings (calls (fst r)) = armings (calls w) + length ms
    /\ invocationUpdates (calls (fst r))
       = invocationUpdates (calls w) + length ms
    /\ state (fst r)
       = {| functionAdded := functionAdded (state w);
            functionCallOutput := newest ms (functionCallOutput (state w));
            instructions := instructions (state w);
            voice := voice (state w);
            lastSessionUpdate := lastSessionUpdate (state w) |}.
Proof.
  induction output as [|o output IH]; intros w tid.
  - simpl. rewrite app_nil_r, !Nat.add_0_r, state_eta. repeat split.
  - cbn zeta. change (fold_left onOutput (o :: output) (w, tid))
      with (fold_left onOutput output (onOutput (w, tid) o)).
    unfold paletteCalls. cbn [filter]. fold (paletteCalls output).
    destruct (isPaletteCall o) eqn:M.
    + rewrite (onOutput_palette o w tid M).
      match goal with
      | |- context [fold_left onOutput output (?w1, ?t1)] =>
          destruct (IH w1 t1) as (T & N & C & S & A & U & St)
      end.
      cbn [length]. rewrite T, N, C, S, A, U, St. clear IH T N C S A U St.
      rewrite sent_setTimeout, sent_setFunctionCallOutput.
      cbn [timers nextHandle record calls state setFunctionCallOutput
           withState functionAdded functionCallOutput instructions voice
           lastSessionUpdate setTimeout snd].
      rewrite !armings_app, !invocationUpdates_app.
      cbn [armings invocationUpdates].
      rewrite <- app_assoc. cbn [app seq map].
      rewrite newest_cons.
      repeat split; try lia.
      destruct (paletteCalls output); f_equal; cbn [length]; lia.
    + rewrite (onOutput_other o (w, tid) M). apply IH.
Qed.

(** One run of the events effect in world [w]. *)
Lemma eventsEffect_facts (ev : EventsProp) (w : World) :
  let r := eventsEffect ev w in
  let ms := iterated ev in
  timers (fst r)
  = timers w ++ map followUpTimer (seq (nextHandle w) (length ms))
  /\ nextHandle (fst r) = nextHandle w + length ms
  /\ snd r = (if throws ev then Throw TypeError
              else Normal (cleanupOf ev (nextHandle w)))
  /\ sent (fst r)
     = sent w ++ (if negb (functionAdded (state w)) && registers ev
                  then [sessionUpdate] else [])
  /\ armings (calls (fst r)) = armings (calls w) + length ms
  /\ invocationUpdates (calls (fst r))
     = invocationUpdates (calls w) + length ms
  /\ state (fst r) = effectState ev (state w).
Proof.
  assert (Z : timers w = timers w ++ map followUpTimer (seq (nextHandle w) 0))
    by (simpl; rewrite app_nil_r; reflexivity).
  destruct ev as [| |ref items]; cbn zeta;
    try (unfold effectState; cbn; rewrite andb_false_r, orb_false_r,
           !app_nil_r, !Nat.add_0_r, state_eta; repeat split).
  destruct items as [|m rest].
  { unfold effectState; cbn. rewrite andb_false_r, orb_false_r,
      !app_nil_r, !Nat.add_0_r, state_eta. repeat split. }
  unfold eventsEffect, throws, cleanupOf, registers, oldestIsCreated,
    effectState, iterated.
  set (oc := String.eqb (event_type (last (m :: rest) m)) "session.created").
  set (w1 := if negb (functionAdded (state w)) && oc
             then setFunctionAdded true (sendClientEvent sessionUpdate w)
             else w).
  assert (W1 : timers w1 = timers w /\ nextHandle w1 = nextHandle w
               /\ sent w1 = sent w ++ (if negb (functionAdded (state w)) && oc
                                       then [sessionUpdate] else [])
               /\ armings (calls w1) = armings (calls w)
               /\ invocationUpdates (calls w1) = invocationUpdates (calls w)
               /\ state w1
                  = {| functionAdded := functionAdded (state w) || oc;
                       functionCallOutput := functionCallOutput (state w);
                       instructions := instructions (state w);
                       voice := voice (state w);
                       lastSessionUpdate := lastSessionUpdate (state w) |}).
  { subst w1. destruct (functionAdded (state w)) eqn:FA; destruct oc;
      cbn [negb andb orb]; rewrite ?app_nil_r;
      try (rewrite <- FA, state_eta; repeat split).
    autorewrite with sent. cbn. rewrite !armings_app, !invocationUpdates_app.
    cbn. rewrite !Nat.add_0_r. repeat split. }
  destruct W1 as (T1 & N1 & S1 & A1 & U1 & St1).
  destruct (String.eqb (event_type m) "response.done"); cbn [andb fst snd].
  - destruct (event_response m) as [[[output|]]|];
      cbn [response_output fst snd length map seq];
      rewrite ?app_nil_r, ?Nat.add_0_r; try (repeat split; assumption).
    pose proof (fold_onOutput output w1 None) as H. cbn zeta in H.
    destruct (fold_left onOutput output (w1, None)) as [w2 tid] eqn:F.
    cbn [fst snd] in H.
    destruct H as (T & N & C & S & A & U & St).
    cbn [fst snd]. rewrite T, N, C, S, A, U, St, T1, N1, S1, A1, U1, St1.
    cbn [functionAdded functionCallOutput instructions voice lastSessionUpdate].
    repeat split.
  - cbn [length map seq]. rewrite ?app_nil_r, ?Nat.add_0_r.
    repeat split; assumption.
Qed.

(** One run of the events effect on a log whose newest event [events[0]]
    is a [response.done] with an output list: with [n] the number of
    entries the loop takes, the run completes normally, the table grows by
    the [n] new follow-up timers, [setTimeout] and [setFunctionCallOutput]
    are called [n] times each, and the state keeps the last of those
    entries (the previous value when [n] is 0). An update of the log can
    run the effect more than once
    (see [completion_and_registration_in_one_update]). *)
Lemma eventsEffect_arms_one_timer_per_call :
  forall (ref : nat) (rest : list Event) (output : list Output) (w : World),
    let ev := EvArray ref (responseDone output :: rest) in
    let w' := fst (eventsEffect ev w) in
    let n := length (paletteCalls output) in
    (exists c, snd (eventsEffect ev w) = Normal c)
    /\ timers w' = timers w ++ map followUpTimer (seq (nextHandle w) n)
    /\ length (timers w') = length (timers w) + n
    /\ armings (calls w') = armings (calls w) + n
    /\ invocationUpdates (calls w') = invocationUpdates (calls w) + n
    /\ functionCallOutput (state w')
       = newest (paletteCalls output) (functionCallOutput (state w)).
Proof.
  intros ref rest output w ev w' n.
  destruct (eventsEffect_facts ev w) as (T & _ & C & _ & A & U & St).
  change (iterated ev) with (paletteCalls output) in *.
  change (throws ev) with false in C. cbn iota in C.
  fold w' in T, A, U, St. fold n in T, A, U.
  split; [eexists; exact C|].
  split; [exact T|].
  split; [rewrite T, length_app, length_map, length_seq; reflexivity|].
  split; [exact A|]. split; [exact U|].
  rewrite St. reflexivity.
Qed.

(** The effect runs a second time within one update when that update also
    registers the tool: [functionAdded] is one of its dependencies. Mounted
    on a log holding a completion with one palette call above
    [session.created], the component arms timer 1, cancels it in the
    cleanup and arms timer 2. *)
Example completion_and_registration_in_one_update :
  let log := [responseDone [paletteCall oceanArguments];
              plainEvent "session.created"] in
  let i := run [Render (update 1 log)] initial in
  armings (calls (world i)) = 2
  /\ map handle (timers (world i)) = [2]
  /\ registrations (world i) = 1.
Proof. vm_compute. repeat split. Qed.

(* ================================================================== *)
(** ** Properties of the world kept by every step *)
(* ================================================================== *)

Section WorldInvariant.

Variable I : World -> Prop.

Hypothesis I_send : forall cmd w, I w -> I (sendClientEvent cmd w).
Hypothesis I_setFunctionAdded : forall b w, I w -> I (setFunctionAdded b w).
Hypothesis I_setFunctionCallOutput :
  forall o w, I w -> I (setFunctionCallOutput o w).
Hypothesis I_setInstructions : forall s w, I w -> I (setInstructions s w).
Hypothesis I_setVoice : forall v w, I w -> I (setVoice v w).
Hypothesis I_setLastSessionUpdate :
  forall t w, I w -> I (setLastSessionUpdate t w).
Hypothesis I_preventDefault : forall w, I w -> I (preventDefault w).
Hypothesis I_arm :
  forall w, I w -> I (snd (setTimeout (SendLater followUp) 500 w)).
Hypothesis I_clear : forall h w, I w -> I (clearTimeout h w).
Hypothesis I_fire : forall h w, I w -> I (fire h w).

Lemma I_fold (output : list Output) :
  forall w tid, I w -> I (fst (fold_left onOutput output (w, tid))).
Proof.
  induction output as [|o output IH]; intros w tid H; [exact H|].
  change (fold_left onOutput (o :: output) (w, tid))
    with (fold_left onOutput output (onOutput (w, tid) o)).
  destruct (isPaletteCall o) eqn:M.
  - rewrite (onOutput_palette o w tid M). apply IH.
    apply I_arm, I_setFunctionCallOutput, H.
  - rewrite (onOutput_other o (w, tid) M). apply IH, H.
Qed.

Lemma I_eventsEffect (ev : EventsProp) (w : World) :
  I w -> I (fst (eventsEffect ev w)).
Proof.
  intros H. destruct ev as [| |ref [|m rest]]; try exact H.
  unfold eventsEffect.
  match goal with
  | |- context [if negb ?a && ?b then ?x else ?y] =>
      set (w1 := if negb a && b then x else y);
      assert (H1 : I w1)
        by (subst w1; destruct (negb a && b);
            [apply I_setFunctionAdded, I_send, H | exact H])
  end.
  destruct (String.eqb (event_type m) "response.done"); [|exact H1].
  destruct (event_response m) as [[[output|]]|]; cbn [response_output];
    try exact H1.
  pose proof (I_fold output w1 None H1) as F.
  destruct (fold_left onOutput output (w1, None)). exact F.
Qed.

Lemma I_runDestroy (d : option Cleanup) (w : World) :
  I w -> I (runDestroy d w).
Proof.
  intros H. destruct d as [[[h|]]|]; simpl; try exact H.
  destruct (Nat.eqb h 0); [exact H | apply I_clear, H].
Qed.

Lemma I_sessionEffect (a : bool) (w : World) : I w -> I (sessionEffect a w).
Proof.
  intros H. unfold sessionEffect. destruct a; cbn [negb]; [exact H|].
  apply I_setVoice, I_setInstructions, I_setLastSessionUpdate,
    I_setFunctionCallOutput, I_setFunctionAdded, H.
Qed.

Lemma I_submit (a : bool) (now : string) (w : World) :
  I w -> I (handleSessionUpdateSubmit a now w).
Proof.
  intros H. unfold handleSessionUpdateSubmit. destruct a; cbn [negb].
  - apply I_setLastSessionUpdate, I_send, I_preventDefault, H.
  - apply I_preventDefault, H.
Qed.

Lemma I_commitEffects (p : Props) (run1 run2 : bool) (d : option Cleanup)
    (w : World) :
  I w -> I (world (commitEffects p run1 run2 d w)).
Proof.
  intros H. unfold commitEffects.
  assert (H1 : I (fst (if run1 then eventsEffect (events p) (runDestroy d w)
                       else (w, Normal d)))).
  { destruct run1; [apply I_eventsEffect, I_runDestroy, H | exact H]. }
  destruct (if run1 then eventsEffect (events p) (runDestroy d w)
            else (w, Normal d)) as [w1 [d1|e]]; cbn [fst] in H1; cbn [world].
  - destruct run2; [apply I_sessionEffect, H1 | exact H1].
  - exact H1.
Qed.

Lemma I_pass (p : Props) (i : Instance) : I (world i) -> I (world (pass p i)).
Proof.
  intros H. unfold pass. destruct (status i) as [|p0 fa0 d0|err]; [| |exact H].
  - destruct (ToolPanel_view p (state (world i))); [|exact H].
    apply I_commitEffects, H.
  - destruct (ToolPanel_view p (state (world i))).
    + apply I_commitEffects, H.
    + apply I_runDestroy, H.
Qed.

Lemma I_settle (fuel : nat) (p : Props) :
  forall i, I (world i) -> I (world (settle fuel p i)).
Proof.
  induction fuel as [|fuel IH]; intros i H; [exact H|].
  cbn [settle]. pose proof (I_pass p i H) as H1.
  destruct (status (pass p i)); try exact H1;
    destruct (State_eq_dec _ _); try exact H1; apply IH, H1.
Qed.

Lemma I_step (s : Step) (i : Instance) : I (world i) -> I (world (step s i)).
Proof.
  intros H. unfold step, rerender.
  destruct s; destruct (status i) eqn:St; try exact H;
    try (apply I_settle; try exact H; cbn [onWorld world]);
    try (apply I_fire, H).
  - apply I_submit, H.
  - apply I_setInstructions, H.
  - apply I_setVoice, H.
  - apply I_runDestroy, H.
Qed.

Lemma I_run (steps : list Step) :
  forall i, I (world i) -> I (world (run steps i)).
Proof.
  induction steps as [|s steps IH]; intros i H; [exact H|].
  apply IH, I_step, H.
Qed.

End WorldInvariant.

(** *** Handles *)

Lemma wellFormed_same (w w' : World) :
  timers w' = timers w -> nextHandle w' = nextHandle w ->
  wellFormed w -> wellFormed w'.
Proof. unfold wellFormed. intros -> ->. trivial. Qed.

Lemma Forall_filter_keep {A : Type} (P : A -> Prop) (f : A -> bool) (l : list A) :
  Forall P l -> Forall P (filter f l).
Proof.
  intros H. apply Forall_forall. intros x Hx.
  apply filter_In in Hx. destruct Hx as [Hx _].
  rewrite Forall_forall in H. apply H, Hx.
Qed.

Lemma wellFormed_arm (cb : Callback) (ms : nat) (w : World) :
  wellFormed w -> wellFormed (snd (setTimeout cb ms w)).
Proof.
  intros [P F]. split; cbn; [lia|].
  apply Forall_app. split.
  - eapply Forall_impl; [|exact F]. cbn. intros; lia.
  - repeat constructor.
Qed.

Lemma wellFormed_clear (h : nat) (w : World) :
  wellFormed w -> wellFormed (clearTimeout h w).
Proof.
  intros [P F]. split; cbn; [exact P|]. apply Forall_filter_keep, F.
Qed.

Lemma wellFormed_fire (h : nat) (w : World) :
  wellFormed w -> wellFormed (fire h w).
Proof.
  intros [P F]. unfold fire.
  destruct (find _ _) as [t|]; [|split; assumption].
  destruct (callback t). split; cbn; [exact P|].
  apply Forall_filter_keep, F.
Qed.

Lemma wellFormed_run (steps : list Step) (i : Instance) :
  wellFormed (world i) -> wellFormed (world (run steps i)).
Proof.
  apply I_run; intros;
    try (eapply wellFormed_same; [| |eassumption]; reflexivity).
  - apply wellFormed_arm; assumption.
  - apply wellFormed_clear; assumption.
  - apply wellFormed_fire; assumption.
Qed.

Lemma wellFormed_initial : wellFormed initialWorld.
Proof. split; cbn; [lia | constructor]. Qed.

(** *** Follow-up timers *)

Lemma followUpsOnly_record (c : Call) (w : World) :
  isFollowUpArming c -> followUpsOnly w -> followUpsOnly (record c w).
Proof.
  intros C [T K]. split; cbn; [exact T|].
  apply Forall_app. split; [exact K | repeat constructor; exact C].
Qed.

Lemma followUpsOnly_state (s : State) (w : World) :
  followUpsOnly w -> followUpsOnly (withState s w).
Proof. intros H; exact H. Qed.

Lemma followUpsOnly_arm (w : World) :
  followUpsOnly w -> followUpsOnly (snd (setTimeout (SendLater followUp) 500 w)).
Proof.
  intros [T K]. split; cbn.
  - apply Forall_app. split; [exact T | repeat constructor].
  - apply Forall_app. split; [exact K | repeat constructor].
Qed.

Lemma followUpsOnly_clear (h : nat) (w : World) :
  followUpsOnly w -> followUpsOnly (clearTimeout h w).
Proof.
  intros [T K]. split; cbn.
  - apply Forall_filter_keep, T.
  - apply Forall_app. split; [exact K | repeat constructor].
Qed.

Lemma followUpsOnly_fire (h : nat) (w : World) :
  followUpsOnly w -> followUpsOnly (fire h w).
Proof.
  intros [T K]. unfold fire.
  destruct (find _ _) as [t|]; [|split; assumption].
  destruct (callback t). split; cbn.
  - apply Forall_filter_keep, T.
  - apply Forall_app. split; [exact K | repeat constructor].
Qed.

Lemma followUpsOnly_run (steps : list Step) (i : Instance) :
  followUpsOnly (world i) -> followUpsOnly (world (run steps i)).
Proof.
  apply I_run; intros;
    try (apply followUpsOnly_record; [exact Logic.I|]; try assumption;
         apply followUpsOnly_state; assumption).
  - apply followUpsOnly_arm; assumption.
  - apply followUpsOnly_clear; assumption.
  - apply followUpsOnly_fire; assumption.
Qed.

Lemma followUpsOnly_initial : followUpsOnly initialWorld.
Proof. split; constructor. Qed.

Lemma fire_followUp (w : World) (t : Timer) :
  followUpsOnly w -> In t (timers w) ->
  sent (fire (handle t) w) = sent w ++ [followUp].
Proof.
  intros [T _] H.
  destruct (fire_pending (handle t) w) as [t' [I' [_ E]]].
  { exists t. split; [exact H | reflexivity]. }
  rewrite Forall_forall in T. destruct (T t' I') as [_ C].
  rewrite E, C. cbn [runCallback]. rewrite sent_send. reflexivity.
Qed.

(* ================================================================== *)
(** ** What the teardown effect does *)
(* ================================================================== *)

Lemma followUpsOnly_sessionEffect (a : bool) (w : World) :
  followUpsOnly w -> followUpsOnly (sessionEffect a w).
Proof.
  apply I_sessionEffect; intros;
    (apply followUpsOnly_record; [exact Logic.I|]);
    apply followUpsOnly_state; assumption.
Qed.


(** C7. In every state the component can reach, every [setTimeout] call it
    made asked for 500 ms and every pending timer has that delay; when a
    pending timer fires, exactly one command is sent. That command is the
    same for every timer, whatever the palette: its type is
    [response.create], it has no other member than [response], and the
    instructions of the response are the text of the source, which asks for
    feedback about the colour palette and tells not to repeat the
    colours. *)
Theorem followup_timer_delay_and_command :
  forall (steps : list Step),
    let i := run steps initial in
    (forall h ms, In (CallSetTimeout h ms) (calls (world i)) -> ms = 500)
    /\ (forall t, In t (timers (world i)) ->
          delay t = 500
          /\ sent (world (step (Tick (handle t)) i))
             = sent (world i) ++ [followUp])
    /\ path ["type"] followUp = Some (JString "response.create")
    /\ path ["response"; "instructions"] followUp
       = Some (JString followUpInstructions)
    /\ followUp
       = JObject
           [ ("type", JString "response.create");
             ("response",
              JObject
                [ ("instructions",
                   JString "
                ask for feedback about the color palette - don't repeat
                the colors, just ask if they like the colors.
              ") ]) ].
Proof.
  intros steps i.
  pose proof (followUpsOnly_run steps initial followUpsOnly_initial) as H.
  fold i in H. split; [|split; [|split; [|split]; reflexivity]].
  - intros h ms Hc. destruct H as [_ K]. rewrite Forall_forall in K.
    exact (K _ Hc).
  - intros t Ht. split.
    + destruct H as [T _]. rewrite Forall_forall in T. apply (T t Ht).
    + change (world (step (Tick (handle t)) i)) with (fire (handle t) (world i)).
      apply fire_followUp; assumption.
Qed.

Lemma followup_timer_delay_and_command_witness :
  let i := run [Render {| isSessionActive := true; sendClientEventRef := 0;
                          events := EvArray 1 [responseDone
                                      [paletteCall oceanArguments]] |}]
             initial in
  In (followUpTimer 1) (timers (world i))
  /\ In (CallSetTimeout 1 500) (calls (world i))
  /\ delay (followUpTimer 1) = 500
  /\ sent (world (step (Tick 1) i)) = sent (world i) ++ [followUp].
Proof.
  intros i.
  assert (T : In (followUpTimer 1) (timers (world i))) by (left; reflexivity).
  assert (C : In (CallSetTimeout 1 500) (calls (world i)))
    by (right; left; reflexivity).
  destruct (followup_timer_delay_and_command
              [Render {| isSessionActive := true; sendClientEventRef := 0;
                         events := EvArray 1 [responseDone
                                     [paletteCall oceanArguments]] |}])
    as [_ [F _]].
  destruct (F _ T) as [D S].
  repeat split; assumption.
Defined.

(* ================================================================== *)
(** ** One render and commit *)
(* ================================================================== *)

Lemma sessionEffect_timers (a : bool) (w : World) :
  timers (sessionEffect a w) = timers w
  /\ nextHandle (sessionEffect a w) = nextHandle w.
Proof. destruct a; split; reflexivity. Qed.

Lemma if_sessionEffect_timers (b a : bool) (w : World) :
  timers (if b then sessionEffect a w else w) = timers w
  /\ nextHandle (if b then sessionEffect a w else w) = nextHandle w.
Proof. destruct b; [apply sessionEffect_timers | split; reflexivity]. Qed.

Lemma runDestroy_next (d : option Cleanup) (w : World) :
  nextHandle (runDestroy d w) = nextHandle w.
Proof.
  destruct d as [[[h|]]|]; try reflexivity.
  cbn. destruct (Nat.eqb h 0); reflexivity.
Qed.

Lemma runDestroy_timers (i : Instance) (p0 : Props) (fa0 : bool)
    (d0 : option Cleanup) (w : World) :
  status i = Live p0 fa0 d0 ->
  timers (runDestroy d0 w) = clearRetained i (timers w).
Proof.
  intros St. unfold clearRetained, retained. rewrite St.
  destruct d0 as [[[h|]]|]; try reflexivity.
  cbn. destruct (Nat.eqb h 0); reflexivity.
Qed.

Lemma retained_cleanupOf (ev : EventsProp) (next : nat) (w : World)
    (p : Props) (fa : bool) :
  let i' := {| world := w; status := Live p fa (cleanupOf ev next) |} in
  let n := length (iterated ev) in
  retained i' = None \/ (0 < n /\ retained i' = Some (next + n - 1)).
Proof.
  cbn zeta. unfold retained; cbn [status]. unfold cleanupOf.
  destruct ev as [| |ref [|m rest]]; try (left; reflexivity).
  destruct (iterated (EvArray ref (m :: rest))) as [|o ms];
    [left; reflexivity|].
  destruct (Nat.eqb _ 0); [left; reflexivity|].
  right. split; [cbn; lia | reflexivity].
Qed.

(** What one pass does to the timer table: it may run the retained cleanup
    ([c]), then arms [n] follow-up timers under fresh handles; the cleanup
    it retains afterwards is that of the last timer armed, or the previous
    one when the first effect did not run. The cleanup does run when a
    dependency of the first effect changed. *)
Lemma pass_shape (p : Props) (i : Instance) :
  exists (c : bool) (n : nat),
    timers (world (pass p i))
    = (if c then clearRetained i (timers (world i)) else timers (world i))
      ++ map followUpTimer (seq (nextHandle (world i)) n)
    /\ nextHandle (world (pass p i)) = nextHandle (world i) + n
    /\ (retained (pass p i) = None
        \/ (0 < n /\ retained (pass p i) = Some (nextHandle (world i) + n - 1))
        \/ (c = false /\ n = 0 /\ retained (pass p i) = retained i))
    /\ (depsChanged p i = true -> c = true).
Proof.
  assert (Same : forall i', world i' = world i -> retained i' = None ->
                            depsChanged p i = false ->
            timers (world i')
            = timers (world i) ++ map followUpTimer (seq (nextHandle (world i)) 0)
            /\ nextHandle (world i') = nextHandle (world i) + 0
            /\ (retained i' = None
                \/ (0 < 0 /\ retained i' = Some (nextHandle (world i) + 0 - 1))
                \/ (false = false /\ 0 = 0 /\ retained i' = retained i))
            /\ (depsChanged p i = true -> false = true)).
  { intros i' W R D. rewrite W, R, D. cbn. rewrite app_nil_r, Nat.add_0_r.
    repeat split; auto. }
  unfold pass. destruct (status i) as [|p0 fa0 d0|err] eqn:St.
  - (* mount *)
    assert (D : depsChanged p i = false) by (unfold depsChanged; rewrite St; reflexivity).
    destruct (ToolPanel_view p (state (world i))) as [v|e].
    + unfold commitEffects. cbn [runDestroy].
      pose proof (eventsEffect_facts (events p) (world i)) as F. cbn zeta in F.
      destruct F as (T & N & C & _).
      destruct (eventsEffect (events p) (world i)) as [w1 r].
      cbn [fst snd] in T, N, C. exists false, (length (iterated (events p))).
      rewrite D. subst r.
      destruct (throws (events p)).
      * cbn [world]. rewrite T, N. repeat split; try discriminate.
        left; reflexivity.
      * cbn [world]. destruct (sessionEffect_timers (isSessionActive p) w1) as [T' N'].
        rewrite T', N', T, N. repeat split; try discriminate.
        destruct (retained_cleanupOf (events p) (nextHandle (world i))
                    (sessionEffect (isSessionActive p) w1) p
                    (functionAdded (state (world i)))) as [R|R]; auto.
    + exists false, 0. apply Same; reflexivity || assumption.
  - (* update *)
    destruct (ToolPanel_view p (state (world i))) as [v|e].
    + unfold commitEffects.
      assert (D : depsChanged p i
                  = negb (sameEvents (events p) (events p0)
                          && Bool.eqb (functionAdded (state (world i))) fa0
                          && Nat.eqb (sendClientEventRef p) (sendClientEventRef p0)))
        by (unfold depsChanged; rewrite St; reflexivity).
      rewrite <- D. destruct (depsChanged p i).
      * pose proof (eventsEffect_facts (events p) (runDestroy d0 (world i))) as F.
        cbn zeta in F. destruct F as (T & N & C & _).
        rewrite runDestroy_next, (runDestroy_timers i p0 fa0 d0 _ St) in T.
        rewrite runDestroy_next in N, C.
        destruct (eventsEffect (events p) (runDestroy d0 (world i))) as [w1 r].
        cbn [fst snd] in T, N, C. exists true, (length (iterated (events p))).
        subst r. destruct (throws (events p)).
        -- cbn [world]. rewrite T, N. repeat split; auto.
        -- cbn [world].
           destruct (if_sessionEffect_timers
                       (negb (Bool.eqb (isSessionActive p) (isSessionActive p0)))
                       (isSessionActive p) w1) as [T' N'].
           rewrite T', N', T, N.
           repeat split; auto.
           match goal with
           | |- context [retained {| world := ?w'; status := _ |}] =>
               destruct (retained_cleanupOf (events p) (nextHandle (world i)) w' p
                           (functionAdded (state (world i)))) as [R|R]; auto
           end.
      * exists false, 0. cbn [world].
        destruct (if_sessionEffect_timers
                    (negb (Bool.eqb (isSessionActive p) (isSessionActive p0)))
                    (isSessionActive p) (world i)) as [T' N'].
        rewrite T', N'. cbn. rewrite app_nil_r, Nat.add_0_r.
        repeat split; try discriminate.
        right; right. repeat split. unfold retained. cbn [status]. rewrite St.
        reflexivity.
    + exists true, 0. cbn [world]. rewrite runDestroy_next,
        (runDestroy_timers i p0 fa0 d0 _ St). cbn. rewrite app_nil_r, Nat.add_0_r.
      repeat split; auto.
  - exists false, 0. apply Same; try reflexivity.
    + unfold retained. rewrite St. reflexivity.
    + unfold depsChanged. rewrite St. reflexivity.
Qed.

Ltac world_invariant :=
  intros;
  first [ eapply wellFormed_same; [| |eassumption]; reflexivity
        | apply wellFormed_arm; assumption
        | apply wellFormed_clear; assumption
        | apply wellFormed_fire; assumption ].

Lemma wellFormed_pass (p : Props) (i : Instance) :
  wellFormed (world i) -> wellFormed (world (pass p i)).
Proof. apply I_pass; world_invariant. Qed.

Lemma wellFormed_step (s : Step) (i : Instance) :
  wellFormed (world i) -> wellFormed (world (step s i)).
Proof. apply I_step; world_invariant. Qed.

Lemma In_followUpTimer (t : Timer) (next n : nat) :
  In t (map followUpTimer (seq next n)) -> next <= handle t < next + n.
Proof.
  intros H. apply in_map_iff in H. destruct H as [h [E H]].
  apply in_seq in H. subst t. cbn. lia.
Qed.

Lemma In_clearRetained (i : Instance) (t : Timer) (ts : list Timer) :
  In t (clearRetained i ts) <-> In t ts /\ retained i <> Some (handle t).
Proof.
  unfold clearRetained. destruct (retained i) as [h|].
  - rewrite filter_In. split; intros [H K]; split; try exact H.
    + intros E. injection E as E. subst h. rewrite Nat.eqb_refl in K.
      discriminate.
    + destruct (Nat.eqb (handle t) h) eqn:E; [|reflexivity].
      apply Nat.eqb_eq in E. subst h. exfalso. apply K. reflexivity.
  - split; [intros H; split; [exact H | discriminate] | intros [H _]; exact H].
Qed.

Lemma sound_pass (p : Props) (i : Instance) : sound i -> sound (pass p i).
Proof.
  intros [W R]. split; [apply wellFormed_pass, W|].
  destruct (pass_shape p i) as (c & n & _ & N & Ret & _).
  intros h H. rewrite N.
  destruct Ret as [E | [[Pos E] | (_ & Z & E)]]; rewrite E in H.
  - discriminate.
  - injection H as H. lia.
  - apply R in H. lia.
Qed.

Lemma survivor_pass (t : Timer) (p : Props) (i : Instance) :
  survivor t i -> survivor t (pass p i).
Proof.
  intros (S & H & NR). split; [apply sound_pass, S|].
  destruct S as [[_ F] R]. rewrite Forall_forall in F. specialize (F t H).
  destruct (pass_shape p i) as (c & n & T & N & Ret & _).
  split.
  - rewrite T. apply in_or_app. left.
    destruct c; [apply In_clearRetained; split; assumption | exact H].
  - destruct Ret as [E | [[Pos E] | (_ & _ & E)]]; rewrite E.
    + discriminate.
    + intros K. injection K as K. lia.
    + exact NR.
Qed.

Lemma spent_pass (h : nat) (p : Props) (i : Instance) :
  spent h i -> spent h (pass p i).
Proof.
  intros (S & B & NP). split; [apply sound_pass, S|].
  destruct (pass_shape p i) as (c & n & T & N & _).
  split; [lia|]. intros [t [H E]]. rewrite T in H.
  apply in_app_or in H. destruct H as [H|H].
  - apply NP. exists t. split; [|exact E].
    destruct c; [apply In_clearRetained in H; apply H | exact H].
  - apply In_followUpTimer in H. lia.
Qed.

(** A pass that finds a dependency of the first effect changed cancels the
    retained timer. *)
Lemma pass_cancels_retained (h : nat) (p : Props) (i : Instance) :
  sound i -> retained i = Some h -> depsChanged p i = true ->
  spent h (pass p i).
Proof.
  intros S R D. split; [apply sound_pass, S|].
  destruct S as [_ B]. specialize (B h R).
  destruct (pass_shape p i) as (c & n & T & N & _ & C).
  rewrite (C D) in T. split; [lia|].
  intros [t [H E]]. rewrite T in H. apply in_app_or in H. destruct H as [H|H].
  - apply In_clearRetained in H. destruct H as [_ H]. apply H.
    rewrite R, E. reflexivity.
  - apply In_followUpTimer in H. lia.
Qed.

(* ================================================================== *)
(** ** Properties of the instance kept by every step *)
(* ================================================================== *)

Lemma settle_cases (fuel : nat) (p : Props) (i : Instance) :
  settle (S fuel) p i = pass p i
  \/ settle (S fuel) p i = settle fuel p (pass p i).
Proof.
  cbn [settle]. destruct (status (pass p i)); auto;
    destruct (State_eq_dec _ _); auto.
Qed.

Section InstanceInvariant.

Variable J : Instance -> Prop.
Variable okTick : nat -> Prop.

Hypothesis J_pass : forall p i, J i -> J (pass p i).
Hypothesis J_frame :
  forall (f : World -> World) i,
    (forall w, timers (f w) = timers w /\ nextHandle (f w) = nextHandle w) ->
    J i -> J (onWorld f i).
Hypothesis J_fire : forall h i, okTick h -> J i -> J (onWorld (fire h) i).
Hypothesis J_unmount : forall i, J i -> J (step Unmount i).

Lemma J_settle (fuel : nat) (p : Props) :
  forall i, J i -> J (settle fuel p i).
Proof.
  induction fuel as [|fuel IH]; intros i H; [exact H|].
  destruct (settle_cases fuel p i) as [E|E]; rewrite E.
  - apply J_pass, H.
  - apply IH, J_pass, H.
Qed.

Lemma J_step (s : Step) (i : Instance) :
  okStep okTick s -> J i -> J (step s i).
Proof.
  intros Ok H. destruct s.
  - apply J_settle, H.
  - unfold step. destruct (status i); try exact H.
    apply J_settle, J_frame; [|exact H].
    intros w. unfold handleSessionUpdateSubmit.
    destruct (negb (isSessionActive p)); split; reflexivity.
  - unfold step. destruct (status i); try exact H.
    apply J_settle, J_frame; [|exact H]. intros w; split; reflexivity.
  - unfold step. destruct (status i); try exact H.
    apply J_settle, J_frame; [|exact H]. intros w; split; reflexivity.
  - apply J_fire; assumption.
  - apply J_unmount, H.
Qed.

Lemma J_run (steps : list Step) :
  forall i, Forall (okStep okTick) steps -> J i -> J (run steps i).
Proof.
  induction steps as [|s steps IH]; intros i Ok H; [exact H|].
  inversion Ok; subst. apply IH; [assumption|]. apply J_step; assumption.
Qed.

End InstanceInvariant.

Lemma In_fire (h : nat) (w : World) (t : Timer) :
  In t (timers (fire h w)) <-> In t (timers w) /\ handle t <> h.
Proof.
  unfold fire.
  destruct (find (fun t => Nat.eqb (handle t) h) (timers w)) as [t'|] eqn:F.
  - destruct (callback t'). cbn. rewrite filter_In.
    split; intros [H K]; split; try exact H.
    + intros E. rewrite E, Nat.eqb_refl in K. discriminate.
    + apply negb_true_iff, Nat.eqb_neq, K.
  - split; [|intros [H _]; exact H].
    intros H. split; [exact H|].
    apply (find_none _ _ F) in H. apply Nat.eqb_neq, H.
Qed.

Lemma fire_next (h : nat) (w : World) : nextHandle (fire h w) = nextHandle w.
Proof.
  unfold fire. destruct (find _ _) as [t|]; [|reflexivity].
  destruct (callback t); reflexivity.
Qed.

Lemma sound_frame (f : World -> World) (i : Instance) :
  (forall w, timers (f w) = timers w /\ nextHandle (f w) = nextHandle w) ->
  sound i -> sound (onWorld f i).
Proof.
  intros Fr [W R]. destruct (Fr (world i)) as [T N]. split.
  - eapply wellFormed_same; eassumption.
  - intros h H. cbn [onWorld world]. rewrite N. apply R, H.
Qed.

Lemma sound_fire (h : nat) (i : Instance) : sound i -> sound (onWorld (fire h) i).
Proof.
  intros [W R]. split.
  - apply wellFormed_fire, W.
  - intros h' H. cbn [onWorld world]. rewrite fire_next. apply R, H.
Qed.

Lemma sound_unmount (i : Instance) : sound i -> sound (step Unmount i).
Proof.
  intros [W R]. split.
  - apply wellFormed_step, W.
  - intros h H. unfold step in H.
    destruct (status i) eqn:St; unfold retained in H; cbn [status] in H;
      try discriminate.
    rewrite St in H. discriminate.
Qed.

Lemma sound_run (steps : list Step) : sound (run steps initial).
Proof.
  apply (J_run sound (fun _ => True)).
  - intros; apply sound_pass; assumption.
  - intros; apply sound_frame; assumption.
  - intros; apply sound_fire; assumption.
  - intros; apply sound_unmount; assumption.
  - apply Forall_forall. intros s _. destruct s; exact Logic.I.
  - split; [apply wellFormed_initial | intros h H; discriminate].
Qed.

Lemma survivor_step (t : Timer) (s : Step) (i : Instance) :
  isTick (handle t) s = false -> survivor t i -> survivor t (step s i).
Proof.
  intros NT. apply (J_step (survivor t) (fun h => h <> handle t)).
  - intros; apply survivor_pass; assumption.
  - intros f j Fr (S & H & NR). destruct (Fr (world j)) as [T N].
    split; [apply sound_frame; assumption|].
    split; [cbn [onWorld world]; rewrite T; exact H | exact NR].
  - intros h j Ne (S & H & NR).
    split; [apply sound_fire; assumption|].
    split; [|exact NR]. cbn [onWorld world]. apply In_fire. split; auto.
  - intros j (S & H & NR). split; [apply sound_unmount, S|].
    unfold step. destruct (status j) as [|p0 fa0 d0|err] eqn:St; cbn [world status].
    + split; [exact H | unfold retained; cbn; discriminate].
    + split; [|unfold retained; cbn; discriminate].
      rewrite (runDestroy_timers j p0 fa0 d0 _ St).
      apply In_clearRetained. split; assumption.
    + split; assumption.
  - destruct s; cbn in *; trivial. apply Nat.eqb_neq, NT.
Qed.

Lemma survivor_run (t : Timer) (steps : list Step) :
  forall i, existsb (isTick (handle t)) steps = false ->
            survivor t i -> survivor t (run steps i).
Proof.
  induction steps as [|s steps IH]; intros i NT H; [exact H|].
  cbn in NT. apply orb_false_iff in NT. destruct NT as [NT1 NT2].
  apply IH; [exact NT2|]. apply survivor_step; assumption.
Qed.

Lemma spent_settle (h : nat) (fuel : nat) (p : Props) (i : Instance) :
  spent h i -> spent h (settle fuel p i).
Proof.
  revert i. induction fuel as [|fuel IH]; intros i H; [exact H|].
  destruct (settle_cases fuel p i) as [E|E]; rewrite E.
  - apply spent_pass, H.
  - apply IH, spent_pass, H.
Qed.

(** Rendering with a changed dependency of the first effect cancels the
    retained timer for good. *)
Lemma rerender_cancels_retained (h : nat) (p : Props) (i : Instance) :
  sound i -> retained i = Some h -> depsChanged p i = true ->
  spent h (rerender p i).
Proof.
  intros S R D. unfold rerender.
  pose proof (pass_cancels_retained h p i S R D) as H.
  destruct (settle_cases 2 p i) as [E|E]; rewrite E.
  - exact H.
  - apply spent_settle, H.
Qed.

(* ================================================================== *)
(** ** The cleanup of the events effect *)
(* ================================================================== *)

Lemma filter_all {A : Type} (f : A -> bool) (l : list A) :
  Forall (fun x => f x = true) l -> filter f l = l.
Proof.
  induction 1 as [|x l Hx _ IH]; [reflexivity|].
  cbn. rewrite Hx, IH. reflexivity.
Qed.

(** Cancelling the last of [n] timers just armed leaves the table that was
    there before and the [n - 1] first of them. *)
Lemma clear_last_armed (ts : list Timer) (next k : nat) :
  Forall (fun t => handle t < next) ts ->
  filter (fun t => negb (Nat.eqb (handle t) (next + k)))
    (ts ++ map followUpTimer (seq next (S k)))
  = ts ++ map followUpTimer (seq next k).
Proof.
  intros F. rewrite filter_app, seq_S, map_app, filter_app. f_equal.
  - apply filter_all. eapply Forall_impl; [|exact F].
    cbn. intros t Lt. apply negb_true_iff, Nat.eqb_neq. lia.
  - cbn. rewrite Nat.eqb_refl. cbn. rewrite app_nil_r.
    apply filter_all. apply Forall_forall. intros t H.
    apply In_followUpTimer in H. apply negb_true_iff, Nat.eqb_neq. lia.
Qed.

(** C9. The cleanup returned by a run of the events effect holds one
    handle, that of the last timer the run armed. Run after a
    [response.done] with [n] palette calls, it cancels that timer only: the
    [n - 1] timers armed before it in the same run stay in the table.
    In every reachable state, rendering with a changed [events] prop runs
    the retained cleanup, so the retained timer is pending no more,
    whether or not the session is still active, and so does unmounting;
    and a pending timer that is not the retained one stays pending through
    every sequence of steps that does not contain its own firing. *)
Theorem cleanup_cancels_only_last_timer :
  (forall (ref : nat) (rest : list Event) (output : list Output) (w : World),
      wellFormed w ->
      let ev := EvArray ref (responseDone output :: rest) in
      let n := length (paletteCalls output) in
      let w' := fst (eventsEffect ev w) in
      exists d,
        snd (eventsEffect ev w) = Normal d
        /\ d = Some (ClearPending
                       match n with
                       | 0 => None
                       | S k => Some (nextHandle w + k)
                       end)
        /\ timers w' = timers w ++ map followUpTimer (seq (nextHandle w) n)
        /\ timers (runDestroy d w')
           = timers w ++ map followUpTimer (seq (nextHandle w) (n - 1)))
  /\ (forall (steps : list Step) (p p0 : Props) (h : nat),
        let i := run steps initial in
        committedProps i = Some p0 ->
        sameEvents (events p) (events p0) = false ->
        retained i = Some h ->
        ~ pending h (world (step (Render p) i)))
  /\ (forall (steps : list Step) (h : nat),
        let i := run steps initial in
        retained i = Some h ->
        ~ pending h (world (step Unmount i)))
  /\ (forall (steps more : list Step) (t : Timer),
        let i := run steps initial in
        In t (timers (world i)) ->
        retained i <> Some (handle t) ->
        existsb (isTick (handle t)) more = false ->
        In t (timers (world (run more i)))).
Proof.
  split; [|split; [|split]].
  - intros ref rest output w [Pos F] ev n w'.
    destruct (eventsEffect_facts ev w) as (T & _ & C & _).
    change (iterated ev) with (paletteCalls output) in *.
    change (throws ev) with false in C. cbn iota in C.
    fold w' in T. fold n in T.
    eexists. split; [exact C|].
    assert (D : cleanupOf ev (nextHandle w)
                = Some (ClearPending
                          match n with
                          | 0 => None
                          | S k => Some (nextHandle w + k)
                          end)).
    { unfold cleanupOf. change (iterated ev) with (paletteCalls output).
      subst n ev. cbn iota.
      destruct (paletteCalls output) as [|o ms]; [reflexivity|].
      cbn [length]. do 3 f_equal. lia. }
    split; [exact D|]. split; [exact T|].
    rewrite D. destruct n as [|k].
    + cbn [runDestroy runCleanup]. rewrite T. reflexivity.
    + cbn [runDestroy runCleanup].
      destruct (Nat.eqb (nextHandle w + k) 0) eqn:Z;
        [apply Nat.eqb_eq in Z; lia|].
      cbn [clearTimeout record timers]. rewrite T.
      replace (S k - 1) with k by lia.
      apply clear_last_armed; assumption.
  - intros steps p p0 h i CP SE R.
    pose proof (sound_run steps) as S. fold i in S.
    assert (D : depsChanged p i = true).
    { unfold committedProps in CP. unfold depsChanged.
      destruct (status i); try discriminate. injection CP as ->.
      rewrite SE. reflexivity. }
    destruct (rerender_cancels_retained h p i S R D) as (_ & _ & NP).
    exact NP.
  - intros steps h i R [t [H E]]. unfold step in H.
    destruct (status i) as [|p0 fa0 d0|err] eqn:St;
      try (unfold retained in R; rewrite St in R; discriminate).
    cbn [world] in H. rewrite (runDestroy_timers i p0 fa0 d0 _ St) in H.
    apply In_clearRetained in H. destruct H as [_ H]. apply H.
    rewrite R, E. reflexivity.
  - intros steps more t i H NR NT.
    pose proof (sound_run steps) as S. fold i in S.
    destruct (survivor_run t more i NT) as (_ & H' & _); [|exact H'].
    split; [exact S|]. split; assumption.
Qed.

Lemma cleanup_cancels_only_last_timer_witness :
  let two := [paletteCall oceanArguments; paletteCall oceanArguments] in
  let p1 := update 1 [responseDone two] in
  let p2 := update 2 [plainEvent "x"; responseDone two] in
  let i := run [Render p1] initial in
  wellFormed initialWorld
  /\ map handle (timers (runDestroy (Some (ClearPending (Some 2)))
                           (fst (eventsEffect (events p1) initialWorld))))
     = [1]
  /\ retained i = Some 2
  /\ ~ pending 2 (world (step (Render p2) i))
  /\ ~ pending 2 (world (step Unmount i))
  /\ In (followUpTimer 1)
        (timers (world (run [Render p2; Submit "10:00:00"; Unmount] i))).
Proof.
  intros two p1 p2 i.
  destruct cleanup_cancels_only_last_timer as (A & B & U & C).
  split; [exact wellFormed_initial|].
  split.
  { destruct (A 1 [] two initialWorld wellFormed_initial) as (d & _ & D & _ & T).
    rewrite D in T. cbn [length] in T.
    change (events p1) with (EvArray 1 [responseDone two]).
    exact (f_equal (map handle) T). }
  split; [reflexivity|].
  split; [apply (B [Render p1] p2 p1 2); reflexivity|].
  split.
  - apply (U [Render p1] 2). reflexivity.
  - apply (C [Render p1] [Render p2; Submit "10:00:00"; Unmount] (followUpTimer 1)).
    + left. reflexivity.
    + discriminate.
    + reflexivity.
Defined.

(* ================================================================== *)
(** ** Tool registration *)
(* ================================================================== *)

Lemma sent_runDestroy (d : option Cleanup) (w : World) :
  sent (runDestroy d w) = sent w.
Proof.
  destruct d as [[[h|]]|]; try reflexivity.
  cbn. destruct (Nat.eqb h 0); [reflexivity | apply sent_clearTimeout].
Qed.

Lemma state_runDestroy (d : option Cleanup) (w : World) :
  state (runDestroy d w) = state w.
Proof.
  destruct d as [[[h|]]|]; try reflexivity.
  cbn. destruct (Nat.eqb h 0); reflexivity.
Qed.

(** One pass while the session is active. *)
Lemma pass_active (p : Props) (i : Instance) :
  isSessionActive p = true -> inSession i ->
  let i' := pass p i in
  let fresh :=
    if runsFirst p i && negb (functionAdded (state (world i)))
       && registers (events p)
    then [sessionUpdate] else [] in
  (alive i' = true ->
     committedProps i' = Some p
     /\ state (world i')
        = (if runsFirst p i then effectState (events p) (state (world i))
           else state (world i))
     /\ sent (world i') = sent (world i) ++ fresh)
  /\ (alive i' = false ->
      sent (world i') = sent (world i)
      \/ sent (world i') = sent (world i) ++ fresh).
Proof.
  intros A S. cbn zeta. unfold pass, runsFirst.
  destruct (status i) as [|p0 fa0 d0|err] eqn:St.
  - destruct (ToolPanel_view p (state (world i))) as [v|e].
    + unfold commitEffects. cbn [runDestroy andb].
      destruct (eventsEffect_facts (events p) (world i))
        as (_ & _ & C & Se & _ & _ & Sta).
      destruct (eventsEffect (events p) (world i)) as [w1 r].
      cbn [fst snd] in C, Se, Sta. subst r.
      destruct (throws (events p)).
      * split; [discriminate|]. intros _. right. exact Se.
      * rewrite A. cbn [sessionEffect negb]. split; [|discriminate].
        intros _. repeat split; assumption.
    + split; [discriminate|]. intros _. left. reflexivity.
  - assert (A0 : isSessionActive p0 = true).
    { apply S. unfold committedProps. rewrite St. reflexivity. }
    destruct (ToolPanel_view p (state (world i))) as [v|e].
    + unfold commitEffects. rewrite A, A0. cbn [Bool.eqb negb].
      assert (D : depsChanged p i
                  = negb (sameEvents (events p) (events p0)
                          && Bool.eqb (functionAdded (state (world i))) fa0
                          && Nat.eqb (sendClientEventRef p) (sendClientEventRef p0)))
        by (unfold depsChanged; rewrite St; reflexivity).
      rewrite <- D. destruct (depsChanged p i); cbn [andb].
      * destruct (eventsEffect_facts (events p) (runDestroy d0 (world i)))
          as (_ & _ & C & Se & _ & _ & Sta).
        rewrite state_runDestroy in Se, Sta. rewrite sent_runDestroy in Se.
        destruct (eventsEffect (events p) (runDestroy d0 (world i))) as [w1 r].
        cbn [fst snd] in C, Se, Sta. subst r.
        destruct (throws (events p)).
        -- split; [discriminate|]. intros _. right. exact Se.
        -- split; [|discriminate]. intros _. repeat split; assumption.
      * split; [|discriminate]. intros _. cbn [world]. rewrite app_nil_r.
        repeat split.
    + split; [discriminate|]. intros _. left. cbn [world].
      apply sent_runDestroy.
  - split; [unfold alive; rewrite St; discriminate|]. intros _. left.
    reflexivity.
Qed.

Lemma registrations_app (w w' : World) (cmds : list JSON) :
  sent w' = sent w ++ cmds ->
  registrations w' = registrations w + length (filter isToolRegistration cmds).
Proof.
  intros E. unfold registrations. rewrite E, filter_app, length_app.
  reflexivity.
Qed.

Lemma alive_cases (i : Instance) : alive i = true \/ alive i = false.
Proof. destruct (alive i); auto. Qed.

Lemma registered_alive (i : Instance) :
  alive i = true ->
  registered i
  <-> registrations (world i) = if functionAdded (state (world i)) then 1 else 0.
Proof.
  unfold alive, registered. destruct (status i); try discriminate; tauto.
Qed.

Lemma registered_gone (i : Instance) :
  alive i = false -> registered i <-> registrations (world i) <= 1.
Proof.
  unfold alive, registered. destruct (status i); try discriminate; tauto.
Qed.

Lemma registered_bound (i : Instance) :
  registered i -> registrations (world i) <= 1.
Proof.
  destruct (alive_cases i) as [A|A]; intros R.
  - apply (registered_alive i A) in R. rewrite R.
    destruct (functionAdded _); lia.
  - apply (registered_gone i A), R.
Qed.

(** A pass in an active session keeps the count of registrations in step
    with [functionAdded], which becomes true when the first effect runs on
    a log whose oldest event is [session.created]. *)
Lemma registered_pass (p : Props) (i : Instance) :
  isSessionActive p = true -> inSession i -> alive i = true ->
  registered i ->
  registered (pass p i)
  /\ (alive (pass p i) = true ->
      committedProps (pass p i) = Some p
      /\ functionAdded (state (world (pass p i)))
         = (functionAdded (state (world i))
            || runsFirst p i && registers (events p))).
Proof.
  intros A S L R. apply (registered_alive i L) in R.
  destruct (pass_active p i A S) as [Al Go]. cbn zeta in Al, Go.
  destruct (alive_cases (pass p i)) as [L'|L'].
  - destruct (Al L') as (CP & St & Se). split.
    + apply (registered_alive _ L').
      rewrite (registrations_app _ _ _ Se), R, St.
      destruct (runsFirst p i); unfold effectState; cbn [functionAdded];
        destruct (functionAdded (state (world i))), (registers (events p));
        reflexivity.
    + intros _. split; [exact CP|]. rewrite St.
      destruct (runsFirst p i); cbn;
        [reflexivity | rewrite orb_false_r; reflexivity].
  - split; [|rewrite L'; discriminate].
    apply (registered_gone _ L').
    destruct (Go L') as [Se|Se].
    + unfold registrations. rewrite Se. fold (registrations (world i)).
      rewrite R. destruct (functionAdded _); lia.
    + rewrite (registrations_app _ _ _ Se), R.
      destruct (runsFirst p i), (functionAdded (state (world i))),
        (registers (events p)); cbn; lia.
Qed.

Lemma pass_gone (p : Props) (i : Instance) : alive i = false -> pass p i = i.
Proof.
  unfold alive, pass. destruct (status i); try discriminate. reflexivity.
Qed.

Lemma settle_gone (fuel : nat) (p : Props) (i : Instance) :
  alive i = false -> settle fuel p i = i.
Proof.
  intros G. destruct fuel as [|fuel]; [reflexivity|].
  cbn [settle]. rewrite (pass_gone p i G).
  unfold alive in G. destruct (status i); try discriminate. reflexivity.
Qed.

Lemma settled_pass (p : Props) (x : bool) (j : Instance) :
  isSessionActive p = true ->
  (registers (events p) = true -> x = true) ->
  settled p x j -> settled p x (pass p j).
Proof.
  intros A X [R L]. destruct (alive_cases j) as [Al|Al].
  - destruct (L Al) as [CP FA].
    assert (S : inSession j).
    { intros p0 E. rewrite CP in E. injection E as <-. exact A. }
    destruct (registered_pass p j A S Al R) as [R' L'].
    split; [exact R'|]. intros Al'. destruct (L' Al') as [CP' FA'].
    split; [exact CP'|]. rewrite FA', FA.
    destruct x; [reflexivity|].
    destruct (registers (events p)); [discriminate (X eq_refl)|].
    rewrite andb_false_r. reflexivity.
  - rewrite (pass_gone p j Al). split; assumption.
Qed.

Lemma settled_settle (fuel : nat) (p : Props) (x : bool) :
  isSessionActive p = true ->
  (registers (events p) = true -> x = true) ->
  forall j, settled p x j -> settled p x (settle fuel p j).
Proof.
  intros A X. induction fuel as [|fuel IH]; intros j H; [exact H|].
  destruct (settle_cases fuel p j) as [E|E]; rewrite E.
  - apply settled_pass; assumption.
  - apply IH, settled_pass; assumption.
Qed.

(** One update of the log in an active session. *)
Lemma tracking_update (n : nat) (seen : bool) (items : list Event)
    (i : Instance) :
  tracking n seen i ->
  tracking (S n) (seen || oldestIsCreated items) (rerender (update n items) i).
Proof.
  intros (R & S & FA & Old).
  set (p := update n items). set (x := seen || oldestIsCreated items).
  destruct (alive_cases i) as [Al|Al].
  - assert (First : settled p x (pass p i)).
    { destruct (registered_pass p i eq_refl S Al R) as [R' L'].
      split; [exact R'|]. intros Al'. destruct (L' Al') as [CP' FA'].
      split; [exact CP'|]. rewrite FA', (FA Al). subst x. f_equal.
      assert (Runs : runsFirst p i = true).
      { unfold runsFirst, depsChanged.
        destruct (status i) as [|p0 fa0 d0|err] eqn:St; try reflexivity.
        - destruct (Old p0) as (r & its & E & Lt).
          { unfold committedProps. rewrite St. reflexivity. }
          rewrite E. cbn [p update events sameEvents].
          replace (Nat.eqb n r) with false
            by (symmetry; apply Nat.eqb_neq; lia).
          reflexivity.
        - unfold alive in Al. rewrite St in Al. discriminate. }
      rewrite Runs. reflexivity. }
    assert (X : registers (events p) = true -> x = true).
    { subst x. cbn. intros ->. apply orb_true_r. }
    assert (Fin : settled p x (rerender p i)).
    { unfold rerender. destruct (settle_cases 2 p i) as [E|E]; rewrite E.
      - exact First.
      - apply settled_settle; [reflexivity | exact X | exact First]. }
    destruct Fin as [R' L']. split; [exact R'|].
    unfold inSession, committedProps, alive in *.
    destruct (status (rerender p i)) as [|q fa d|err].
    + destruct (L' eq_refl) as [E _]. discriminate.
    + destruct (L' eq_refl) as [E FA']. injection E as ->.
      repeat split; auto.
      * intros p0 E. injection E as <-. reflexivity.
      * intros p0 E. injection E as <-. exists n, items. split; [reflexivity|lia].
    + repeat split; intros; discriminate.
  - unfold rerender. rewrite (settle_gone 3 p i Al).
    repeat split; auto.
    + intros K. rewrite Al in K. discriminate.
    + intros p0 E. destruct (Old p0 E) as (r & its & E' & Lt).
      exists r, its. split; [exact E' | lia].
Qed.

Lemma tracking_updates (logs : list (list Event)) :
  forall (n : nat) (seen : bool) (i : Instance),
    tracking n seen i ->
    tracking (n + length logs) (seen || existsb oldestIsCreated logs)
      (run (updates n logs) i).
Proof.
  induction logs as [|items logs IH]; intros n seen i H.
  - cbn. rewrite orb_false_r, Nat.add_0_r. exact H.
  - cbn [updates run fold_left step existsb length].
    rewrite orb_assoc. replace (n + S (length logs)) with (S n + length logs) by lia.
    apply (IH (S n)). apply tracking_update, H.
Qed.

Lemma tracking_initial : tracking 1 false initial.
Proof.
  repeat split.
  - intros p0 E. discriminate.
  - intros p0 E. discriminate.
Qed.

(** C3, the claim as stated, fails: [session.created] occurs once in the
    log and the tool is never registered. First with the log newest first
    (the order [events[0]] is read in): [session.created] arrives second and
    is never the last element. Then with the log oldest first and an update
    that brings two events at once: [session.created] is never the last
    element either. *)
Lemma registration_missed :
  let other := plainEvent "input_audio_buffer.speech_started" in
  let created := plainEvent "session.created" in
  let newestFirst := [[other]; [created; other]] in
  let oldestFirst := [[other]; [other; created; other]] in
  let i1 := run (updates 1 newestFirst) initial in
  let i2 := run (updates 1 oldestFirst) initial in
  functionAdded initialState = false
  /\ alive i1 = true /\ registrations (world i1) = 0 /\ sent (world i1) = []
  /\ alive i2 = true /\ registrations (world i2) = 0 /\ sent (world i2) = [].
Proof.
  vm_compute. repeat split.
Qed.

(** C3, as the code has it. Over every sequence of updates of the event log
    within one session, starting with [functionAdded] false, the
    tool-registration command is sent at most once; and, the component
    still being mounted at the end, it is sent exactly once if and only if
    in some update the last element of the array,
    [events[events.length - 1]], is a [session.created] event, however many
    updates follow. *)
Theorem registration_at_most_once :
  forall (logs : list (list Event)),
    let i := run (updates 1 logs) initial in
    registrations (world i) <= 1
    /\ isToolRegistration sessionUpdate = true
    /\ (alive i = true ->
        (registrations (world i) = 1
         <-> existsb oldestIsCreated logs = true)).
Proof.
  intros logs i.
  destruct (tracking_updates logs 1 false initial tracking_initial)
    as (R & _ & FA & _).
  fold i in R, FA. cbn [orb] in FA.
  split; [apply registered_bound, R|]. split; [reflexivity|].
  intros Al. apply (registered_alive i Al) in R. rewrite R, (FA Al).
  destruct (existsb oldestIsCreated logs); split; intros; congruence.
Qed.

Lemma registration_at_most_once_witness :
  let created := plainEvent "session.created" in
  let done := responseDone [paletteCall oceanArguments] in
  let logs := [[created]; [done; created]; [plainEvent "x"; done; created]] in
  let i := run (updates 1 logs) initial in
  alive i = true /\ registrations (world i) = 1.
Proof.
  intros created done logs i.
  destruct (registration_at_most_once logs) as (_ & _ & H).
  assert (Al : alive (run (updates 1 logs) initial) = true) by reflexivity.
  split; [exact Al|]. apply (H Al). reflexivity.
Defined.

(* ================================================================== *)
(** ** Three passes are enough *)
(* ================================================================== *)

Lemma newest_idempotent (ms : list Output) (old : option Output) :
  newest ms (newest ms old) = newest ms old.
Proof. destruct ms; reflexivity. Qed.

Lemma effectState_idempotent (ev : EventsProp) (s : State) :
  effectState ev (effectState ev s) = effectState ev s.
Proof.
  unfold effectState. cbn. rewrite newest_idempotent, <- orb_assoc, orb_diag.
  reflexivity.
Qed.

Lemma sameEvents_refl (ev : EventsProp) : sameEvents ev ev = true.
Proof. destruct ev; try reflexivity. apply Nat.eqb_refl. Qed.

(** A pass with the props of the last commit runs the first effect only,
    and only when [functionAdded] changed. *)
Lemma pass_same_props (p : Props) (fa : bool) (d : option Cleanup)
    (j : Instance) :
  status j = Live p fa d ->
  alive (pass p j) = true ->
  state (world (pass p j)) = state (world j)
  \/ state (world (pass p j)) = effectState (events p) (state (world j)).
Proof.
  intros St Al. unfold alive, pass in *. rewrite St in *.
  destruct (ToolPanel_view p (state (world j))) as [v|e]; [|discriminate].
  unfold commitEffects in *.
  rewrite Bool.eqb_reflx in *. cbn [negb] in *.
  destruct (negb _).
  - destruct (eventsEffect_facts (events p) (runDestroy d (world j)))
      as (_ & _ & _ & _ & _ & _ & Sta).
    rewrite state_runDestroy in Sta.
    destruct (eventsEffect (events p) (runDestroy d (world j))) as [w1 [d1|e]];
      [|discriminate].
    right. exact Sta.
  - left. reflexivity.
Qed.

Lemma pass_status (p : Props) (i : Instance) :
  alive (pass p i) = true -> exists fa d, status (pass p i) = Live p fa d.
Proof.
  unfold alive, pass. destruct (status i) as [|p0 fa0 d0|err] eqn:St; intros Al.
  - destruct (ToolPanel_view p (state (world i))); [|discriminate].
    unfold commitEffects in *.
    destruct (eventsEffect _ _) as [w1 [d1|e]]; [|discriminate].
    eexists _, _. reflexivity.
  - destruct (ToolPanel_view p (state (world i))); [|discriminate].
    unfold commitEffects in *.
    destruct (if negb _ then _ else _) as [w1 [d1|e]]; [|discriminate].
    eexists _, _. reflexivity.
  - rewrite St in Al. discriminate.
Qed.

Lemma settle_stop (fuel : nat) (p : Props) (i : Instance) :
  alive (pass p i) = false \/ state (world (pass p i)) = state (world i) ->
  settle (S fuel) p i = pass p i.
Proof.
  intros H. cbn [settle]. unfold alive in H.
  destruct (status (pass p i)); try reflexivity;
    destruct (State_eq_dec _ _) as [E|N]; try reflexivity;
    destruct H as [H|H]; try discriminate; contradiction.
Qed.

Lemma settle_go (fuel : nat) (p : Props) (i : Instance) :
  alive (pass p i) = true ->
  state (world (pass p i)) <> state (world i) ->
  settle (S fuel) p i = settle fuel p (pass p i).
Proof.
  intros Al N. cbn [settle]. unfold alive in Al.
  destruct (status (pass p i)); try discriminate;
    destruct (State_eq_dec _ _) as [E|_]; try reflexivity; contradiction.
Qed.

Lemma state_decide (a b : State) : a = b \/ a <> b.
Proof. destruct (State_eq_dec a b); auto. Qed.

(** After a pass that followed a commit with the same props and changed
    the state, the next pass changes nothing. *)
Lemma third_pass_stable (p : Props) (i1 : Instance) :
  alive i1 = true ->
  (exists fa d, status i1 = Live p fa d) ->
  state (world (pass p i1)) <> state (world i1) ->
  alive (pass p (pass p i1)) = false
  \/ state (world (pass p (pass p i1))) = state (world (pass p i1)).
Proof.
  intros A1 (fa & d & St1) N.
  destruct (alive_cases (pass p i1)) as [A2|A2].
  - destruct (pass_same_props p fa d i1 St1 A2) as [E|E]; [contradiction|].
    destruct (pass_status p i1 A2) as (fa2 & d2 & St2).
    destruct (alive_cases (pass p (pass p i1))) as [A3|A3]; [|left; exact A3].
    right.
    destruct (pass_same_props p fa2 d2 _ St2 A3) as [E'|E']; [exact E'|].
    rewrite E', E. apply effectState_idempotent.
  - left. rewrite (pass_gone p _ A2). exact A2.
Qed.

(** More than three passes change nothing: the third commit, if there is
    one, leaves the state as it was rendered. *)
Lemma settle_enough (n : nat) (p : Props) (i : Instance) :
  settle (3 + n) p i = settle 3 p i.
Proof.
  cbn [Nat.add].
  destruct (alive_cases (pass p i)) as [A1|A1];
    [|rewrite !settle_stop by (left; exact A1); reflexivity].
  destruct (state_decide (state (world (pass p i))) (state (world i))) as [E1|N1];
    [rewrite !settle_stop by (right; exact E1); reflexivity|].
  rewrite !(settle_go _ p i A1 N1).
  set (i1 := pass p i) in *.
  destruct (alive_cases (pass p i1)) as [A2|A2];
    [|rewrite !settle_stop by (left; exact A2); reflexivity].
  destruct (state_decide (state (world (pass p i1))) (state (world i1)))
    as [E2|N2];
    [rewrite !settle_stop by (right; exact E2); reflexivity|].
  rewrite !(settle_go _ p i1 A2 N2).
  pose proof (third_pass_stable p i1 A1 (pass_status p i A1) N2) as H.
  rewrite !settle_stop by exact H. reflexivity.
Qed.

(* ================================================================== *)
(** ** [FunctionCallOutput]: every outcome *)
(* ================================================================== *)

Lemma JSON_parse_throws (x : option string) (e : JSError) :
  JSON_parse x = Throw e -> e = SyntaxError.
Proof.
  unfold JSON_parse. destruct (parse _); intros H; [discriminate|].
  injection H as <-. reflexivity.
Qed.

(** The conversion of an array, element by element. *)
Lemma ToString_array (x : JSON) (rest : list JSON) :
  ToString (JArray (x :: rest))
  = match match x with JNull => Normal [] | _ => ToString x end with
    | Throw e => Throw e
    | Normal next =>
        match rest with
        | [] => Normal next
        | _ :: _ =>
            match ToString (JArray rest) with
            | Throw e => Throw e
            | Normal others => Normal (next ++ PText "," :: others)
            end
        end
    end.
Proof. reflexivity. Qed.

(** Induction on a value, with the elements of an array as premises. *)
Lemma JSON_ind_arrays (P : JSON -> Prop) :
  P JNull ->
  (forall b, P (JBool b)) ->
  (forall l, P (JNumber l)) ->
  (forall s, P (JString s)) ->
  (forall items, Forall P items -> P (JArray items)) ->
  (forall members, P (JObject members)) ->
  forall v, P v.
Proof.
  intros HN HB HL HS HA HO.
  fix IH 1.
  intros [|b|l|s|items|members];
    [exact HN | apply HB | apply HL | apply HS | | apply HO].
  apply HA.
  exact ((fix all (l : list JSON) : Forall P l :=
            match l with
            | [] => Forall_nil P
            | x :: r => Forall_cons x (IH x) (all r)
            end) items).
Qed.

(** The only exception of a conversion to a string is a TypeError. *)
Lemma ToString_throws (v : JSON) (e : JSError) :
  ToString v = Throw e -> e = TypeError.
Proof.
  revert e. induction v as [|b|l|s|items IH|members] using JSON_ind_arrays;
    intros e; try (cbn; discriminate).
  - induction IH as [|x rest Hx _ IHr]; [cbn; discriminate|].
    rewrite ToString_array.
    destruct (match x with JNull => Normal [] | _ => ToString x end)
      as [next|e'] eqn:X.
    + destruct rest as [|y rest']; [discriminate|].
      destruct (ToString (JArray (y :: rest'))) as [others|e''] eqn:R;
        [discriminate|].
      intros H. injection H as <-. apply IHr. reflexivity.
    + intros H. injection H as <-.
      destruct x; try discriminate X; apply (Hx _ X).
  - cbn. destruct (hasOwn "toString" members); [|discriminate].
    intros H. injection H as <-. reflexivity.
Qed.

Lemma colorBox_throws (c : JSON) (e : JSError) :
  colorBox c = Throw e <-> ToString c = Throw e.
Proof.
  unfold colorBox. destruct (ToString c); split; intros H;
    try discriminate; injection H as <-; reflexivity.
Qed.

Lemma colorBox_normal (c : JSON) (box : ColorBox) :
  colorBox c = Normal box
  <-> exists key, ToString c = Normal key
                  /\ box = {| box_key := key; box_backgroundColor := c;
                              box_text := c |}.
Proof.
  unfold colorBox. destruct (ToString c) as [key|e]; split.
  - intros H. injection H as <-. exists key. split; reflexivity.
  - intros (key' & K & ->). injection K as <-. reflexivity.
  - discriminate.
  - intros (key' & K & _). discriminate.
Qed.

(** [map] throws what its callback throws on some element. *)
Lemma array_map_throws {B : Type} (f : JSON -> Completion B)
    (items : list JSON) (e : JSError) :
  array_map f items = Throw e -> exists c, In c items /\ f c = Throw e.
Proof.
  induction items as [|x rest IH]; cbn [array_map]; [discriminate|].
  destruct (f x) as [y|e'] eqn:X.
  - destruct (array_map f rest) as [ys|e''] eqn:R; [discriminate|].
    intros H. injection H as <-. destruct (IH eq_refl) as (c & I & C).
    exists c. split; [right; exact I | exact C].
  - intros H. injection H as <-. exists x. split; [left; reflexivity | exact X].
Qed.

(** [map] completes exactly when its callback does on every element, and
    the result holds what the callback returned, in order. *)
Lemma array_map_normal {B : Type} (f : JSON -> Completion B)
    (items : list JSON) :
  (forall c, In c items -> exists y, f c = Normal y) ->
  exists ys, array_map f items = Normal ys
             /\ length ys = length items
             /\ forall k c, nth_error items k = Some c ->
                  exists y, f c = Normal y /\ nth_error ys k = Some y.
Proof.
  induction items as [|x rest IH]; intros H.
  - exists []. repeat split. intros [|k] c E; discriminate.
  - destruct (H x (or_introl eq_refl)) as [y X].
    destruct (IH (fun c I => H c (or_intror I))) as (ys & R & L & N).
    exists (y :: ys). cbn [array_map]. rewrite X, R.
    split; [reflexivity|]. split; [cbn; rewrite L; reflexivity|].
    intros [|k] c E.
    + injection E as <-. exists y. split; [exact X | reflexivity].
    + apply (N k c E).
Qed.

Lemma array_map_normal_inv {B : Type} (f : JSON -> Completion B)
    (items : list JSON) (ys : list B) :
  array_map f items = Normal ys ->
  forall c, In c items -> exists y, f c = Normal y.
Proof.
  revert ys. induction items as [|x rest IH]; intros ys H c I; [destruct I|].
  cbn [array_map] in H. destruct (f x) as [y|e] eqn:X; [|discriminate].
  destruct (array_map f rest) as [ys'|e] eqn:R; [|discriminate].
  destruct I as [<-|I]; [exists y; exact X | apply (IH ys' eq_refl c I)].
Qed.

Lemma FunctionCallOutput_colors (o : Output) (v : JSON) (items : list JSON) :
  JSON_parse (output_arguments o) = Normal v ->
  get "colors" v = Some (JArray items) ->
  FunctionCallOutput o
  = match array_map colorBox items with
    | Throw e => Throw e
    | Normal boxes =>
        Normal {| themeLine := get "theme" v; colorBoxes := boxes;
                  preOf := o |}
    end.
Proof.
  intros P C. unfold FunctionCallOutput. rewrite P.
  destruct v; try discriminate C. rewrite C. reflexivity.
Qed.

Lemma FunctionCallOutput_not_array (o : Output) (v : JSON) :
  JSON_parse (output_arguments o) = Normal v ->
  (forall items, get "colors" v <> Some (JArray items)) ->
  FunctionCallOutput o = Throw TypeError.
Proof.
  intros P C. unfold FunctionCallOutput. rewrite P.
  destruct v; try reflexivity.
  destruct (get "colors" (JObject members)) as [[]|] eqn:G; try reflexivity.
  exfalso. eapply C. reflexivity.
Qed.

(** An element is returned when every colour has a key. *)
Lemma FunctionCallOutput_array (o : Output) (v : JSON) (items : list JSON) :
  JSON_parse (output_arguments o) = Normal v ->
  get "colors" v = Some (JArray items) ->
  (forall c, In c items -> exists key, ToString c = Normal key) ->
  exists boxes,
    FunctionCallOutput o
    = Normal {| themeLine := get "theme" v; colorBoxes := boxes; preOf := o |}
    /\ length boxes = length items
    /\ forall k c, nth_error items k = Some c ->
         exists key, ToString c = Normal key
                     /\ nth_error boxes k
                        = Some {| box_key := key; box_backgroundColor := c;
                                  box_text := c |}.
Proof.
  intros P C K.
  destruct (array_map_normal colorBox items) as (boxes & M & L & N).
  { intros c I. destruct (K c I) as [key E]. eexists.
    apply colorBox_normal. exists key. split; [exact E | reflexivity]. }
  exists boxes. rewrite (FunctionCallOutput_colors o v items P C), M.
  split; [reflexivity|]. split; [exact L|].
  intros k c E. destruct (N k c E) as (box & B & Nb).
  apply colorBox_normal in B. destruct B as (key & Ek & ->).
  exists key. split; assumption.
Qed.

(** A colour without a key makes the function throw a TypeError. *)
Lemma FunctionCallOutput_no_key (o : Output) (v : JSON) (items : list JSON)
    (c : JSON) :
  JSON_parse (output_arguments o) = Normal v ->
  get "colors" v = Some (JArray items) ->
  In c items ->
  ToString c = Throw TypeError ->
  FunctionCallOutput o = Throw TypeError.
Proof.
  intros P C I T. rewrite (FunctionCallOutput_colors o v items P C).
  destruct (array_map colorBox items) as [boxes|e] eqn:M.
  - destruct (array_map_normal_inv colorBox items boxes M c I) as [box B].
    apply colorBox_normal in B. destruct B as (key & K & _).
    rewrite K in T. discriminate.
  - apply array_map_throws in M. destruct M as (c' & _ & B).
    apply colorBox_throws in B. rewrite (ToString_throws _ _ B). reflexivity.
Qed.

(** Either every colour has a key, or one of them has none. *)
Lemma keys_decide (items : list JSON) :
  (forall c, In c items -> exists key, ToString c = Normal key)
  \/ (exists c, In c items /\ ToString c = Throw TypeError).
Proof.
  induction items as [|x rest [IH|(c & I & T)]].
  - left. intros c [].
  - destruct (ToString x) as [key|e] eqn:X.
    + left. intros c [<-|I]; [exists key; exact X | apply IH, I].
    + right. exists x. split; [left; reflexivity|].
      rewrite X, (ToString_throws _ _ X). reflexivity.
  - right. exists c. split; [right; exact I | exact T].
Qed.

(** The outcomes of [FunctionCallOutput], each with the inputs that lead
    to it. A SyntaxError exactly when the arguments do not parse. An
    element exactly when they parse to a value whose [colors] is an array
    of values that can each be converted to a string, which creating the
    keyed [<div>] does. A TypeError in every other case: [null], a value
    without [colors], [colors] that is not an array, or an array with an
    element that has no conversion to a string (an object with a member
    [toString]). No other exception leaves the function. *)
Theorem FunctionCallOutput_outcome :
  forall (o : Output),
    (FunctionCallOutput o = Throw SyntaxError
     <-> JSON_parse (output_arguments o) = Throw SyntaxError)
    /\ (FunctionCallOutput o = Throw TypeError
        <-> exists v,
              JSON_parse (output_arguments o) = Normal v
              /\ ((forall items, get "colors" v <> Some (JArray items))
                  \/ exists items c,
                       get "colors" v = Some (JArray items)
                       /\ In c items /\ ToString c = Throw TypeError))
    /\ ((exists el, FunctionCallOutput o = Normal el)
        <-> exists v items,
              JSON_parse (output_arguments o) = Normal v
              /\ get "colors" v = Some (JArray items)
              /\ forall c, In c items -> exists key, ToString c = Normal key)
    /\ FunctionCallOutput o <> Throw InvalidChildError.
Proof.
  intros o.
  assert (Cases :
    JSON_parse (output_arguments o) = Throw SyntaxError
    \/ (exists v, JSON_parse (output_arguments o) = Normal v
                  /\ forall items, get "colors" v <> Some (JArray items))
    \/ (exists v items, JSON_parse (output_arguments o) = Normal v
                        /\ get "colors" v = Some (JArray items))).
  { destruct (JSON_parse (output_arguments o)) as [v|e] eqn:P.
    - right. destruct (get "colors" v) as [c|] eqn:G.
      + destruct c; try (left; exists v; split; [reflexivity|];
                         intros items; rewrite G; discriminate).
        right. exists v, items. split; [reflexivity | exact G].
      + left. exists v. split; [reflexivity|]. intros items. rewrite G.
        discriminate.
    - left. rewrite (JSON_parse_throws _ _ P). reflexivity. }
  destruct Cases as [S | [(v & P & C) | (v & items & P & C)]].
  - pose proof (FunctionCallOutput_syntax o S) as F. rewrite F, S.
    repeat split; try discriminate; auto.
    + intros (v & P & _). discriminate.
    + intros (el & E). discriminate.
    + intros (v & items & P & _). discriminate.
  - pose proof (FunctionCallOutput_not_array o v P C) as F. rewrite F, P.
    repeat split; try discriminate; auto.
    + intros _. exists v. split; [reflexivity | left; exact C].
    + intros (el & E). discriminate.
    + intros (v' & items & P' & C' & _). injection P' as <-.
      exfalso. exact (C items C').
  - destruct (keys_decide items) as [K | (c & I & T)].
    + destruct (FunctionCallOutput_array o v items P C K) as (boxes & F & _).
      rewrite F, P. repeat split; try discriminate.
      * intros (v' & P' & [C' | (items' & c & C' & I & T)]);
          injection P' as <-.
        -- exfalso. exact (C' items C).
        -- rewrite C in C'. injection C' as <-.
           destruct (K c I) as [key E]. rewrite E in T. discriminate.
      * intros _. exists v, items. repeat split; assumption.
      * intros _. eexists. reflexivity.
    + pose proof (FunctionCallOutput_no_key o v items c P C I T) as F.
      rewrite F, P. repeat split; try discriminate; auto.
      * intros _. exists v. split; [reflexivity|]. right.
        exists items, c. repeat split; assumption.
      * intros (el & E). discriminate.
      * intros (v' & items' & P' & C' & K). injection P' as <-.
        rewrite C in C'. injection C' as <-.
        destruct (K c I) as [key E]. rewrite E in T. discriminate.
Qed.

(** When the arguments parse to a value whose [colors] is an array of
    values that can each be converted to a string, the element has one box
    per element of the array, in the order of the array, whatever their
    number: the length is not checked. The key of a box is the text of the
    element, its background and its text are the element itself. A missing
    [theme] leaves the theme line empty without any error. *)
Theorem FunctionCallOutput_one_box_per_color :
  forall (o : Output) (v : JSON) (items : list JSON),
    JSON_parse (output_arguments o) = Normal v ->
    get "colors" v = Some (JArray items) ->
    (forall c, In c items -> exists key, ToString c = Normal key) ->
    exists el,
      FunctionCallOutput o = Normal el
      /\ length (colorBoxes el) = length items
      /\ (forall k c, nth_error items k = Some c ->
            exists key,
              ToString c = Normal key
              /\ nth_error (colorBoxes el) k
                 = Some {| box_key := key; box_backgroundColor := c;
                           box_text := c |})
      /\ themeLine el = get "theme" v
      /\ preOf el = o.
Proof.
  intros o v items P C K.
  destruct (FunctionCallOutput_array o v items P C K) as (boxes & F & L & N).
  eexists. split; [exact F|]. cbn [colorBoxes themeLine preOf].
  repeat split; assumption.
Qed.

Lemma FunctionCallOutput_one_box_per_color_witness :
  let o := paletteCall ("{" ++ quoted "colors" ++ ":[" ++ quoted "red"
                            ++ ",7,null]}")%string in
  JSON_parse (output_arguments o)
  = Normal (JObject [("colors", JArray [JString "red"; JNumber "7"; JNull])])
  /\ exists el, FunctionCallOutput o = Normal el
                /\ length (colorBoxes el) = 3
                /\ themeLine el = None.
Proof.
  intros o.
  assert (P : JSON_parse (output_arguments o)
              = Normal (JObject [("colors",
                                  JArray [JString "red"; JNumber "7"; JNull])]))
    by reflexivity.
  assert (K : forall c, In c [JString "red"; JNumber "7"; JNull] ->
                exists key, ToString c = Normal key).
  { intros c [<-|[<-|[<-|[]]]]; eexists; reflexivity. }
  split; [exact P|].
  destruct (FunctionCallOutput_one_box_per_color o _ _ P eq_refl K)
    as (el & F & L & _ & T & _).
  exists el. split; [exact F|]. split; [exact L | exact T].
Defined.

(* ================================================================== *)
(** ** The instructions that are sent *)
(* ================================================================== *)

Section StripFacts.

Variable w1 : ascii -> bool.
Variable w2 : ascii -> ascii -> bool.
Variable w3 : ascii -> ascii -> ascii -> bool.

Local Abbreviation strip' := (strip w1 w2 w3).

(** [strip] either stops at once or drops a non-empty front and goes on. *)
Lemma strip_cases (l : list ascii) :
  strip' l = l
  \/ exists front l', l = front ++ l' /\ front <> [] /\ strip' l = strip' l'.
Proof.
  destruct l as [|a l1]; [left; reflexivity|].
  cbn [strip]. destruct (w1 a).
  { right. exists [a], l1. repeat split. discriminate. }
  destruct l1 as [|b l2]; [left; reflexivity|].
  destruct (w2 a b).
  { right. exists [a; b], l2. repeat split. discriminate. }
  destruct l2 as [|c l3]; [left; reflexivity|].
  destruct (w3 a b c); [|left; reflexivity].
  right. exists [a; b; c], l3. repeat split. discriminate.
Qed.

Lemma strip_suffix_fuel (n : nat) :
  forall l, length l <= n -> exists pre, l = pre ++ strip' l.
Proof.
  induction n as [|n IH]; intros l Len.
  - destruct l; [|cbn in Len; lia]. exists []. reflexivity.
  - destruct (strip_cases l) as [E | (front & l' & E & NE & S)].
    + exists []. rewrite E. reflexivity.
    + destruct (IH l') as [pre P].
      { subst l. rewrite length_app in Len.
        destruct front; [contradiction|]. cbn in Len. lia. }
      exists (front ++ pre). rewrite S, <- app_assoc, <- P. exact E.
Qed.

Lemma strip_suffix (l : list ascii) : exists pre, l = pre ++ strip' l.
Proof. apply (strip_suffix_fuel (length l)). lia. Qed.

Lemma strip_idempotent_fuel (n : nat) :
  forall l, length l <= n -> strip' (strip' l) = strip' l.
Proof.
  induction n as [|n IH]; intros l Len.
  - destruct l; [reflexivity | cbn in Len; lia].
  - destruct (strip_cases l) as [E | (front & l' & E & NE & S)].
    + rewrite !E. reflexivity.
    + rewrite S. apply IH. subst l. rewrite length_app in Len.
      destruct front; [contradiction|]. cbn in Len. lia.
Qed.

Lemma strip_idempotent (l : list ascii) : strip' (strip' l) = strip' l.
Proof. apply (strip_idempotent_fuel (length l)). lia. Qed.

(** A sequence that [strip] leaves alone starts with no white space. *)
Lemma strip_fixed_head (l : list ascii) :
  strip' l = l ->
  match l with
  | [] => True
  | a :: l1 =>
      w1 a = false
      /\ match l1 with
         | [] => True
         | b :: l2 =>
             w2 a b = false
             /\ match l2 with
                | [] => True
                | c :: _ => w3 a b c = false
                end
         end
  end.
Proof.
  intros Fix.
  assert (Short : forall front l', l = front ++ l' -> front <> [] ->
                                   strip' l = strip' l' -> False).
  { intros front l' E NE S. destruct (strip_suffix l') as [pre P].
    rewrite Fix in S. apply (f_equal (@length ascii)) in E, P.
    rewrite S, length_app in E. rewrite length_app in P.
    destruct front; [contradiction|]. cbn in E. lia. }
  destruct l as [|a l1]; [exact Logic.I|].
  cbn [strip] in Short.
  destruct (w1 a) eqn:A.
  { exfalso. apply (Short [a] l1); [reflexivity | discriminate | reflexivity]. }
  split; [reflexivity|].
  destruct l1 as [|b l2]; [exact Logic.I|].
  destruct (w2 a b) eqn:B.
  { exfalso. apply (Short [a; b] l2); [reflexivity | discriminate | reflexivity]. }
  split; [reflexivity|].
  destruct l2 as [|c l3]; [exact Logic.I|].
  destruct (w3 a b c) eqn:C; [|reflexivity].
  exfalso. apply (Short [a; b; c] l3); [reflexivity | discriminate | reflexivity].
Qed.

(** Cutting the end of such a sequence leaves such a sequence. *)
Lemma strip_fixed_prefix (p q : list ascii) :
  strip' (p ++ q) = p ++ q -> strip' p = p.
Proof.
  intros Fix. apply strip_fixed_head in Fix.
  destruct p as [|a [|b [|c p3]]]; cbn [app] in Fix; cbn [strip].
  - reflexivity.
  - destruct Fix as [A _]. rewrite A. reflexivity.
  - destruct Fix as [A [B _]]. rewrite A, B. reflexivity.
  - destruct Fix as [A [B C]]. rewrite A, B, C. reflexivity.
Qed.

End StripFacts.

Lemma trimEndBytes_prefix (l : list ascii) :
  exists post, l = trimEndBytes l ++ post.
Proof.
  unfold trimEndBytes.
  destruct (strip_suffix ws1 (fun a b => ws2 b a) (fun a b c => ws3 c b a)
              (rev l)) as [pre P].
  exists (rev pre). rewrite <- rev_app_distr, <- P, rev_involutive.
  reflexivity.
Qed.

Lemma trimEndBytes_idempotent (l : list ascii) :
  trimEndBytes (trimEndBytes l) = trimEndBytes l.
Proof.
  unfold trimEndBytes. rewrite rev_involutive, strip_idempotent. reflexivity.
Qed.

(** Trimming what was trimmed changes nothing. *)
Lemma trim_idempotent (s : string) : trim (trim s) = trim s.
Proof.
  unfold trim. rewrite list_ascii_of_string_of_list_ascii.
  set (m := trimStartBytes (list_ascii_of_string s)).
  assert (M : trimStartBytes m = m) by apply strip_idempotent.
  assert (F : trimStartBytes (trimEndBytes m) = trimEndBytes m).
  { destruct (trimEndBytes_prefix m) as [post P].
    apply (strip_fixed_prefix ws1 ws2 ws3 (trimEndBytes m) post).
    rewrite <- P. exact M. }
  rewrite F, trimEndBytes_idempotent. reflexivity.
Qed.

(** With a session active, the instructions of the command that
    [handleSessionUpdateSubmit] sends are never empty and carry no white
    space at either end (trimming them changes nothing), whatever text the
    form holds. *)
Theorem submitted_instructions_are_trimmed_and_not_blank :
  forall (now : string) (w : World),
    exists x,
      sent (handleSessionUpdateSubmit true now w)
      = sent w ++ [userSessionUpdate x (voice (state w))]
      /\ x <> EmptyString
      /\ trim x = x.
Proof.
  intros now w.
  exists (or_else (trim (instructions (state w))) DEFAULT_INSTRUCTIONS).
  split.
  - unfold handleSessionUpdateSubmit. cbn [negb].
    autorewrite with sent. reflexivity.
  - unfold or_else. destruct (trim (instructions (state w))) eqn:T; cbn [truthy].
    + split; [discriminate | reflexivity].
    + split; [discriminate|]. rewrite <- T. apply trim_idempotent.
Qed.

(** Submitting again is not deduplicated: two submissions in an active
    session send the same command twice and keep the time of the second.
    The handler writes nothing back into the form: the text and the
    voice held by the state are as before, even when the text was trimmed or
    replaced by the default for sending. *)
Theorem resubmission_sends_again :
  forall (t1 t2 : string) (w : World),
    let w2 := handleSessionUpdateSubmit true t2
                (handleSessionUpdateSubmit true t1 w) in
    exists cmd,
      sent w2 = sent w ++ [cmd; cmd]
      /\ lastSessionUpdate (state w2) = Some t2
      /\ instructions (state w2) = instructions (state w)
      /\ voice (state w2) = voice (state w)
      /\ functionAdded (state w2) = functionAdded (state w)
      /\ functionCallOutput (state w2) = functionCallOutput (state w)
      /\ timers w2 = timers w.
Proof.
  intros t1 t2 w w2. subst w2.
  eexists. unfold handleSessionUpdateSubmit. cbn [negb].
  autorewrite with sent. rewrite <- app_assoc. cbn.
  repeat split.
Qed.

(* ================================================================== *)
(** ** One pass, in general *)
(* ================================================================== *)

Lemma state_sessionEffect (a : bool) (w : World) :
  state (sessionEffect a w) = if a then state w else initialState.
Proof. destruct a; reflexivity. Qed.

Lemma sent_sessionEffect (a : bool) (w : World) :
  sent (sessionEffect a w) = sent w.
Proof.
  destruct a; [reflexivity|]. unfold sessionEffect. cbn [negb].
  autorewrite with sent. reflexivity.
Qed.

Lemma armings_sessionEffect (a : bool) (w : World) :
  armings (calls (sessionEffect a w)) = armings (calls w).
Proof.
  destruct a; [reflexivity|]. cbn. rewrite !armings_app. cbn. lia.
Qed.

Lemma armings_runDestroy (d : option Cleanup) (w : World) :
  armings (calls (runDestroy d w)) = armings (calls w).
Proof.
  destruct d as [[[h|]]|]; try reflexivity.
  cbn. destruct (Nat.eqb h 0); [reflexivity|].
  cbn. rewrite armings_app. cbn. lia.
Qed.

(** What one pass does to a mounted instance. *)
Lemma pass_facts (p : Props) (i : Instance) :
  alive i = true ->
  (forall e, ToolPanel_view p (state (world i)) = Throw e ->
     status (pass p i) = Gone (Some e)
     /\ sent (world (pass p i)) = sent (world i)
     /\ state (world (pass p i)) = state (world i)
     /\ nextHandle (world (pass p i)) = nextHandle (world i)
     /\ armings (calls (world (pass p i))) = armings (calls (world i)))
  /\ (forall v, ToolPanel_view p (state (world i)) = Normal v ->
     sent (world (pass p i)) = sent (world i) ++ registeredBy p i
     /\ nextHandle (world (pass p i)) = nextHandle (world i) + armedBy p i
     /\ armings (calls (world (pass p i)))
        = armings (calls (world i)) + armedBy p i
     /\ (runsFirst p i && throws (events p) = true ->
         status (pass p i) = Gone (Some TypeError)
         /\ state (world (pass p i)) = effectState (events p) (state (world i)))
     /\ (runsFirst p i && throws (events p) = false ->
         (exists d, status (pass p i)
                    = Live p (functionAdded (state (world i))) d)
         /\ state (world (pass p i)) = afterEffects p i)).
Proof.
  intros Al. unfold pass, registeredBy, armedBy, afterEffects, runsFirst,
    runsSecond.
  destruct (status i) as [|p0 fa0 d0|err] eqn:St.
  - split; intros x V; rewrite V; [repeat split|].
    unfold commitEffects. cbn [runDestroy andb].
    destruct (eventsEffect_facts (events p) (world i))
      as (_ & N & C & Se & A & _ & Sta).
    destruct (eventsEffect (events p) (world i)) as [w1 r].
    cbn [fst snd] in N, C, Se, A, Sta. subst r.
    destruct (throws (events p)); cbn [world status].
    + repeat split; try assumption; discriminate.
    + rewrite sent_sessionEffect, armings_sessionEffect, state_sessionEffect.
      destruct (sessionEffect_timers (isSessionActive p) w1) as [_ N'].
      rewrite N'. repeat split; try assumption; try discriminate.
      * eexists. reflexivity.
      * destruct (isSessionActive p); [exact Sta | reflexivity].
  - assert (D : depsChanged p i
                = negb (sameEvents (events p) (events p0)
                        && Bool.eqb (functionAdded (state (world i))) fa0
                        && Nat.eqb (sendClientEventRef p) (sendClientEventRef p0)))
      by (unfold depsChanged; rewrite St; reflexivity).
    split; intros x V; rewrite V.
    + cbn [world status]. rewrite sent_runDestroy, state_runDestroy,
        runDestroy_next, armings_runDestroy. repeat split.
    + unfold commitEffects. rewrite <- D.
      set (r2 := negb (Bool.eqb (isSessionActive p) (isSessionActive p0))).
      destruct (depsChanged p i); cbn [andb].
      * destruct (eventsEffect_facts (events p) (runDestroy d0 (world i)))
          as (_ & N & C & Se & A & _ & Sta).
        rewrite state_runDestroy in Se, Sta. rewrite sent_runDestroy in Se.
        rewrite runDestroy_next in N, C. rewrite armings_runDestroy in A.
        destruct (eventsEffect (events p) (runDestroy d0 (world i))) as [w1 r].
        cbn [fst snd] in N, C, Se, A, Sta. subst r.
        destruct (throws (events p)); cbn [world status].
        -- repeat split; try assumption; discriminate.
        -- assert (E : sent (if r2 then sessionEffect (isSessionActive p) w1 else w1)
                       = sent w1
                       /\ armings (calls (if r2 then sessionEffect (isSessionActive p) w1
                                          else w1)) = armings (calls w1)
                       /\ state (if r2 then sessionEffect (isSessionActive p) w1 else w1)
                          = if r2 && negb (isSessionActive p) then initialState
                            else state w1).
           { destruct r2; cbn [andb].
             - rewrite sent_sessionEffect, armings_sessionEffect,
                 state_sessionEffect.
               destruct (isSessionActive p); repeat split.
             - repeat split. }
           destruct E as (E1 & E2 & E3).
           destruct (if_sessionEffect_timers r2 (isSessionActive p) w1) as [_ N'].
           rewrite E1, E2, E3, N', Sta.
           repeat split; try assumption; try discriminate.
           eexists. reflexivity.
      * cbn [world status].
        assert (E : sent (if r2 then sessionEffect (isSessionActive p) (world i)
                          else world i) = sent (world i)
                    /\ armings (calls (if r2 then sessionEffect (isSessionActive p) (world i)
                                       else world i)) = armings (calls (world i))
                    /\ state (if r2 then sessionEffect (isSessionActive p) (world i)
                              else world i)
                       = if r2 && negb (isSessionActive p) then initialState
                         else state (world i)).
        { destruct r2; cbn [andb].
          - rewrite sent_sessionEffect, armings_sessionEffect,
              state_sessionEffect.
            destruct (isSessionActive p); repeat split.
          - repeat split. }
        destruct E as (E1 & E2 & E3).
        destruct (if_sessionEffect_timers r2 (isSessionActive p) (world i))
          as [_ N'].
        rewrite E1, E2, E3, N', app_nil_r, !Nat.add_0_r.
        repeat split; try discriminate.
        eexists. reflexivity.
  - unfold alive in Al. rewrite St in Al. discriminate.
Qed.

(** The state after a pass is the state before, or that after one run of
    the events effect, or the initial state. *)
Lemma pass_state_cases (p : Props) (i : Instance) :
  state (world (pass p i)) = state (world i)
  \/ state (world (pass p i)) = effectState (events p) (state (world i))
  \/ state (world (pass p i)) = initialState.
Proof.
  destruct (alive_cases i) as [Al|Al];
    [|rewrite (pass_gone p i Al); left; reflexivity].
  destruct (pass_facts p i Al) as [T N].
  destruct (ToolPanel_view p (state (world i))) as [v|e] eqn:V.
  - destruct (N v eq_refl) as (_ & _ & _ & Th & Ok).
    destruct (runsFirst p i && throws (events p)) eqn:B.
    + right; left. apply Th. reflexivity.
    + destruct (Ok eq_refl) as [_ St]. rewrite St. unfold afterEffects.
      destruct (runsSecond p i && negb (isSessionActive p)); [auto|].
      destruct (runsFirst p i); auto.
  - left. apply (T e eq_refl).
Qed.

Lemma settle_preserves (p : Props) (P : Instance -> Prop) :
  (forall j, P j -> P (pass p j)) ->
  forall fuel i, P i -> P (settle fuel p i).
Proof.
  intros H. induction fuel as [|fuel IH]; intros i Pi; [exact Pi|].
  destruct (settle_cases fuel p i) as [E|E]; rewrite E.
  - apply H, Pi.
  - apply IH, H, Pi.
Qed.

Lemma settle_one (p : Props) (i : Instance) : settle 1 p i = pass p i.
Proof. destruct (settle_cases 0 p i) as [E|E]; exact E. Qed.

(** A render ends with a pass that died or left the state as rendered. *)
Lemma rerender_last (p : Props) (P : Instance -> Prop) (i : Instance) :
  (forall j, P j -> P (pass p j)) ->
  P i ->
  exists j,
    P j /\ rerender p i = pass p j
    /\ (alive (pass p j) = false
        \/ state (world (pass p j)) = state (world j)).
Proof.
  intros H Pi. unfold rerender.
  destruct (alive_cases (pass p i)) as [A1|A1];
    [|exists i; rewrite settle_stop by (left; exact A1); auto].
  destruct (state_decide (state (world (pass p i))) (state (world i)))
    as [E1|N1];
    [exists i; rewrite settle_stop by (right; exact E1); auto|].
  rewrite (settle_go _ p i A1 N1).
  set (i1 := pass p i) in *. assert (P1 : P i1) by apply H, Pi.
  destruct (alive_cases (pass p i1)) as [A2|A2];
    [|exists i1; rewrite settle_stop by (left; exact A2); auto].
  destruct (state_decide (state (world (pass p i1))) (state (world i1)))
    as [E2|N2];
    [exists i1; rewrite settle_stop by (right; exact E2); auto|].
  rewrite (settle_go _ p i1 A2 N2), settle_one.
  exists (pass p i1). split; [apply H, P1|]. split; [reflexivity|].
  apply (third_pass_stable p i1 A1 (pass_status p i A1) N2).
Qed.

(* ================================================================== *)
(** ** Properties kept by the steps of a run *)
(* ================================================================== *)

Section Reach.

Variable P : Instance -> Prop.
Variable okProps : Props -> Prop.
Variable okVoice : string -> Prop.
Variable okUnmount : Prop.

Hypothesis P_rerender :
  forall p i, okProps p \/ committedProps i = Some p -> P i -> P (rerender p i).
Hypothesis P_submit :
  forall i p now,
    committedProps i = Some p -> P i ->
    P (onWorld (handleSessionUpdateSubmit (isSessionActive p) now) i).
Hypothesis P_instructions :
  forall i s, P i -> P (onWorld (setInstructions s) i).
Hypothesis P_voice : forall i v, okVoice v -> P i -> P (onWorld (setVoice v) i).
Hypothesis P_fire : forall i h, P i -> P (onWorld (fire h) i).
Hypothesis P_unmount : forall i, okUnmount -> P i -> P (step Unmount i).

Lemma P_step (s : Step) (i : Instance) :
  allowedStep okProps okVoice okUnmount s -> P i -> P (step s i).
Proof.
  intros Ok H. destruct s; cbn [allowedStep] in Ok.
  - apply P_rerender; auto.
  - unfold step. destruct (status i) as [|p fa d|] eqn:St; try exact H.
    assert (C : committedProps i = Some p)
      by (unfold committedProps; rewrite St; reflexivity).
    apply P_rerender; [right; exact C|]. apply P_submit; assumption.
  - unfold step. destruct (status i) as [|p fa d|] eqn:St; try exact H.
    assert (C : committedProps i = Some p)
      by (unfold committedProps; rewrite St; reflexivity).
    apply P_rerender; [right; exact C|]. apply P_instructions; assumption.
  - unfold step. destruct (status i) as [|p fa d|] eqn:St; try exact H.
    assert (C : committedProps i = Some p)
      by (unfold committedProps; rewrite St; reflexivity).
    apply P_rerender; [right; exact C|]. apply P_voice; assumption.
  - apply P_fire, H.
  - apply P_unmount; assumption.
Qed.

Lemma P_run (steps : list Step) :
  forall i, Forall (allowedStep okProps okVoice okUnmount) steps ->
            P i -> P (run steps i).
Proof.
  induction steps as [|s steps IH]; intros i Ok H; [exact H|].
  inversion Ok; subst. apply IH; [assumption|]. apply P_step; assumption.
Qed.

End Reach.

Lemma state_fire (h : nat) (w : World) : state (fire h w) = state w.
Proof.
  unfold fire. destruct (find _ _) as [t|]; [|reflexivity].
  destruct (callback t); reflexivity.
Qed.

Lemma pass_committed (p : Props) (i : Instance) (q : Props) :
  committedProps (pass p i) = Some q -> q = p \/ alive i = false.
Proof.
  intros C. destruct (alive_cases i) as [Al|Al]; [left | right; exact Al].
  destruct (alive_cases (pass p i)) as [Al'|Al'].
  - destruct (pass_status p i Al') as (fa & d & St).
    unfold committedProps in C. rewrite St in C. injection C as <-.
    reflexivity.
  - unfold alive, committedProps in *.
    destruct (status (pass p i)); discriminate.
Qed.

Lemma committed_alive (i : Instance) (p : Props) :
  committedProps i = Some p -> alive i = true.
Proof.
  unfold committedProps, alive. destruct (status i); try discriminate.
  reflexivity.
Qed.

Section StateInvariant.

Variable Q : State -> Prop.
Variable okProps : Props -> Prop.
Variable okVoice : string -> Prop.

Hypothesis Q_initial : Q initialState.
Hypothesis Q_effect :
  forall p s, okProps p -> Q s -> Q (effectState (events p) s).
Hypothesis Q_instructions :
  forall w x, Q (state w) -> Q (state (setInstructions x w)).
Hypothesis Q_voice :
  forall w v, okVoice v -> Q (state w) -> Q (state (setVoice v w)).
Hypothesis Q_time :
  forall w t, Q (state w) -> Q (state (setLastSessionUpdate t w)).

Let holds (i : Instance) : Prop :=
  Q (state (world i))
  /\ forall q, committedProps i = Some q -> okProps q.

Lemma Q_pass (p : Props) (j : Instance) :
  okProps p -> holds j -> holds (pass p j).
Proof.
  intros Ok [H C]. split.
  - destruct (pass_state_cases p j) as [E | [E | E]]; rewrite E; auto.
  - intros q Cq. destruct (pass_committed p j q Cq) as [-> | G]; [exact Ok|].
    rewrite (pass_gone p j G) in Cq. apply C, Cq.
Qed.

Lemma Q_run (steps : list Step) :
  Forall (allowedStep okProps okVoice True) steps ->
  Q (state (world (run steps initial))).
Proof.
  intros Ok.
  assert (H : holds (run steps initial)); [|exact (proj1 H)].
  apply (P_run holds okProps okVoice True); try exact Ok.
  - intros p i Okp Hi.
    assert (Okp' : okProps p).
    { destruct Okp as [O | C]; [exact O | apply (proj2 Hi), C]. }
    unfold rerender. apply settle_preserves; [|exact Hi].
    intros j. apply Q_pass, Okp'.
  - intros i p now C [H K]. split; [|exact K].
    cbn [onWorld world]. unfold handleSessionUpdateSubmit.
    destruct (negb (isSessionActive p)); [exact H|].
    apply Q_time. exact H.
  - intros i x [H K]. split; [|exact K]. apply Q_instructions, H.
  - intros i v Okv [H K]. split; [|exact K]. apply Q_voice; assumption.
  - intros i h [H K]. split; [|exact K].
    cbn [onWorld world]. rewrite state_fire. exact H.
  - intros i _ [H K]. unfold step.
    destruct (status i) as [|p fa d|err] eqn:St.
    + split; [exact H | discriminate].
    + split; [cbn [world]; rewrite state_runDestroy; exact H | discriminate].
    + split; assumption.
  - split; [exact Q_initial | discriminate].
Qed.

End StateInvariant.

Lemma last_In {A : Type} (x : A) (l : list A) : In (last (x :: l) x) (x :: l).
Proof.
  revert x. induction l as [|y l IH]; intros x; [left; reflexivity|].
  right. change (In (last (y :: l) x) (y :: l)).
  rewrite (last_default l y x y). apply IH.
Qed.

Lemma newest_In (ms : list Output) (old o : option Output) :
  newest ms old = o ->
  o = old \/ exists m, o = Some m /\ In m ms.
Proof.
  unfold newest. destruct ms as [|m ms]; intros <-; [left; reflexivity|].
  right. eexists. split; [reflexivity | apply last_In].
Qed.

Lemma iterated_palette (ev : EventsProp) (o : Output) :
  In o (iterated ev) -> isPaletteCall o = true.
Proof.
  unfold iterated. destruct ev as [| |ref [|m rest]]; try contradiction.
  destruct (String.eqb _ _); [|contradiction].
  destruct (event_response m) as [[[output|]]|]; try contradiction.
  unfold paletteCalls. intros H. apply filter_In in H. apply H.
Qed.

(** Whatever happens to the component (renders with any props, form
    edits, submissions, timers firing, unmounting), the invocation held in
    [functionCallOutput], if any, is an entry of type [function_call] named
    [display_color_palette]: nothing else is ever stored or shown. *)
Theorem stored_invocation_is_a_palette_call :
  forall (steps : list Step) (o : Output),
    functionCallOutput (state (world (run steps initial))) = Some o ->
    output_type o = "function_call"%string
    /\ output_name o = Some "display_color_palette"%string.
Proof.
  intros steps o H.
  assert (Q : storedIsPaletteCall (state (world (run steps initial)))).
  { apply (Q_run storedIsPaletteCall (fun _ => True) (fun _ => True));
      try (intros; assumption).
    - intros o' K. discriminate.
    - intros p s _ Qs o' K.
      destruct (newest_In _ _ _ K) as [E | [m [E I]]].
      + apply Qs. symmetry. exact E.
      + injection E as ->. apply (iterated_palette _ _ I).
    - apply Forall_forall. intros s _. destruct s; exact Logic.I. }
  specialize (Q o H). unfold isPaletteCall in Q.
  apply andb_true_iff in Q. destruct Q as [T N].
  apply String.eqb_eq in T. split; [exact T|].
  destruct (output_name o) as [n|]; [|discriminate].
  apply String.eqb_eq in N. rewrite N. reflexivity.
Qed.

Lemma stored_invocation_is_a_palette_call_witness :
  let o := paletteCall oceanArguments in
  let other := {| output_type := "message"; output_name := None;
                  output_arguments := None |} in
  let i := run [Render (update 1 [responseDone [other; o; other]])] initial in
  functionCallOutput (state (world i)) = Some o
  /\ output_type o = "function_call"%string.
Proof.
  intros o other i.
  assert (H : functionCallOutput (state (world i)) = Some o) by reflexivity.
  split; [exact H|].
  exact (proj1 (stored_invocation_is_a_palette_call _ o H)).
Defined.

(** As long as the voice is only ever changed to a value the [<select>]
    offers, the voice held by the state is one of the four values of
    [VOICE_OPTIONS], through session teardown included (which puts the
    first one back). *)
Theorem voice_is_always_an_option :
  forall (steps : list Step),
    Forall (allowedStep (fun _ => True) (fun v => In v voices) True) steps ->
    In (voice (state (world (run steps initial)))) voices.
Proof.
  intros steps Ok.
  apply (Q_run (fun s => In (voice s) voices) (fun _ => True)
           (fun v => In v voices)); try (intros; assumption).
  left. reflexivity.
Qed.

Lemma voice_is_always_an_option_witness :
  let steps := [Render (update 1 [plainEvent "session.created"]);
                ChangeVoice "sol"; Submit "10:00:00";
                Render {| isSessionActive := false; sendClientEventRef := 0;
                          events := EvArray 1 [plainEvent "session.created"] |}] in
  Forall (allowedStep (fun _ => True) (fun v => In v voices) True) steps
  /\ voice (state (world (run steps initial))) = "marin"%string
  /\ In "marin"%string voices.
Proof.
  intros steps.
  assert (Ok : Forall (allowedStep (fun _ => True) (fun v => In v voices) True)
                 steps).
  { repeat (apply Forall_cons; [cbn; auto 10|]). apply Forall_nil. }
  split; [exact Ok|].
  assert (E : voice (state (world (run steps initial))) = "marin"%string)
    by reflexivity.
  split; [exact E|]. rewrite <- E.
  apply (voice_is_always_an_option steps Ok).
Defined.

(* ================================================================== *)
(** ** The instance at rest *)
(* ================================================================== *)

Lemma view_ok (p : Props) (s : State) :
  viewOk p s = true <-> exists v, ToolPanel_view p s = Normal v.
Proof.
  unfold viewOk, ToolPanel_view, renders.
  destruct (isSessionActive p); cbn [negb orb].
  - destruct (functionCallOutput s) as [o|].
    + destruct (renderFunctionCallOutput o); split; intros H;
        try (eexists; reflexivity); try reflexivity; try discriminate.
      destruct H as [v H]. discriminate.
    + split; intros _; [eexists|]; reflexivity.
  - split; intros _; [eexists|]; reflexivity.
Qed.

Lemma view_throw_not_ok (p : Props) (s : State) (e : JSError) :
  ToolPanel_view p s = Throw e -> viewOk p s = false.
Proof.
  intros T. destruct (viewOk p s) eqn:V; [|reflexivity].
  apply view_ok in V. destruct V as [v V]. rewrite V in T. discriminate.
Qed.

(** The render depends on the state through [functionCallOutput] only, as
    far as throwing goes. *)
Lemma viewOk_same (p : Props) (s s' : State) :
  functionCallOutput s' = functionCallOutput s -> viewOk p s' = viewOk p s.
Proof. unfold viewOk. intros ->. reflexivity. Qed.

Lemma pass_alive_inv (p : Props) (i : Instance) :
  alive (pass p i) = true -> alive i = true.
Proof.
  intros A. destruct (alive_cases i) as [Al|Al]; [exact Al|].
  rewrite (pass_gone p i Al) in A. rewrite A in Al. discriminate.
Qed.

(** A pass that leaves the state as it rendered it leaves the instance at
    rest. *)
Lemma pass_quiet (p : Props) (j : Instance) :
  alive (pass p j) = false
  \/ state (world (pass p j)) = state (world j) ->
  quiet (pass p j).
Proof.
  intros Stop q fa d St.
  assert (Al' : alive (pass p j) = true)
    by (unfold alive; rewrite St; reflexivity).
  destruct Stop as [D | Same]; [rewrite D in Al'; discriminate|].
  pose proof (pass_alive_inv p j Al') as Al.
  destruct (pass_facts p j Al) as [T N].
  destruct (ToolPanel_view p (state (world j))) as [v|e] eqn:V.
  - destruct (N v eq_refl) as (_ & _ & _ & Th & Ok).
    destruct (runsFirst p j && throws (events p)) eqn:B.
    + destruct (Th eq_refl) as [G _]. rewrite G in St. discriminate.
    + destruct (Ok eq_refl) as [[d' L] _]. rewrite L in St.
      injection St as <- <- <-. rewrite Same. split; [reflexivity|].
      apply view_ok. exists v. exact V.
  - destruct (T e eq_refl) as [G _]. rewrite G in St. discriminate.
Qed.

Lemma quiet_onWorld (f : World -> World) (i : Instance) :
  (forall w, functionAdded (state (f w)) = functionAdded (state w)
             /\ functionCallOutput (state (f w)) = functionCallOutput (state w)) ->
  quiet i -> quiet (onWorld f i).
Proof.
  intros Fr Q p fa d St. destruct (Q p fa d St) as [E V].
  destruct (Fr (world i)) as [A C]. cbn [onWorld world].
  rewrite A, (viewOk_same p _ _ C). split; assumption.
Qed.

Lemma submit_keeps (a : bool) (now : string) (w : World) :
  functionAdded (state (handleSessionUpdateSubmit a now w))
  = functionAdded (state w)
  /\ functionCallOutput (state (handleSessionUpdateSubmit a now w))
     = functionCallOutput (state w).
Proof. destruct a; split; reflexivity. Qed.

Lemma quiet_run (steps : list Step) : quiet (run steps initial).
Proof.
  apply (P_run quiet (fun _ => True) (fun _ => True) True).
  - intros p i _ _.
    destruct (rerender_last p (fun _ => True) i) as (j & _ & E & Stop); auto.
    rewrite E. apply pass_quiet, Stop.
  - intros i p now _ Q. apply quiet_onWorld; [|exact Q].
    intros w. apply submit_keeps.
  - intros i s Q. apply quiet_onWorld; [|exact Q]. intros w; split; reflexivity.
  - intros i v _ Q. apply quiet_onWorld; [|exact Q]. intros w; split; reflexivity.
  - intros i h Q. apply quiet_onWorld; [|exact Q].
    intros w. rewrite state_fire. split; reflexivity.
  - intros i _ Q p fa d St. unfold step in St.
    destruct (status i) eqn:E; cbn [status] in St; try discriminate.
    rewrite E in St. discriminate.
  - apply Forall_forall. intros s _. destruct s; exact Logic.I.
  - intros p fa d St. discriminate.
Qed.

(** At rest, a render with the committed props and a state that differs in
    the form only runs no effect. *)
Lemma rerender_at_rest (f : World -> World) (i : Instance) (p : Props)
    (fa : bool) (d : option Cleanup) :
  (forall w, functionAdded (state (f w)) = functionAdded (state w)
             /\ functionCallOutput (state (f w)) = functionCallOutput (state w)) ->
  quiet i -> status i = Live p fa d ->
  rerender p (onWorld f i) = onWorld f i.
Proof.
  intros Fr Q St.
  destruct (quiet_onWorld f i Fr Q p fa d St) as [E V].
  assert (Pass : pass p (onWorld f i) = onWorld f i).
  { unfold pass. cbn [onWorld world status]. rewrite St.
    apply view_ok in V. cbn [onWorld world] in V. destruct V as [v V].
    rewrite V. cbn [onWorld world] in E.
    rewrite sameEvents_refl, Nat.eqb_refl, Bool.eqb_reflx, <- E,
      Bool.eqb_reflx.
    cbn [andb negb]. unfold commitEffects. unfold onWorld.
    rewrite St, <- E. reflexivity. }
  unfold rerender. rewrite settle_stop; [exact Pass|].
  right. rewrite Pass. reflexivity.
Qed.

Lemma onWorld_id (i : Instance) : onWorld (fun w => w) i = i.
Proof. destruct i; reflexivity. Qed.

(** In every state the component can reach while mounted, its render with
    the props of the last commit completes (what is on screen never
    throws), and rendering it again with those props changes nothing: no
    effect runs, nothing is sent, armed or cancelled. *)
Theorem render_with_same_props_is_a_no_op :
  forall (steps : list Step) (p : Props),
    let i := run steps initial in
    committedProps i = Some p ->
    (exists v, ToolPanel_view p (state (world i)) = Normal v)
    /\ step (Render p) i = i.
Proof.
  intros steps p i C. pose proof (quiet_run steps) as Q. fold i in Q.
  unfold committedProps in C.
  destruct (status i) as [|q fa d|err] eqn:St; try discriminate.
  injection C as ->. split.
  - apply view_ok. apply (Q p fa d St).
  - cbn [step]. rewrite <- (onWorld_id i) at 1.
    rewrite (rerender_at_rest (fun w => w) i p fa d); auto using onWorld_id.
Qed.

Lemma render_with_same_props_is_a_no_op_witness :
  let p := update 1 [responseDone [paletteCall oceanArguments];
                     plainEvent "session.created"] in
  let i := run [Render p] initial in
  committedProps i = Some p /\ step (Render p) i = i.
Proof.
  intros p i.
  assert (C : committedProps i = Some p) by reflexivity.
  split; [exact C|].
  exact (proj2 (render_with_same_props_is_a_no_op [Render p] p C)).
Defined.

(* ================================================================== *)
(** ** The form *)
(* ================================================================== *)

(** What the view shows of the state and the props. *)
Lemma view_fields (p : Props) (s : State) (v : View) :
  ToolPanel_view p s = Normal v ->
  textareaValue v = instructions s
  /\ selectValue v = voice s
  /\ controlsDisabled v = negb (isSessionActive p)
  /\ startHint v = negb (isSessionActive p)
  /\ statusLine v
     = match lastSessionUpdate s with
       | Some t => if truthy t then ("Updated at " ++ t)%string
                   else "No customizations sent yet"%string
       | None => "No customizations sent yet"%string
       end
  /\ (isSessionActive p = false -> pane v = PaneStartSession)
  /\ (isSessionActive p = true -> functionCallOutput s = None ->
      pane v = PaneAskForAdvice).
Proof.
  unfold ToolPanel_view. intros H.
  destruct (isSessionActive p).
  - destruct (functionCallOutput s) as [o|].
    + destruct (renderFunctionCallOutput o); [|discriminate].
      injection H as <-. cbn. repeat split; intros; discriminate.
    + injection H as <-. cbn. repeat split; intros; discriminate.
  - injection H as <-. cbn. repeat split; intros; discriminate.
Qed.

Lemma step_edit_at_rest (f : World -> World) (i : Instance) (p : Props)
    (fa : bool) (d : option Cleanup) :
  (forall w, functionAdded (state (f w)) = functionAdded (state w)
             /\ functionCallOutput (state (f w)) = functionCallOutput (state w)) ->
  quiet i -> status i = Live p fa d ->
  rerender p (onWorld f i) = onWorld f i
  /\ quiet (onWorld f i)
  /\ status (onWorld f i) = Live p fa d
  /\ exists v, ToolPanel_view p (state (f (world i))) = Normal v.
Proof.
  intros Fr Q St. split; [apply (rerender_at_rest f i p fa d); assumption|].
  pose proof (quiet_onWorld f i Fr Q) as Q'. split; [exact Q'|].
  split; [exact St|]. apply view_ok. apply (Q' p fa d St).
Qed.

(** Editing the form runs no effect: after the text was changed to [x] and
    the voice to [v], in any reachable mounted state, the commands sent and
    the timers are as before, the state holds [x] and [v] as typed (not
    trimmed), and the view shows them. Nothing is sent until the form is
    submitted. *)
Theorem form_edits_send_nothing :
  forall (steps : list Step) (p : Props) (x v : string),
    let i := run steps initial in
    committedProps i = Some p ->
    let i' := step (ChangeVoice v) (step (ChangeInstructions x) i) in
    sent (world i') = sent (world i)
    /\ timers (world i') = timers (world i)
    /\ status i' = status i
    /\ instructions (state (world i')) = x
    /\ voice (state (world i')) = v
    /\ exists vw, ToolPanel_view p (state (world i')) = Normal vw
                  /\ textareaValue vw = x /\ selectValue vw = v.
Proof.
  intros steps p x v i C i'. pose proof (quiet_run steps) as Q. fold i in Q.
  unfold committedProps in C.
  destruct (status i) as [|q fa d|err] eqn:St; try discriminate.
  injection C as ->.
  assert (Fr1 : forall w,
             functionAdded (state (setInstructions x w)) = functionAdded (state w)
             /\ functionCallOutput (state (setInstructions x w))
                = functionCallOutput (state w))
    by (intros w; split; reflexivity).
  assert (Fr2 : forall w,
             functionAdded (state (setVoice v w)) = functionAdded (state w)
             /\ functionCallOutput (state (setVoice v w))
                = functionCallOutput (state w))
    by (intros w; split; reflexivity).
  destruct (step_edit_at_rest (setInstructions x) i p fa d Fr1 Q St)
    as (E1 & Q1 & S1 & _).
  assert (I1 : step (ChangeInstructions x) i = onWorld (setInstructions x) i).
  { unfold step. rewrite St. exact E1. }
  destruct (step_edit_at_rest (setVoice v) (onWorld (setInstructions x) i)
              p fa d Fr2 Q1 S1) as (E2 & _ & S2 & V2).
  assert (I2 : i' = onWorld (setVoice v) (onWorld (setInstructions x) i)).
  { subst i'. rewrite I1. unfold step at 1. rewrite S1. exact E2. }
  rewrite I2. cbn [onWorld world status].
  autorewrite with sent. rewrite St. repeat split.
  destruct V2 as [vw V]. cbn [onWorld world] in V. exists vw.
  split; [exact V|]. destruct (view_fields _ _ _ V) as (T & S & _).
  split; assumption.
Qed.

Lemma form_edits_send_nothing_witness :
  let p := update 1 [plainEvent "session.created"] in
  let i := run [Render p] initial in
  let i' := step (ChangeVoice "verse") (step (ChangeInstructions "  hi ") i) in
  committedProps i = Some p
  /\ sent (world i') = sent (world i)
  /\ instructions (state (world i')) = "  hi "%string.
Proof.
  intros p i i'.
  assert (C : committedProps i = Some p) by reflexivity.
  destruct (form_edits_send_nothing [Render p] p "  hi " "verse" C)
    as (S & _ & _ & I & _).
  split; [exact C|]. split; [exact S | exact I].
Defined.

(** Submitting the form in a reachable state whose session is active sends
    exactly one command and runs no effect (the timers are untouched); the
    view then shows [Updated at] followed by the time of the submission.
    With the session inactive the same step sends nothing and the line is
    as before. *)
Theorem submit_shows_the_time :
  forall (steps : list Step) (p : Props) (now : string),
    let i := run steps initial in
    committedProps i = Some p ->
    now <> EmptyString ->
    let i' := step (Submit now) i in
    timers (world i') = timers (world i)
    /\ status i' = status i
    /\ exists vw, ToolPanel_view p (state (world i')) = Normal vw
       /\ if isSessionActive p
          then sent (world i')
               = sent (world i)
                 ++ [userSessionUpdate
                       (or_else (trim (instructions (state (world i))))
                                DEFAULT_INSTRUCTIONS)
                       (voice (state (world i)))]
               /\ statusLine vw = ("Updated at " ++ now)%string
          else sent (world i') = sent (world i)
               /\ lastSessionUpdate (state (world i'))
                  = lastSessionUpdate (state (world i)).
Proof.
  intros steps p now i C NE i'. pose proof (quiet_run steps) as Q. fold i in Q.
  unfold committedProps in C.
  destruct (status i) as [|q fa d|err] eqn:St; try discriminate.
  injection C as ->.
  destruct (step_edit_at_rest
              (handleSessionUpdateSubmit (isSessionActive p) now) i p fa d
              (submit_keeps (isSessionActive p) now) Q St)
    as (E1 & _ & S1 & V1).
  assert (I1 : i' = onWorld (handleSessionUpdateSubmit (isSessionActive p) now) i).
  { subst i'. unfold step. rewrite St. exact E1. }
  rewrite I1. cbn [onWorld world status]. rewrite St.
  split; [unfold handleSessionUpdateSubmit;
          destruct (isSessionActive p); reflexivity|].
  split; [reflexivity|].
  destruct V1 as [vw V]. exists vw. split; [exact V|].
  destruct (view_fields _ _ _ V) as (_ & _ & _ & _ & L & _).
  unfold handleSessionUpdateSubmit in *.
  destruct (isSessionActive p); cbn [negb] in *.
  - autorewrite with sent.
    split; [reflexivity|]. rewrite L. cbn.
    destruct now; [contradiction | reflexivity].
  - autorewrite with sent. split; reflexivity.
Qed.

Lemma submit_shows_the_time_witness :
  let p := update 1 [plainEvent "session.created"] in
  let i := run [Render p] initial in
  committedProps i = Some p
  /\ "09:41:07"%string <> EmptyString
  /\ sent (world (step (Submit "09:41:07") i))
     = [sessionUpdate; userSessionUpdate DEFAULT_INSTRUCTIONS "marin"].
Proof.
  intros p i.
  assert (C : committedProps i = Some p) by reflexivity.
  assert (NE : "09:41:07"%string <> EmptyString) by discriminate.
  destruct (submit_shows_the_time [Render p] p "09:41:07" C NE)
    as (_ & _ & vw & _ & L & _).
  split; [exact C|]. split; [exact NE | exact L].
Defined.

(* ================================================================== *)
(** ** The commands that are sent *)
(* ================================================================== *)

Ltac followUps_invariant :=
  intros;
  first [ apply followUpsOnly_arm; assumption
        | apply followUpsOnly_clear; assumption
        | apply followUpsOnly_fire; assumption
        | apply followUpsOnly_record; [exact Logic.I|]; try assumption;
          apply followUpsOnly_state; assumption ].

Lemma followUpsOnly_pass (p : Props) (i : Instance) :
  followUpsOnly (world i) -> followUpsOnly (world (pass p i)).
Proof. apply I_pass; followUps_invariant. Qed.

Lemma followUpsOnly_submit (a : bool) (now : string) (w : World) :
  followUpsOnly w -> followUpsOnly (handleSessionUpdateSubmit a now w).
Proof. apply I_submit; followUps_invariant. Qed.

Lemma followUpsOnly_unmount (i : Instance) :
  followUpsOnly (world i) -> followUpsOnly (world (step Unmount i)).
Proof. apply I_step; followUps_invariant. Qed.

Lemma sent_pass_cases (p : Props) (i : Instance) :
  sent (world (pass p i)) = sent (world i)
  \/ sent (world (pass p i)) = sent (world i) ++ [sessionUpdate].
Proof.
  destruct (alive_cases i) as [Al|Al];
    [|rewrite (pass_gone p i Al); left; reflexivity].
  destruct (pass_facts p i Al) as [T N].
  destruct (ToolPanel_view p (state (world i))) as [v|e].
  - destruct (N v eq_refl) as (S & _). rewrite S. unfold registeredBy.
    destruct (runsFirst p i && negb (functionAdded (state (world i)))
              && registers (events p));
      [right | left; apply app_nil_r]. reflexivity.
  - left. apply (T e eq_refl).
Qed.

Lemma sent_fire_cases (h : nat) (w : World) :
  followUpsOnly w ->
  sent (fire h w) = sent w \/ sent (fire h w) = sent w ++ [followUp].
Proof.
  intros F.
  destruct (find (fun t => Nat.eqb (handle t) h) (timers w)) as [t|] eqn:E.
  - right. apply find_some in E. destruct E as [I E].
    apply Nat.eqb_eq in E. subst h. apply (fire_followUp w t F I).
  - left. unfold fire. rewrite E. reflexivity.
Qed.

Lemma sent_instructions_ok (s : string) :
  or_else (trim s) DEFAULT_INSTRUCTIONS <> EmptyString
  /\ trim (or_else (trim s) DEFAULT_INSTRUCTIONS)
     = or_else (trim s) DEFAULT_INSTRUCTIONS.
Proof.
  unfold or_else. destruct (trim s) eqn:T; cbn [truthy].
  - split; [discriminate | reflexivity].
  - split; [discriminate|]. rewrite <- T. apply trim_idempotent.
Qed.

Section Commands.

Variable okVoice : string -> Prop.
Hypothesis okVoice_first : okVoice firstVoice.

Let tidy (i : Instance) : Prop :=
  Forall (allowedCommand okVoice) (sent (world i))
  /\ followUpsOnly (world i)
  /\ okVoice (voice (state (world i))).

Lemma tidy_pass (p : Props) (j : Instance) : tidy j -> tidy (pass p j).
Proof.
  intros (S & F & V). split; [|split].
  - destruct (sent_pass_cases p j) as [E|E]; rewrite E; [exact S|].
    apply Forall_app. split; [exact S|]. constructor; [|constructor].
    left. reflexivity.
  - apply followUpsOnly_pass, F.
  - destruct (pass_state_cases p j) as [E | [E | E]]; rewrite E;
      [exact V | exact V | exact okVoice_first].
Qed.

Lemma tidy_run (steps : list Step) :
  Forall (allowedStep (fun _ => True) okVoice True) steps ->
  Forall (allowedCommand okVoice) (sent (world (run steps initial))).
Proof.
  intros Ok.
  assert (H : tidy (run steps initial)); [|exact (proj1 H)].
  apply (P_run tidy (fun _ => True) okVoice True); try exact Ok.
  - intros p i _ H. unfold rerender. apply settle_preserves; [|exact H].
    intros j. apply tidy_pass.
  - intros i p now _ (S & F & V). split; [|split].
    + cbn [onWorld world]. unfold handleSessionUpdateSubmit.
      destruct (negb (isSessionActive p)); autorewrite with sent; [exact S|].
      apply Forall_app. split; [exact S|]. constructor; [|constructor].
      right; right. eexists _, _. split; [reflexivity|].
      destruct (sent_instructions_ok (instructions (state (world i))))
        as [NE T].
      cbn [preventDefault record state]. repeat split; assumption.
    + apply followUpsOnly_submit, F.
    + cbn [onWorld world]. unfold handleSessionUpdateSubmit.
      destruct (negb (isSessionActive p)); exact V.
  - intros i x (S & F & V). split; [|split].
    + cbn [onWorld world]. autorewrite with sent. exact S.
    + cbn [onWorld world]. apply followUpsOnly_record; [exact Logic.I|].
      apply followUpsOnly_state, F.
    + exact V.
  - intros i v Okv (S & F & V). split; [|split].
    + cbn [onWorld world]. autorewrite with sent. exact S.
    + cbn [onWorld world]. apply followUpsOnly_record; [exact Logic.I|].
      apply followUpsOnly_state, F.
    + exact Okv.
  - intros i h (S & F & V). split; [|split].
    + cbn [onWorld world].
      destruct (sent_fire_cases h (world i) F) as [E|E]; rewrite E; [exact S|].
      apply Forall_app. split; [exact S|]. constructor; [|constructor].
      right; left. reflexivity.
    + apply followUpsOnly_fire, F.
    + cbn [onWorld world]. rewrite state_fire. exact V.
  - intros i _ (S & F & V). split; [|split].
    + unfold step. destruct (status i); cbn [world];
        rewrite ?sent_runDestroy; exact S.
    + apply followUpsOnly_unmount, F.
    + unfold step. destruct (status i); cbn [world];
        rewrite ?state_runDestroy; exact V.
  - split; [constructor|]. split; [apply followUpsOnly_initial|].
    exact okVoice_first.
Qed.

End Commands.

(** The component sends three kinds of commands and no other, in every
    run: the tool registration, the follow-up, and session updates whose
    instructions are not blank and have no white space at either end.
    When the voice is only ever changed to a value the [<select>] offers,
    the voice of every session update sent is one of [VOICE_OPTIONS]. *)
Theorem only_three_kinds_of_commands :
  (forall (steps : list Step),
      Forall (allowedCommand (fun _ => True)) (sent (world (run steps initial))))
  /\ (forall (steps : list Step),
         Forall (allowedStep (fun _ => True) (fun v => In v voices) True) steps ->
         Forall (allowedCommand (fun v => In v voices))
           (sent (world (run steps initial)))).
Proof.
  split.
  - intros steps. apply tidy_run; [exact Logic.I|].
    apply Forall_forall. intros s _. destruct s; exact Logic.I.
  - intros steps Ok. apply tidy_run; [left; reflexivity | exact Ok].
Qed.

Lemma only_three_kinds_of_commands_witness :
  let steps := [Render (update 1 [plainEvent "session.created"]);
                Render (update 2 [responseDone [paletteCall oceanArguments];
                                  plainEvent "session.created"]);
                ChangeInstructions "  Be terse.  "; ChangeVoice "sol";
                Submit "10:00:00"; Tick 1] in
  Forall (allowedStep (fun _ => True) (fun v => In v voices) True) steps
  /\ sent (world (run steps initial))
     = [sessionUpdate; userSessionUpdate "Be terse." "sol"; followUp]
  /\ Forall (allowedCommand (fun v => In v voices))
       [sessionUpdate; userSessionUpdate "Be terse." "sol"; followUp].
Proof.
  intros steps.
  assert (Ok : Forall (allowedStep (fun _ => True) (fun v => In v voices) True)
                 steps).
  { repeat (apply Forall_cons; [cbn; auto 10|]). apply Forall_nil. }
  split; [exact Ok|].
  assert (E : sent (world (run steps initial))
              = [sessionUpdate; userSessionUpdate "Be terse." "sol"; followUp])
    by reflexivity.
  split; [exact E|]. rewrite <- E.
  apply (proj2 only_three_kinds_of_commands steps Ok).
Defined.

(* ================================================================== *)
(** ** Surviving the event stream *)
(* ================================================================== *)

Lemma storedRenders_viewOk (p : Props) (s : State) :
  storedRenders s -> viewOk p s = true.
Proof.
  unfold storedRenders, viewOk. intros H.
  destruct (negb (isSessionActive p)); [reflexivity|]. cbn [orb].
  destruct (functionCallOutput s) as [o|]; [apply H|]; reflexivity.
Qed.

Lemma storedRenders_effect (ev : EventsProp) (s : State) :
  wellFormedLog ev = true -> storedRenders s ->
  storedRenders (effectState ev s).
Proof.
  unfold wellFormedLog. intros W H o K. apply andb_true_iff in W.
  destruct W as [_ W]. rewrite forallb_forall in W.
  destruct (newest_In _ _ _ K) as [E | [m [E I]]].
  - apply H. symmetry. exact E.
  - injection E as ->. apply W, I.
Qed.

Lemma pass_survives (p : Props) (j : Instance) :
  wellFormedLog (events p) = true ->
  alive j = true /\ storedRenders (state (world j)) ->
  alive (pass p j) = true /\ storedRenders (state (world (pass p j))).
Proof.
  intros W [Al R].
  pose proof (storedRenders_viewOk p _ R) as V. apply view_ok in V.
  destruct V as [v V]. destruct (pass_facts p j Al) as [_ N].
  destruct (N v V) as (_ & _ & _ & _ & Ok).
  assert (B : runsFirst p j && throws (events p) = false).
  { unfold wellFormedLog in W. apply andb_true_iff in W. destruct W as [W _].
    apply negb_true_iff in W. rewrite W. apply andb_false_r. }
  destruct (Ok B) as [[d L] St]. split.
  - unfold alive. rewrite L. reflexivity.
  - rewrite St. unfold afterEffects.
    destruct (runsSecond p j && negb (isSessionActive p));
      [intros o K; discriminate|].
    destruct (runsFirst p j); [apply storedRenders_effect; assumption | exact R].
Qed.

Lemma validChild_array (x : JSON) (rest : list JSON) :
  validChild (JArray (x :: rest)) = validChild x && validChild (JArray rest).
Proof. reflexivity. Qed.

(** A value React accepts as a child has a conversion to a string. *)
Lemma validChild_ToString (v : JSON) :
  validChild v = true -> exists key, ToString v = Normal key.
Proof.
  induction v as [|b|l|s|items IH|members] using JSON_ind_arrays;
    try (intros _; eexists; reflexivity); [|discriminate].
  induction IH as [|x rest Hx _ IHr]; [intros _; eexists; reflexivity|].
  rewrite validChild_array, ToString_array. intros V.
  apply andb_true_iff in V. destruct V as [Vx Vr].
  assert (X : exists next,
            match x with JNull => Normal [] | _ => ToString x end
            = Normal next).
  { destruct (Hx Vx) as [key K].
    destruct x; try (exists key; exact K). eexists. reflexivity. }
  destruct X as [next ->]. destruct (IHr Vr) as [others ->].
  destruct rest; eexists; reflexivity.
Qed.

(** The text and the background of a box are the colour it was made of. *)
Lemma array_map_colorBox_text (items : list JSON) :
  forall boxes, array_map colorBox items = Normal boxes ->
                map box_text boxes = items.
Proof.
  induction items as [|x rest IH]; intros boxes H.
  - injection H as <-. reflexivity.
  - cbn [array_map] in H. destruct (colorBox x) as [box|e] eqn:X;
      [|discriminate].
    destruct (array_map colorBox rest) as [boxes'|e] eqn:R; [|discriminate].
    injection H as <-. apply colorBox_normal in X.
    destruct X as (key & _ & ->). cbn. rewrite (IH boxes' eq_refl).
    reflexivity.
Qed.

Lemma forallb_box_text (boxes : list ColorBox) :
  forallb (fun box => validChild (box_text box)) boxes = true
  <-> Forall (fun c => validChild c = true) (map box_text boxes).
Proof.
  rewrite forallb_forall, Forall_forall. split.
  - intros H c I. apply in_map_iff in I. destruct I as (box & <- & I).
    apply H, I.
  - intros H box I. apply H, in_map, I.
Qed.

(** What an element returned by [FunctionCallOutput] was made of. *)
Lemma FunctionCallOutput_normal (o : Output) (el : PaletteElement) :
  FunctionCallOutput o = Normal el ->
  exists v items boxes,
    JSON_parse (output_arguments o) = Normal v
    /\ get "colors" v = Some (JArray items)
    /\ array_map colorBox items = Normal boxes
    /\ el = {| themeLine := get "theme" v; colorBoxes := boxes; preOf := o |}.
Proof.
  intros F.
  destruct (JSON_parse (output_arguments o)) as [v|e] eqn:P;
    [|unfold FunctionCallOutput in F; rewrite P in F; discriminate].
  destruct (get "colors" v) as [[| | | |items|]|] eqn:C;
    try (rewrite (FunctionCallOutput_not_array o v P) in F;
         [discriminate | intros items; rewrite C; discriminate]).
  rewrite (FunctionCallOutput_colors o v items P C) in F.
  destruct (array_map colorBox items) as [boxes|e] eqn:M; [|discriminate].
  injection F as <-. exists v, items, boxes. repeat split; assumption.
Qed.

(** An invocation renders exactly when its data can be displayed. *)
Lemma renders_displayable (o : Output) : renders o = true <-> displayable o.
Proof.
  unfold renders, renderFunctionCallOutput, displayable. split.
  - destruct (FunctionCallOutput o) as [el|e] eqn:F; [|discriminate].
    destruct (mountable el) eqn:M; [|discriminate]. intros _.
    destruct (FunctionCallOutput_normal o el F)
      as (v & items & boxes & P & C & B & ->).
    unfold mountable in M. cbn [themeLine colorBoxes] in M.
    apply andb_true_iff in M. destruct M as [Mt Mb].
    apply forallb_box_text in Mb.
    rewrite (array_map_colorBox_text items boxes B) in Mb.
    exists v, items. repeat split; try assumption.
    intros theme T. rewrite T in Mt. exact Mt.
  - intros (v & items & P & C & V & T).
    destruct (FunctionCallOutput_array o v items P C) as (boxes & F & _).
    { intros c I. apply validChild_ToString.
      rewrite Forall_forall in V. apply V, I. }
    rewrite F.
    assert (M : mountable {| themeLine := get "theme" v;
                             colorBoxes := boxes; preOf := o |} = true).
    { unfold mountable. cbn [themeLine colorBoxes]. apply andb_true_iff.
      split.
      - destruct (get "theme" v) as [theme|]; [apply T|]; reflexivity.
      - apply forallb_box_text.
        rewrite (FunctionCallOutput_colors o v items P C) in F.
        destruct (array_map colorBox items) as [boxes'|e] eqn:B;
          [|discriminate].
        injection F as <-.
        rewrite (array_map_colorBox_text items boxes' B). exact V. }
    rewrite M. reflexivity.
Qed.

Lemma displayableLog_wellFormed (ev : EventsProp) :
  displayableLog ev -> wellFormedLog ev = true.
Proof.
  intros [Th D]. unfold wellFormedLog. rewrite Th. cbn [negb andb].
  apply forallb_forall. rewrite Forall_forall in D.
  intros o I. apply renders_displayable, D, I.
Qed.

(** With server data that can be displayed the component is never
    unmounted by an error. If, in every render, a [response.done] in front
    of the [events] prop has a [response], and each palette call it
    carries has arguments that parse to a value whose [colors] is an array
    and in which neither a colour nor the theme is or holds an object,
    then after any sequence of renders, form edits, submissions and timer
    firings the component is still mounted: no effect and no render has
    thrown. *)
Theorem survives_well_formed_logs :
  forall (steps : list Step),
    Forall (allowedStep (fun p => displayableLog (events p))
              (fun _ => True) False) steps ->
    alive (run steps initial) = true.
Proof.
  intros steps Ok'.
  assert (Ok : Forall (allowedStep (fun p => wellFormedLog (events p) = true)
                         (fun _ => True) False) steps).
  { apply (Forall_impl _ (P := allowedStep
                                 (fun p => displayableLog (events p))
                                 (fun _ => True) False)); [|exact Ok'].
    intros [q|now|x|v|h|]; cbn [allowedStep]; auto.
    apply displayableLog_wellFormed. }
  clear Ok'.
  set (P := fun i => (alive i = true /\ storedRenders (state (world i)))
                     /\ forall q, committedProps i = Some q ->
                                  wellFormedLog (events q) = true).
  assert (H : P (run steps initial)); [|exact (proj1 (proj1 H))].
  apply (P_run P (fun p => wellFormedLog (events p) = true)
           (fun _ => True) False); try exact Ok.
  - intros p i Okp Hi.
    assert (W : wellFormedLog (events p) = true).
    { destruct Okp as [O | C]; [exact O | apply (proj2 Hi), C]. }
    unfold rerender. apply settle_preserves; [|exact Hi].
    intros j [S C]. split; [apply pass_survives; assumption|].
    intros q Cq. destruct (pass_committed p j q Cq) as [-> | G]; [exact W|].
    rewrite (proj1 S) in G. discriminate.
  - intros i p now C [[Al R] K]. split; [split|exact K]; [exact Al|].
    intros o E. apply R. rewrite <- E. symmetry. apply submit_keeps.
  - intros i x [[Al R] K]. split; [split|exact K]; assumption.
  - intros i v _ [[Al R] K]. split; [split|exact K]; assumption.
  - intros i h [[Al R] K]. split; [split|exact K]; [exact Al|].
    cbn [onWorld world]. rewrite state_fire. exact R.
  - intros i F. contradiction.
  - split; [split; [reflexivity | intros o K; discriminate] | discriminate].
Qed.

Lemma survives_well_formed_logs_witness :
  let steps := [Render (update 1 [plainEvent "session.created"]);
                Render (update 2 [responseDone [paletteCall oceanArguments];
                                  plainEvent "session.created"]);
                Tick 1; Submit "10:00:00";
                Render {| isSessionActive := false; sendClientEventRef := 3;
                          events := EvNull |}] in
  Forall (allowedStep (fun p => displayableLog (events p))
            (fun _ => True) False) steps
  /\ alive (run steps initial) = true.
Proof.
  intros steps.
  assert (D : displayable (paletteCall oceanArguments)).
  { eexists. eexists. split; [reflexivity|]. split; [reflexivity|].
    split; [repeat constructor|].
    intros theme T. injection T as <-. reflexivity. }
  assert (Ok : Forall (allowedStep (fun p => displayableLog (events p))
                         (fun _ => True) False) steps).
  { repeat (apply Forall_cons;
            [first [exact Logic.I
                   | split; [reflexivity | repeat constructor; exact D]]|]).
    apply Forall_nil. }
  split; [exact Ok | apply (survives_well_formed_logs steps Ok)].
Defined.

(** Data that cannot be displayed. A colour that is an object with a
    member [toString] has no key: [FunctionCallOutput] throws a TypeError.
    A theme that is an object is refused by React as a child: the function
    returns an element and the render throws. In both cases the render that
    follows the completion unmounts the component. *)
Example objects_in_arguments_unmount :
  let run1 arguments :=
    run [Render (update 1 [responseDone [paletteCall arguments]])] initial in
  FunctionCallOutput (paletteCall noKeyArguments) = Throw TypeError
  /\ status (run1 noKeyArguments) = Gone (Some TypeError)
  /\ (exists el, FunctionCallOutput (paletteCall objectThemeArguments)
                 = Normal el)
  /\ renderFunctionCallOutput (paletteCall objectThemeArguments)
     = Throw InvalidChildError
  /\ status (run1 objectThemeArguments) = Gone (Some InvalidChildError).
Proof.
  cbn zeta. split; [reflexivity|]. split; [reflexivity|].
  split; [eexists; reflexivity|]. split; reflexivity.
Qed.

(** A [response.done] event without a [response] in front of the log
    unmounts the component: when the events effect runs on it, reading
    [response.output] throws a TypeError. The initialization rule has run
    before (so the registration may have been sent), no timer is armed and
    no invocation is stored. *)
Theorem response_done_without_response_unmounts :
  forall (i : Instance) (p : Props) (ref : nat) (e : Event) (rest : list Event),
    alive i = true ->
    viewOk p (state (world i)) = true ->
    runsFirst p i = true ->
    events p = EvArray ref (e :: rest) ->
    event_type e = "response.done"%string ->
    event_response e = None ->
    let i' := step (Render p) i in
    status i' = Gone (Some TypeError)
    /\ sent (world i') = sent (world i) ++ registeredBy p i
    /\ nextHandle (world i') = nextHandle (world i)
    /\ functionCallOutput (state (world i'))
       = functionCallOutput (state (world i)).
Proof.
  intros i p ref e rest Al V R Ev Ty Re i'.
  assert (Th : throws (events p) = true).
  { rewrite Ev. cbn. rewrite Ty, Re. reflexivity. }
  assert (It : iterated (events p) = []).
  { rewrite Ev. cbn. rewrite Ty, Re. reflexivity. }
  apply view_ok in V. destruct V as [v V].
  destruct (pass_facts p i Al) as [_ N].
  destruct (N v V) as (S & Nx & _ & G & _).
  rewrite R, Th in G. destruct (G eq_refl) as [G1 G2].
  assert (E : i' = pass p i).
  { subst i'. cbn [step]. unfold rerender. apply settle_stop. left.
    unfold alive. rewrite G1. reflexivity. }
  rewrite E. split; [exact G1|]. split; [exact S|].
  split.
  - rewrite Nx. unfold armedBy. rewrite R, It. cbn. lia.
  - rewrite G2. unfold effectState. cbn [functionCallOutput].
    rewrite It. reflexivity.
Qed.

Lemma response_done_without_response_unmounts_witness :
  let e := plainEvent "response.done" in
  let p := update 1 [e; plainEvent "session.created"] in
  alive initial = true
  /\ status (step (Render p) initial) = Gone (Some TypeError)
  /\ sent (world (step (Render p) initial)) = [sessionUpdate].
Proof.
  intros e p.
  destruct (response_done_without_response_unmounts initial p 1 e
              [plainEvent "session.created"]
              eq_refl eq_refl eq_refl eq_refl eq_refl eq_refl)
    as (G & S & _).
  split; [reflexivity|]. split; [exact G | exact S].
Defined.

(* ================================================================== *)
(** ** Timers fire once *)
(* ================================================================== *)

Lemma distinctHandles_same (w w' : World) :
  timers w' = timers w -> nextHandle w' = nextHandle w ->
  distinctHandles w -> distinctHandles w'.
Proof.
  unfold distinctHandles. intros T N [D W]. rewrite T.
  split; [exact D | eapply wellFormed_same; eassumption].
Qed.

Lemma NoDup_map_filter {A B : Type} (g : A -> B) (f : A -> bool) (l : list A) :
  NoDup (map g l) -> NoDup (map g (filter f l)).
Proof.
  induction l as [|x l IH]; intros D; [exact D|].
  cbn in *. inversion D as [|y ys Nin D']; subst.
  destruct (f x); cbn; [|apply IH, D'].
  constructor; [|apply IH, D'].
  intros H. apply Nin. apply in_map_iff in H. destruct H as [z [E H]].
  apply filter_In in H. apply in_map_iff. exists z. split; [exact E | apply H].
Qed.

Lemma NoDup_snoc {A : Type} (l : list A) (x : A) :
  NoDup l -> ~ In x l -> NoDup (l ++ [x]).
Proof.
  induction l as [|y l IH]; intros D Nin; cbn.
  - constructor; [intros [] | constructor].
  - inversion D as [|z zs Ny D']; subst. constructor.
    + intros H. apply in_app_or in H. destruct H as [H | [<- | []]].
      * contradiction.
      * apply Nin. left. reflexivity.
    + apply IH; [exact D'|]. intros H. apply Nin. right. exact H.
Qed.

Lemma distinctHandles_arm (cb : Callback) (ms : nat) (w : World) :
  distinctHandles w -> distinctHandles (snd (setTimeout cb ms w)).
Proof.
  intros [D W]. split; [|apply wellFormed_arm, W].
  cbn. rewrite map_app. cbn [map handle]. apply NoDup_snoc; [exact D|].
  intros H. apply in_map_iff in H. destruct H as [t [E H]].
  destruct W as [_ F]. rewrite Forall_forall in F. specialize (F t H). lia.
Qed.

Lemma distinctHandles_filter (h : nat) (w w' : World) :
  timers w' = filter (fun t => negb (Nat.eqb (handle t) h)) (timers w) ->
  nextHandle w' = nextHandle w ->
  distinctHandles w -> distinctHandles w'.
Proof.
  intros T N [D [P F]]. split.
  - rewrite T. apply NoDup_map_filter, D.
  - split; [rewrite N; exact P|]. rewrite T, N. apply Forall_filter_keep, F.
Qed.

Lemma distinctHandles_fire (h : nat) (w : World) :
  distinctHandles w -> distinctHandles (fire h w).
Proof.
  intros H. unfold fire. destruct (find _ _) as [t|]; [|exact H].
  destruct (callback t). eapply distinctHandles_filter; [| |exact H]; reflexivity.
Qed.

Lemma distinctHandles_run (steps : list Step) :
  distinctHandles (world (run steps initial)).
Proof.
  apply I_run; intros;
    try (eapply distinctHandles_same; [| |eassumption]; reflexivity).
  - apply distinctHandles_arm; assumption.
  - eapply distinctHandles_filter; [| |eassumption]; reflexivity.
  - apply distinctHandles_fire; assumption.
  - split; [constructor | apply wellFormed_initial].
Qed.

Lemma filter_one_out (ts : list Timer) (t : Timer) :
  NoDup (map handle ts) -> In t ts ->
  length (filter (fun t' => negb (Nat.eqb (handle t') (handle t))) ts) + 1
  = length ts.
Proof.
  induction ts as [|x ts IH]; intros D H; [contradiction|].
  cbn in D. inversion D as [|y ys Nin D']; subst. cbn [filter].
  destruct H as [-> | H].
  - rewrite Nat.eqb_refl. cbn [negb length].
    rewrite filter_all; [lia|].
    apply Forall_forall. intros z Hz. apply negb_true_iff, Nat.eqb_neq.
    intros E. apply Nin. rewrite <- E. apply in_map, Hz.
  - destruct (Nat.eqb (handle x) (handle t)) eqn:E.
    + exfalso. apply Nat.eqb_eq in E. apply Nin. rewrite E.
      apply in_map, H.
    + cbn [negb length]. rewrite <- (IH D' H). lia.
Qed.

(** In every reachable state the pending timers have distinct handles,
    and a timer fires once: when the timer [h] is due it sends exactly one
    follow-up and leaves the table, the other timers staying pending; when
    it is due again, or when a handle that is not pending is due, nothing
    happens. *)
Theorem timer_fires_once :
  forall (steps : list Step) (h : nat),
    let w := world (run steps initial) in
    NoDup (map handle (timers w))
    /\ (pending h w ->
        sent (fire h w) = sent w ++ [followUp]
        /\ length (timers (fire h w)) + 1 = length (timers w)
        /\ (forall t, In t (timers w) -> handle t <> h ->
                      In t (timers (fire h w))))
    /\ ~ pending h (fire h w)
    /\ fire h (fire h w) = fire h w
    /\ (~ pending h w -> fire h w = w).
Proof.
  intros steps h w.
  destruct (distinctHandles_run steps) as [D _]. fold w in D.
  pose proof (followUpsOnly_run steps initial followUpsOnly_initial) as F.
  fold w in F.
  assert (Idle : forall w', ~ pending h w' -> fire h w' = w').
  { intros w' NP. unfold fire.
    destruct (find (fun t => Nat.eqb (handle t) h) (timers w')) as [t|] eqn:E;
      [|reflexivity].
    exfalso. apply NP. apply find_some in E. destruct E as [I E].
    exists t. split; [exact I | apply Nat.eqb_eq, E]. }
  assert (Spent : ~ pending h (fire h w)).
  { intros [t [I E]]. apply In_fire in I. destruct I as [_ NE].
    contradiction. }
  split; [exact D|]. split; [|split; [exact Spent|split; [|exact (Idle w)]]].
  - intros [t [I E]]. subst h. split; [apply fire_followUp; assumption|].
    split.
    + destruct (fire_pending (handle t) w) as (t' & _ & _ & Eq).
      { exists t. split; [exact I | reflexivity]. }
      rewrite Eq. destruct (callback t').
      cbn [runCallback sendClientEvent record timers].
      apply filter_one_out; assumption.
    + intros t' I' NE. apply In_fire. split; assumption.
  - apply Idle, Spent.
Qed.

Lemma timer_fires_once_witness :
  let steps := [Render (update 1 [responseDone [paletteCall oceanArguments;
                                                paletteCall oceanArguments]])] in
  let w := world (run steps initial) in
  pending 1 w
  /\ sent (fire 1 w) = sent w ++ [followUp]
  /\ length (timers (fire 1 w)) + 1 = length (timers w)
  /\ ~ pending 7 w
  /\ fire 7 w = w.
Proof.
  intros steps w.
  destruct (timer_fires_once steps 1) as (_ & P & _).
  destruct (timer_fires_once steps 7) as (_ & _ & _ & _ & N).
  assert (P1 : pending 1 w).
  { eexists. split; [left; reflexivity | reflexivity]. }
  assert (N7 : ~ pending 7 w).
  { intros [t [I E]]. destruct I as [<- | [<- | []]]; discriminate. }
  destruct (P P1) as (S & L & _).
  split; [exact P1|]. split; [exact S|]. split; [exact L|].
  split; [exact N7 | exact (N N7)].
Defined.

(* ================================================================== *)
(** ** Ending the session, in a run *)
(* ================================================================== *)

Lemma viewOk_inactive (p : Props) (s : State) :
  isSessionActive p = false -> viewOk p s = true.
Proof. unfold viewOk. intros ->. reflexivity. Qed.

Lemma formIsInitial_pass (p : Props) (j : Instance) :
  formIsInitial (state (world j)) -> formIsInitial (state (world (pass p j))).
Proof.
  intros H. destruct (pass_state_cases p j) as [E | [E | E]]; rewrite E.
  - exact H.
  - exact H.
  - repeat split.
Qed.

(** The pass that sees the session go from active to inactive. *)
Lemma teardown_pass (p p0 : Props) (i : Instance) :
  committedProps i = Some p0 ->
  isSessionActive p0 = true -> isSessionActive p = false ->
  alive (pass p i) = true ->
  state (world (pass p i)) = initialState
  /\ sent (world (pass p i)) = sent (world i) ++ registeredBy p i
  /\ exists d, status (pass p i) = Live p (functionAdded (state (world i))) d.
Proof.
  intros C A0 A Al'. pose proof (committed_alive i p0 C) as Al.
  pose proof (viewOk_inactive p (state (world i)) A) as V.
  apply view_ok in V. destruct V as [v V].
  destruct (pass_facts p i Al) as [_ N].
  destruct (N v V) as (S & _ & _ & Th & Ok).
  destruct (runsFirst p i && throws (events p)) eqn:B.
  - destruct (Th eq_refl) as [G _]. unfold alive in Al'. rewrite G in Al'.
    discriminate.
  - destruct (Ok eq_refl) as [L St]. split; [|split; assumption].
    rewrite St. unfold afterEffects, runsSecond, committedProps in *.
    destruct (status i); try discriminate. injection C as ->.
    rewrite A, A0. reflexivity.
Qed.

(** When a render takes the session from active to inactive and the
    component stays mounted, the form is back to its initial content: the
    default instructions, the first voice, no time of update; the view
    shows them with the controls disabled, the line
    [No customizations sent yet] and the invitation to start a session,
    whatever was typed, chosen, submitted or stored before. *)
Theorem ending_the_session_resets_the_form :
  forall (i : Instance) (p p0 : Props),
    committedProps i = Some p0 ->
    isSessionActive p0 = true ->
    isSessionActive p = false ->
    let i' := step (Render p) i in
    alive i' = true ->
    formIsInitial (state (world i'))
    /\ exists v, ToolPanel_view p (state (world i')) = Normal v
       /\ textareaValue v = DEFAULT_INSTRUCTIONS
       /\ selectValue v = "marin"%string
       /\ controlsDisabled v = true
       /\ startHint v = true
       /\ statusLine v = "No customizations sent yet"%string
       /\ pane v = PaneStartSession.
Proof.
  intros i p p0 C A0 A i' Al'.
  assert (F : formIsInitial (state (world i'))).
  { subst i'. cbn [step] in *. unfold rerender in *.
    destruct (settle_cases 2 p i) as [E|E]; rewrite E in *.
    - destruct (teardown_pass p p0 i C A0 A Al') as [St _]. rewrite St.
      repeat split.
    - assert (Al1 : alive (pass p i) = true).
      { destruct (alive_cases (pass p i)) as [K|K]; [exact K|].
        rewrite (settle_gone 2 p _ K) in Al'. rewrite Al' in K.
        discriminate. }
      destruct (teardown_pass p p0 i C A0 A Al1) as [St _].
      apply settle_preserves; [intros j; apply formIsInitial_pass|].
      rewrite St. repeat split. }
  split; [exact F|].
  pose proof (viewOk_inactive p (state (world i')) A) as V.
  apply view_ok in V. destruct V as [v V]. exists v. split; [exact V|].
  destruct (view_fields _ _ _ V) as (T & S & D & H & L & P & _).
  destruct F as (F1 & F2 & F3).
  rewrite T, S, D, H, L, F1, F2, F3, A. repeat split. apply P, A.
Qed.

Lemma ending_the_session_resets_the_form_witness :
  let p0 := update 1 [plainEvent "session.created"] in
  let p := {| isSessionActive := false; sendClientEventRef := 0;
              events := EvArray 2 [] |} in
  let i := run [Render p0; ChangeInstructions "Be terse."; ChangeVoice "sol";
                Submit "10:00:00"] initial in
  committedProps i = Some p0
  /\ instructions (state (world i)) = "Be terse."%string
  /\ alive (step (Render p) i) = true
  /\ formIsInitial (state (world (step (Render p) i))).
Proof.
  intros p0 p i.
  assert (C : committedProps i = Some p0) by reflexivity.
  assert (Al : alive (step (Render p) i) = true) by reflexivity.
  split; [exact C|]. split; [reflexivity|]. split; [exact Al|].
  exact (proj1 (ending_the_session_resets_the_form i p p0 C eq_refl eq_refl Al)).
Defined.

Lemma depsChanged_live (p q : Props) (fa : bool) (d : option Cleanup)
    (i : Instance) :
  status i = Live q fa d ->
  depsChanged p i
  = negb (sameEvents (events p) (events q)
          && Bool.eqb (functionAdded (state (world i))) fa
          && Nat.eqb (sendClientEventRef p) (sendClientEventRef q)).
Proof. intros St. unfold depsChanged. rewrite St. reflexivity. Qed.

Lemma runsFirst_live (p q : Props) (fa : bool) (d : option Cleanup)
    (i : Instance) :
  status i = Live q fa d -> runsFirst p i = depsChanged p i.
Proof. intros St. unfold runsFirst. rewrite St. reflexivity. Qed.

(** A pass with the committed props while the session is inactive, after
    [functionAdded] changed: the first effect runs again. *)
Lemma rerun_pass (p : Props) (fa : bool) (d : option Cleanup) (j : Instance) :
  status j = Live p fa d ->
  functionAdded (state (world j)) = negb fa ->
  isSessionActive p = false ->
  throws (events p) = false ->
  (exists d', status (pass p j) = Live p (negb fa) d')
  /\ state (world (pass p j)) = effectState (events p) (state (world j))
  /\ sent (world (pass p j))
     = sent (world j) ++ (if fa && registers (events p)
                          then [sessionUpdate] else []).
Proof.
  intros St FA A Th.
  assert (Al : alive j = true) by (unfold alive; rewrite St; reflexivity).
  pose proof (viewOk_inactive p (state (world j)) A) as V.
  apply view_ok in V. destruct V as [v V].
  destruct (pass_facts p j Al) as [_ N].
  destruct (N v V) as (S & _ & _ & _ & Ok).
  assert (R : runsFirst p j = true).
  { rewrite (runsFirst_live p p fa d j St), (depsChanged_live p p fa d j St).
    rewrite FA, sameEvents_refl, Nat.eqb_refl. destruct fa; reflexivity. }
  rewrite Th, andb_false_r in Ok. destruct (Ok eq_refl) as [L E].
  rewrite FA in L. split; [exact L|]. split.
  - rewrite E. unfold afterEffects, runsSecond. rewrite St, R.
    rewrite Bool.eqb_reflx. reflexivity.
  - rewrite S. unfold registeredBy. rewrite R, FA, negb_involutive.
    reflexivity.
Qed.

(** Ending the session after the tool was registered sends the
    registration again. With the same log and the same [sendClientEvent],
    the teardown resets [functionAdded]; that change of a dependency makes
    the events effect run once more, and when the last element of the log
    is [session.created] the registration command is sent a second time,
    the session being inactive, and [functionAdded] is true again. *)
Theorem ending_the_session_registers_again :
  forall (i : Instance) (p p0 : Props) (d : option Cleanup),
    status i = Live p0 true d ->
    functionAdded (state (world i)) = true ->
    isSessionActive p0 = true ->
    isSessionActive p = false ->
    sameEvents (events p) (events p0) = true ->
    sendClientEventRef p = sendClientEventRef p0 ->
    registers (events p) = true ->
    throws (events p) = false ->
    let i' := step (Render p) i in
    alive i' = true
    /\ sent (world i') = sent (world i) ++ [sessionUpdate]
    /\ functionAdded (state (world i')) = true
    /\ formIsInitial (state (world i')).
Proof.
  intros i p p0 d St FA A0 A SE SR Reg Th i'.
  assert (C : committedProps i = Some p0)
    by (unfold committedProps; rewrite St; reflexivity).
  assert (Al : alive i = true) by (unfold alive; rewrite St; reflexivity).
  (* first pass: the teardown *)
  assert (R0 : runsFirst p i = false).
  { rewrite (runsFirst_live p p0 true d i St), (depsChanged_live p p0 true d i St).
    rewrite SE, FA, SR, Nat.eqb_refl. reflexivity. }
  assert (Al1 : alive (pass p i) = true).
  { pose proof (viewOk_inactive p (state (world i)) A) as V.
    apply view_ok in V. destruct V as [v V].
    destruct (pass_facts p i Al) as [_ N].
    destruct (N v V) as (_ & _ & _ & _ & Ok).
    rewrite R0 in Ok. destruct (Ok eq_refl) as [[d1 L] _].
    unfold alive. rewrite L. reflexivity. }
  destruct (teardown_pass p p0 i C A0 A Al1) as (S1 & Se1 & d1 & L1).
  rewrite FA in L1. unfold registeredBy in Se1. rewrite R0 in Se1.
  cbn [andb] in Se1. rewrite app_nil_r in Se1.
  set (i1 := pass p i) in *.
  assert (N1 : state (world i1) <> state (world i)).
  { intros E. rewrite S1 in E. apply (f_equal functionAdded) in E.
    rewrite FA in E. discriminate. }
  (* second pass: the effect runs again and registers *)
  destruct (rerun_pass p true d1 i1 L1) as ((d2 & L2) & S2 & Se2); auto.
  { rewrite S1. reflexivity. }
  rewrite Reg in Se2. cbn [andb negb] in Se2, L2.
  set (i2 := pass p i1) in *.
  assert (Al2 : alive i2 = true) by (unfold alive; rewrite L2; reflexivity).
  assert (FA2 : functionAdded (state (world i2)) = true).
  { rewrite S2. cbn. rewrite Reg. apply orb_true_r. }
  assert (N2 : state (world i2) <> state (world i1)).
  { intros E. apply (f_equal functionAdded) in E. rewrite FA2, S1 in E.
    discriminate. }
  (* third pass: the effect runs, registered already *)
  destruct (rerun_pass p false d2 i2 L2) as ((d3 & L3) & S3 & Se3); auto.
  cbn [andb] in Se3. rewrite app_nil_r in Se3.
  assert (E : i' = pass p i2).
  { subst i'. cbn [step]. unfold rerender.
    rewrite (settle_go 2 p i Al1 N1). fold i1.
    rewrite (settle_go 1 p i1 Al2 N2). fold i2. apply settle_one. }
  rewrite E. split; [unfold alive; rewrite L3; reflexivity|].
  split; [rewrite Se3, Se2, Se1; reflexivity|].
  split.
  - rewrite S3. cbn. rewrite FA2. reflexivity.
  - rewrite S3, S2, S1. repeat split.
Qed.

Lemma ending_the_session_registers_again_witness :
  let p0 := update 1 [plainEvent "session.created"] in
  let p := {| isSessionActive := false; sendClientEventRef := 0;
              events := EvArray 1 [plainEvent "session.created"] |} in
  let i := run [Render p0] initial in
  sent (world i) = [sessionUpdate]
  /\ sent (world (step (Render p) i)) = [sessionUpdate; sessionUpdate].
Proof.
  intros p0 p i.
  assert (S : sent (world i) = [sessionUpdate]) by reflexivity.
  split; [exact S|].
  destruct (ending_the_session_registers_again i p p0
              (Some (ClearPending None))
              eq_refl eq_refl eq_refl eq_refl eq_refl eq_refl eq_refl eq_refl)
    as (_ & E & _).
  rewrite E, S. reflexivity.
Defined.

(** A render whose [events] prop is [undefined], [null] or an empty array
    sends no command and arms no timer, in whatever state the component
    is: the commands sent, the number of [setTimeout] calls and the next
    handle are as before, and every timer pending afterwards was pending
    before. *)
Theorem render_with_empty_log_sends_and_arms_nothing :
  forall (i : Instance) (p : Props),
    events p = EvUndefined \/ events p = EvNull
    \/ (exists ref, events p = EvArray ref []) ->
    let i' := step (Render p) i in
    sent (world i') = sent (world i)
    /\ armings (calls (world i')) = armings (calls (world i))
    /\ nextHandle (world i') = nextHandle (world i)
    /\ incl (timers (world i')) (timers (world i)).
Proof.
  intros i p Ev i'.
  assert (R : registers (events p) = false /\ iterated (events p) = []).
  { destruct Ev as [-> | [-> | [ref ->]]]; split; reflexivity. }
  destruct R as [Reg It].
  set (P := fun j => sent (world j) = sent (world i)
                     /\ armings (calls (world j)) = armings (calls (world i))
                     /\ nextHandle (world j) = nextHandle (world i)
                     /\ incl (timers (world j)) (timers (world i))).
  assert (Step : forall j, P j -> P (pass p j)).
  { intros j (S & A & N & I).
    assert (Q : sent (world (pass p j)) = sent (world j)
                /\ armings (calls (world (pass p j))) = armings (calls (world j))
                /\ nextHandle (world (pass p j)) = nextHandle (world j)).
    { destruct (alive_cases j) as [Al|Al];
        [|rewrite (pass_gone p j Al); repeat split].
      destruct (pass_facts p j Al) as [T K].
      destruct (ToolPanel_view p (state (world j))) as [v|e].
      - destruct (K v eq_refl) as (S' & N' & A' & _).
        unfold registeredBy, armedBy in *.
        rewrite Reg, andb_false_r, app_nil_r in S'.
        rewrite It in N', A'. cbn [length] in N', A'.
        assert (Z : (if runsFirst p j then 0 else 0) = 0)
          by (destruct (runsFirst p j); reflexivity).
        rewrite Z, Nat.add_0_r in N', A'. repeat split; assumption.
      - destruct (T e eq_refl) as (_ & S' & _ & N' & A').
        repeat split; assumption. }
    destruct Q as (S' & A' & N').
    split; [congruence|]. split; [congruence|]. split; [congruence|].
    destruct (pass_shape p j) as (c & n & T & Nx & _).
    assert (n = 0) by lia. subst n. cbn in T. rewrite app_nil_r in T.
    intros t H. apply I. rewrite T in H.
    destruct c; [apply In_clearRetained in H; apply H | exact H]. }
  assert (H : P i').
  { subst i'. cbn [step]. unfold rerender. apply settle_preserves; [exact Step|].
    repeat split. apply incl_refl. }
  exact H.
Qed.

Lemma render_with_empty_log_sends_and_arms_nothing_witness :
  let i := run [Render (update 1 [responseDone [paletteCall oceanArguments];
                                  plainEvent "session.created"])] initial in
  let p := update 2 [] in
  (exists ref, events p = EvArray ref [])
  /\ sent (world (step (Render p) i)) = sent (world i)
  /\ nextHandle (world (step (Render p) i)) = nextHandle (world i).
Proof.
  intros i p.
  assert (E : exists ref, events p = EvArray ref [])
    by (exists 2; reflexivity).
  destruct (render_with_empty_log_sends_and_arms_nothing i p
              (or_intror (or_intror E))) as (S & _ & N & _).
  split; [exact E|]. split; [exact S | exact N].
Defined.

(* ================================================================== *)
(** ** A completion in an active session, in a run *)
(* ================================================================== *)

Lemma view_palette (p : Props) (s : State) (v : View) (o : Output) :
  ToolPanel_view p s = Normal v ->
  isSessionActive p = true ->
  functionCallOutput s = Some o ->
  exists el, FunctionCallOutput o = Normal el /\ pane v = PanePalette el.
Proof.
  unfold ToolPanel_view, renderFunctionCallOutput. intros V A F.
  rewrite A, F in V.
  destruct (FunctionCallOutput o) as [el|e]; [|discriminate].
  destruct (mountable el); [|discriminate].
  injection V as <-. exists el. split; reflexivity.
Qed.

(** An update of the log in an active session that does not register the
    tool: the events effect runs once. *)
Lemma ordinary_update (i : Instance) (p p0 : Props) (d : option Cleanup) :
  status i = Live p0 (functionAdded (state (world i))) d ->
  isSessionActive p0 = true ->
  isSessionActive p = true ->
  runsFirst p i = true ->
  throws (events p) = false ->
  functionAdded (state (world i)) = true \/ registers (events p) = false ->
  alive (rerender p i) = true ->
  state (world (rerender p i)) = effectState (events p) (state (world i))
  /\ sent (world (rerender p i)) = sent (world i)
  /\ armings (calls (world (rerender p i)))
     = armings (calls (world i)) + length (iterated (events p))
  /\ nextHandle (world (rerender p i))
     = nextHandle (world i) + length (iterated (events p))
  /\ quiet (rerender p i)
  /\ committedProps (rerender p i) = Some p.
Proof.
  intros St A0 A R Th NoReg Al'.
  assert (Al : alive i = true) by (unfold alive; rewrite St; reflexivity).
  assert (Reg0 : negb (functionAdded (state (world i))) && registers (events p)
                 = false).
  { destruct NoReg as [-> | ->]; [reflexivity | apply andb_false_r]. }
  assert (FA1 : functionAdded (effectState (events p) (state (world i)))
                = functionAdded (state (world i))).
  { cbn. destruct NoReg as [-> | ->]; [reflexivity | apply orb_false_r]. }
  unfold rerender in *.
  (* first pass *)
  assert (Al1 : alive (pass p i) = true).
  { destruct (alive_cases (pass p i)) as [K|K]; [exact K|].
    rewrite settle_stop in Al' by (left; exact K). rewrite Al' in K.
    discriminate. }
  destruct (pass_facts p i Al) as [T N].
  destruct (ToolPanel_view p (state (world i))) as [v|e] eqn:V;
    [|destruct (T e eq_refl) as [G _]; unfold alive in Al1;
      rewrite G in Al1; discriminate].
  destruct (N v eq_refl) as (S1 & Nx1 & Ar1 & _ & Ok1). clear T N.
  rewrite R, Th in Ok1. destruct (Ok1 eq_refl) as [[d1 L1] St1].
  unfold registeredBy in S1. rewrite R in S1. cbn [andb] in S1.
  rewrite Reg0, app_nil_r in S1.
  unfold armedBy in Nx1, Ar1. rewrite R in Nx1, Ar1.
  assert (E1 : state (world (pass p i))
               = effectState (events p) (state (world i))).
  { rewrite St1. unfold afterEffects, runsSecond. rewrite St, R, A, A0.
    reflexivity. }
  assert (C1 : committedProps (pass p i) = Some p)
    by (unfold committedProps; rewrite L1; reflexivity).
  destruct (state_decide (state (world (pass p i))) (state (world i)))
    as [Same | Diff].
  { rewrite settle_stop by (right; exact Same).
    split; [exact E1|]. split; [exact S1|]. split; [exact Ar1|].
    split; [exact Nx1|]. split; [|exact C1].
    apply pass_quiet. right. exact Same. }
  rewrite (settle_go 2 p i Al1 Diff) in *.
  (* second pass: no effect runs *)
  set (i1 := pass p i) in *.
  assert (Al2 : alive (pass p i1) = true).
  { destruct (alive_cases (pass p i1)) as [K|K]; [exact K|].
    rewrite settle_stop in Al' by (left; exact K). rewrite Al' in K.
    discriminate. }
  assert (R1 : runsFirst p i1 = false).
  { rewrite (runsFirst_live p p _ d1 i1 L1), (depsChanged_live p p _ d1 i1 L1).
    rewrite E1, FA1, sameEvents_refl, Nat.eqb_refl, Bool.eqb_reflx.
    reflexivity. }
  destruct (pass_facts p i1 Al1) as [T N].
  destruct (ToolPanel_view p (state (world i1))) as [v1|e] eqn:V1;
    [|destruct (T e eq_refl) as [G _]; unfold alive in Al2;
      rewrite G in Al2; discriminate].
  destruct (N v1 eq_refl) as (S2 & Nx2 & Ar2 & _ & Ok2). clear T N.
  rewrite R1 in Ok2. destruct (Ok2 eq_refl) as [[d2 L2] St2].
  unfold registeredBy in S2. rewrite R1 in S2. cbn [andb] in S2.
  rewrite app_nil_r in S2.
  unfold armedBy in Nx2, Ar2. rewrite R1, Nat.add_0_r in Nx2, Ar2.
  assert (E2 : state (world (pass p i1)) = state (world i1)).
  { rewrite St2. unfold afterEffects, runsSecond. rewrite L1, R1.
    rewrite Bool.eqb_reflx. reflexivity. }
  rewrite settle_stop by (right; exact E2).
  split; [rewrite E2; exact E1|]. split; [rewrite S2; exact S1|].
  split; [rewrite Ar2; exact Ar1|]. split; [rewrite Nx2; exact Nx1|].
  split.
  - apply pass_quiet. right. exact E2.
  - unfold committedProps. rewrite L2. reflexivity.
Qed.

(** In a reachable state with the session active and the tool either
    registered already or not to be registered by this log, a render with
    a new log whose newest event is a [response.done] carrying [n] palette
    calls, if it leaves the component mounted, runs the events effect
    exactly once: [n] timers are armed, no command is sent, and the state
    holds the last of the [n] calls. *)
Theorem completion_update_arms_n_timers :
  forall (steps : list Step) (p p0 : Props) (ref : nat)
         (output : list Output) (rest : list Event),
    let i := run steps initial in
    committedProps i = Some p0 ->
    isSessionActive p0 = true ->
    isSessionActive p = true ->
    runsFirst p i = true ->
    events p = EvArray ref (responseDone output :: rest) ->
    functionAdded (state (world i)) = true \/ registers (events p) = false ->
    let i' := step (Render p) i in
    alive i' = true ->
    armings (calls (world i'))
    = armings (calls (world i)) + length (paletteCalls output)
    /\ nextHandle (world i')
       = nextHandle (world i) + length (paletteCalls output)
    /\ sent (world i') = sent (world i)
    /\ functionCallOutput (state (world i'))
       = newest (paletteCalls output) (functionCallOutput (state (world i))).
Proof.
  intros steps p p0 ref output rest i C A0 A R Ev NoReg i' Al'.
  pose proof (quiet_run steps) as Q. fold i in Q.
  unfold committedProps in C.
  destruct (status i) as [|q fa d|err] eqn:St; try discriminate.
  injection C as ->. destruct (Q p0 fa d St) as [-> _].
  assert (Th : throws (events p) = false) by (rewrite Ev; reflexivity).
  assert (It : iterated (events p) = paletteCalls output)
    by (rewrite Ev; reflexivity).
  destruct (ordinary_update i p p0 d St A0 A R Th NoReg Al')
    as (S & Se & Ar & Nx & _ & _).
  rewrite It in Ar, Nx. subst i'. cbn [step].
  split; [exact Ar|]. split; [exact Nx|]. split; [exact Se|].
  rewrite S. cbn. rewrite It. reflexivity.
Qed.

Lemma completion_update_arms_n_timers_witness :
  let created := plainEvent "session.created" in
  let p0 := update 1 [created] in
  let output := [paletteCall oceanArguments; paletteCall oceanArguments] in
  let p := update 2 [responseDone output; created] in
  let i := run [Render p0] initial in
  committedProps i = Some p0
  /\ alive (step (Render p) i) = true
  /\ armings (calls (world (step (Render p) i))) = 2
  /\ sent (world (step (Render p) i)) = [sessionUpdate].
Proof.
  intros created p0 output p i.
  assert (C : committedProps i = Some p0) by reflexivity.
  assert (Al : alive (step (Render p) i) = true) by reflexivity.
  destruct (completion_update_arms_n_timers [Render p0] p p0 2 output [created]
              C eq_refl eq_refl eq_refl eq_refl (or_introl eq_refl) Al)
    as (Ar & _ & Se & _).
  split; [exact C|]. split; [exact Al|]. split; [exact Ar | exact Se].
Defined.

(** After such a render the palette on screen is that of the last palette
    call of the completion: the view shows the element that
    [FunctionCallOutput] returns for it. *)
Theorem completion_update_shows_last_palette :
  forall (steps : list Step) (p p0 : Props) (ref : nat)
         (output : list Output) (rest : list Event) (m : Output)
         (ms : list Output),
    let i := run steps initial in
    committedProps i = Some p0 ->
    isSessionActive p0 = true ->
    isSessionActive p = true ->
    runsFirst p i = true ->
    events p = EvArray ref (responseDone output :: rest) ->
    functionAdded (state (world i)) = true \/ registers (events p) = false ->
    paletteCalls output = m :: ms ->
    let i' := step (Render p) i in
    alive i' = true ->
    exists v el,
      ToolPanel_view p (state (world i')) = Normal v
      /\ FunctionCallOutput (last (m :: ms) m) = Normal el
      /\ pane v = PanePalette el
      /\ preOf el = last (m :: ms) m.
Proof.
  intros steps p p0 ref output rest m ms i C A0 A R Ev NoReg PC i' Al'.
  pose proof (quiet_run steps) as Q. fold i in Q.
  unfold committedProps in C.
  destruct (status i) as [|q fa d|err] eqn:St; try discriminate.
  injection C as ->. destruct (Q p0 fa d St) as [-> _].
  assert (Th : throws (events p) = false) by (rewrite Ev; reflexivity).
  assert (It : iterated (events p) = m :: ms)
    by (rewrite Ev, <- PC; reflexivity).
  destruct (ordinary_update i p p0 d St A0 A R Th NoReg Al')
    as (S & _ & _ & _ & Q' & C').
  subst i'. cbn [step] in *.
  assert (F : functionCallOutput (state (world (rerender p i)))
              = Some (last (m :: ms) m)).
  { rewrite S. cbn [effectState functionCallOutput]. rewrite It. reflexivity. }
  unfold committedProps in C'.
  destruct (status (rerender p i)) as [|q fa' d'|err] eqn:St'; try discriminate.
  injection C' as ->. destruct (Q' p fa' d' St') as [_ V].
  apply view_ok in V. destruct V as [v V].
  destruct (view_palette p _ v _ V A F) as (el & E & P).
  exists v, el. split; [exact V|]. split; [exact E|]. split; [exact P|].
  unfold FunctionCallOutput in E.
  destruct (JSON_parse _) as [[]|]; try discriminate;
    destruct (colors_map _ _); try discriminate;
    injection E as <-; reflexivity.
Qed.

Lemma completion_update_shows_last_palette_witness :
  let created := plainEvent "session.created" in
  let p0 := update 1 [created] in
  let first := paletteCall themeOnlyArguments in
  let second := paletteCall oceanArguments in
  let p := update 2 [responseDone [first; second]; created] in
  let i := run [Render p0] initial in
  committedProps i = Some p0
  /\ alive (step (Render p) i) = true
  /\ exists v el,
       ToolPanel_view p (state (world (step (Render p) i))) = Normal v
       /\ pane v = PanePalette el
       /\ themeLine el = Some (JString "ocean").
Proof.
  intros created p0 first second p i.
  assert (C : committedProps i = Some p0) by reflexivity.
  assert (Al : alive (step (Render p) i) = true) by reflexivity.
  destruct (completion_update_shows_last_palette [Render p0] p p0 2
              [first; second] [created] first [second]
              C eq_refl eq_refl eq_refl eq_refl (or_introl eq_refl) eq_refl Al)
    as (v & el & V & E & P & _).
  split; [exact C|]. split; [exact Al|]. exists v, el.
  split; [exact V|]. split; [exact P|].
  cbn [last] in E. assert (K : Normal el = FunctionCallOutput second)
    by (symmetry; exact E).
  vm_compute in K. injection K as ->. reflexivity.
Defined.

(* ================================================================== *)
(** ** The world after a pass *)
(* ================================================================== *)

(** A pass that leaves the instance mounted runs the cleanup and the body
    of the events effect when a dependency changed, then the body of the
    session effect when [isSessionActive] changed, and nothing else. *)
Lemma pass_world (p p0 : Props) (fa0 : bool) (d0 : option Cleanup)
    (i : Instance) :
  status i = Live p0 fa0 d0 ->
  alive (pass p i) = true ->
  world (pass p i)
  = let w1 := if runsFirst p i
              then fst (eventsEffect (events p) (runDestroy d0 (world i)))
              else world i in
    if runsSecond p i then sessionEffect (isSessionActive p) w1 else w1.
Proof.
  intros St Al. unfold runsFirst, depsChanged, runsSecond. rewrite St.
  unfold pass, alive in *. rewrite St in *.
  destruct (ToolPanel_view p (state (world i))); [|discriminate].
  unfold commitEffects in *.
  destruct (negb (sameEvents (events p) (events p0)
                  && Bool.eqb (functionAdded (state (world i))) fa0
                  && Nat.eqb (sendClientEventRef p) (sendClientEventRef p0))).
  - destruct (eventsEffect (events p) (runDestroy d0 (world i))) as [w1 [d1|e]];
      [reflexivity | discriminate].
  - reflexivity.
Qed.

Lemma invocationUpdates_runDestroy (d : option Cleanup) (w : World) :
  invocationUpdates (calls (runDestroy d w)) = invocationUpdates (calls w).
Proof.
  destruct d as [[[h|]]|]; try reflexivity.
  cbn. destruct (Nat.eqb h 0); [reflexivity|].
  cbn. rewrite invocationUpdates_app. cbn. lia.
Qed.

(** The loop of the effect takes the entries the rule is specified for. *)
Lemma isPaletteCall_matching (o : Output) :
  isPaletteCall o = if isMatchingEntry_dec o then true else false.
Proof.
  unfold isPaletteCall.
  destruct (isMatchingEntry_dec o) as [[T N]|M].
  - rewrite T, N. reflexivity.
  - destruct (String.eqb (output_type o) "function_call") eqn:T;
      [|reflexivity].
    destruct (output_name o) as [n|] eqn:N; [|reflexivity].
    destruct (String.eqb n "display_color_palette") eqn:E; [|reflexivity].
    exfalso. apply M. apply String.eqb_eq in T, E. subst n.
    split; [exact T | exact N].
Qed.

Lemma paletteCalls_matching (output : list Output) :
  paletteCalls output = matchingEntries output.
Proof.
  unfold paletteCalls, matchingEntries. apply filter_ext.
  intros o. apply isPaletteCall_matching.
Qed.

(** An update of the log in an active session that does not register the
    tool leaves the world that one run of the events effect, after the
    cleanup of the previous run, leaves. *)
Lemma ordinary_update_world (i : Instance) (p p0 : Props)
    (d : option Cleanup) :
  status i = Live p0 (functionAdded (state (world i))) d ->
  isSessionActive p0 = true ->
  isSessionActive p = true ->
  runsFirst p i = true ->
  throws (events p) = false ->
  functionAdded (state (world i)) = true \/ registers (events p) = false ->
  alive (rerender p i) = true ->
  world (rerender p i) = fst (eventsEffect (events p) (runDestroy d (world i))).
Proof.
  intros St A0 A R Th NoReg Al'.
  assert (Al : alive i = true) by (unfold alive; rewrite St; reflexivity).
  assert (FA1 : functionAdded (effectState (events p) (state (world i)))
                = functionAdded (state (world i))).
  { cbn. destruct NoReg as [-> | ->]; [reflexivity | apply orb_false_r]. }
  unfold rerender in *.
  assert (Al1 : alive (pass p i) = true).
  { destruct (alive_cases (pass p i)) as [K|K]; [exact K|].
    rewrite settle_stop in Al' by (left; exact K). rewrite Al' in K.
    discriminate. }
  assert (RS : runsSecond p i = false).
  { unfold runsSecond. rewrite St, A, A0. reflexivity. }
  pose proof (pass_world p p0 _ d i St Al1) as W1.
  rewrite R, RS in W1. cbn zeta in W1.
  destruct (state_decide (state (world (pass p i))) (state (world i)))
    as [Same | Diff].
  { rewrite settle_stop by (right; exact Same). exact W1. }
  rewrite (settle_go 2 p i Al1 Diff) in *.
  destruct (pass_facts p i Al) as [T N].
  destruct (ToolPanel_view p (state (world i))) as [v|e] eqn:V;
    [|destruct (T e eq_refl) as [G _]; unfold alive in Al1;
      rewrite G in Al1; discriminate].
  destruct (N v eq_refl) as (_ & _ & _ & _ & Ok). clear T N.
  rewrite R, Th in Ok. destruct (Ok eq_refl) as [[d1 L1] St1].
  assert (E1 : state (world (pass p i))
               = effectState (events p) (state (world i))).
  { rewrite St1. unfold afterEffects. rewrite RS, R. reflexivity. }
  set (i1 := pass p i) in *.
  assert (Al2 : alive (pass p i1) = true).
  { destruct (alive_cases (pass p i1)) as [K|K]; [exact K|].
    rewrite settle_stop in Al' by (left; exact K). rewrite Al' in K.
    discriminate. }
  assert (R1 : runsFirst p i1 = false).
  { rewrite (runsFirst_live p p _ d1 i1 L1), (depsChanged_live p p _ d1 i1 L1).
    rewrite E1, FA1, sameEvents_refl, Nat.eqb_refl, Bool.eqb_reflx.
    reflexivity. }
  assert (RS1 : runsSecond p i1 = false).
  { unfold runsSecond. rewrite L1, Bool.eqb_reflx. reflexivity. }
  pose proof (pass_world p p _ d1 i1 L1 Al2) as W2.
  rewrite R1, RS1 in W2. cbn zeta in W2.
  rewrite settle_stop by (right; rewrite W2; reflexivity).
  rewrite W2. exact W1.
Qed.

(** C4, as the code has it. In a session that is active before and after,
    an update of the log (a render with a new [events] array) whose newest
    event [events[0]] is a [response.done] with an output list holding [n]
    entries of type [function_call] named [display_color_palette], and that
    does not register the tool in the same update (the tool is registered
    already, or the last element of the array is not [session.created]),
    if it leaves the component mounted, arms exactly [n] follow-up timers:
    the table is the one the cleanup of the previous run left, followed by
    the [n] new timers, [setTimeout] was called [n] times and
    [setFunctionCallOutput] was called with an invocation [n] times; the
    state keeps the last of the [n] entries (the previous value when [n]
    is 0), and no command is sent. *)
Theorem update_arms_one_timer_per_matching_entry :
  forall (steps : list Step) (p p0 : Props) (ref : nat)
         (output : list Output) (rest : list Event),
    let i := run steps initial in
    committedProps i = Some p0 ->
    isSessionActive p0 = true ->
    isSessionActive p = true ->
    sameEvents (events p) (events p0) = false ->
    events p = EvArray ref (responseDone output :: rest) ->
    functionAdded (state (world i)) = true \/ registers (events p) = false ->
    let i' := step (Render p) i in
    alive i' = true ->
    let n := length (matchingEntries output) in
    timers (world i')
    = clearRetained i (timers (world i))
      ++ map followUpTimer (seq (nextHandle (world i)) n)
    /\ armings (calls (world i')) = armings (calls (world i)) + n
    /\ invocationUpdates (calls (world i'))
       = invocationUpdates (calls (world i)) + n
    /\ functionCallOutput (state (world i'))
       = newest (matchingEntries output) (functionCallOutput (state (world i)))
    /\ sent (world i') = sent (world i).
Proof.
  intros steps p p0 ref output rest i C A0 A New Ev NoReg i' Al' n.
  pose proof (quiet_run steps) as Q. fold i in Q.
  unfold committedProps in C.
  destruct (status i) as [|q fa d|err] eqn:St; try discriminate.
  injection C as ->. destruct (Q p0 fa d St) as [-> _].
  assert (Th : throws (events p) = false) by (rewrite Ev; reflexivity).
  assert (It : iterated (events p) = matchingEntries output)
    by (rewrite Ev, <- paletteCalls_matching; reflexivity).
  assert (R : runsFirst p i = true).
  { rewrite (runsFirst_live p p0 _ d i St), (depsChanged_live p p0 _ d i St).
    rewrite New. reflexivity. }
  subst i'. cbn [step] in *.
  rewrite (ordinary_update_world i p p0 d St A0 A R Th NoReg Al').
  destruct (eventsEffect_facts (events p) (runDestroy d (world i)))
    as (T & _ & _ & Se & Ar & U & S).
  rewrite It in T, Ar, U. fold n in T, Ar, U.
  rewrite (runDestroy_timers i p0 _ d _ St), runDestroy_next in T.
  rewrite armings_runDestroy in Ar. rewrite invocationUpdates_runDestroy in U.
  rewrite sent_runDestroy, state_runDestroy in Se.
  rewrite state_runDestroy in S.
  split; [exact T|]. split; [exact Ar|]. split; [exact U|]. split.
  - rewrite S. cbn [effectState functionCallOutput]. rewrite It. reflexivity.
  - rewrite Se.
    destruct NoReg as [-> | ->]; cbn [negb andb]; rewrite ?andb_false_r;
      apply app_nil_r.
Qed.

Lemma update_arms_one_timer_per_matching_entry_witness :
  let created := plainEvent "session.created" in
  let first := paletteCall themeOnlyArguments in
  let second := paletteCall oceanArguments in
  let other := {| output_type := "message"; output_name := None;
                  output_arguments := None |} in
  let misnamed := {| output_type := "function_call";
                     output_name := Some "display_palette";
                     output_arguments := Some oceanArguments |} in
  let output := [other; first; misnamed; second; other] in
  let p0 := update 1 [created] in
  let p := update 2 [responseDone output; created] in
  let i := run [Render p0] initial in
  matchingEntries output = [first; second]
  /\ alive (step (Render p) i) = true
  /\ map handle (timers (world (step (Render p) i))) = [1; 2]
  /\ armings (calls (world (step (Render p) i))) = 2
  /\ invocationUpdates (calls (world (step (Render p) i))) = 2
  /\ functionCallOutput (state (world (step (Render p) i))) = Some second.
Proof.
  intros created first second other misnamed output p0 p i.
  assert (M : matchingEntries output = [first; second]) by reflexivity.
  assert (Al : alive (step (Render p) i) = true) by reflexivity.
  destruct (update_arms_one_timer_per_matching_entry [Render p0] p p0 2
              output [created]
              eq_refl eq_refl eq_refl eq_refl eq_refl (or_introl eq_refl) Al)
    as (T & Ar & U & F & _).
  fold i in T, Ar, U, F.
  split; [exact M|]. split; [exact Al|].
  split; [rewrite T; reflexivity|].
  split; [rewrite Ar; reflexivity|].
  split; [rewrite U; reflexivity|].
  rewrite F. reflexivity.
Defined.

(** C4, the claim as stated, fails. In an active session the component is
    mounted on an empty log; the next update brings a log whose newest
    event is a [response.done] with one matching entry and whose last
    element is [session.created]. The effect runs on it, registers the
    tool and arms timer 1; [functionAdded] changed, so the effect runs
    again in the same update, cancels timer 1 and arms timer 2: for one
    matching entry two timers were armed and the invocation was stored
    twice. *)
Lemma completion_with_registration_arms_twice :
  let output := [paletteCall oceanArguments] in
  let p := update 2 [responseDone output; plainEvent "session.created"] in
  let i := run [Render (update 1 [])] initial in
  let i' := step (Render p) i in
  length (matchingEntries output) = 1
  /\ alive i' = true
  /\ armings (calls (world i)) = 0
  /\ armings (calls (world i')) = 2
  /\ invocationUpdates (calls (world i)) = 0
  /\ invocationUpdates (calls (world i')) = 2
  /\ map handle (timers (world i')) = [2]
  /\ sent (world i') = [sessionUpdate].
Proof.
  vm_compute. repeat split.
Qed.

(* ================================================================== *)
(** ** The render that ends the session *)
(* ================================================================== *)






